(** * Hearts (app/game.py, app/ai.py, app/main.py): a shallow embedding and
    its properties

    Cards are Python strings of the form <rank><suit>; every operation that
    can raise in the source (indexing a string, a dictionary lookup,
    [list.remove], [list.index]) returns a [res] here.  Dictionaries are
    association lists in insertion order, since the source depends on the
    iteration order of its dictionaries ([find_two_clubs_player], the pass
    exchange, [min] over the scores).  The methods of [HeartsGame] are
    actions of a state-and-exception monad over [GameState]: a raising call
    keeps the mutations done before the raise, as the Python object does.
    The shuffled deck of [deal_hands] and the token of [Room.add_player] are
    parameters.  Of app/main.py the [Room] methods and [pass_dir_label] are
    embedded; the bots of app/ai.py are embedded in full. *)

From Stdlib Require Import String Ascii List ZArith Lia Bool Permutation Sorted.
Import ListNotations.

Local Open Scope string_scope.
Local Open Scope list_scope.
Local Open Scope Z_scope.

(** ** Exceptions and results *)

Inductive exn : Type := IndexError | KeyError | ValueError | ZeroDivisionError.

Inductive res (A : Type) : Type :=
| Ok (a : A)
| Raise (e : exn).

Arguments Ok {A} a.
Arguments Raise {A} e.

Definition rbind {A B : Type} (r : res A) (k : A -> res B) : res B :=
  match r with
  | Ok a => k a
  | Raise e => Raise e
  end.

Declare Scope res_scope.
Delimit Scope res_scope with res.
Notation "x <- r ;; k" := (rbind r (fun x => k))
  (at level 61, r at next level, right associativity) : res_scope.
Local Open Scope res_scope.

(** [[f(x) for x in l]] with a raising [f]: stops at the first raise. *)
Fixpoint mapM {A B : Type} (f : A -> res B) (l : list A) : res (list B) :=
  match l with
  | [] => Ok []
  | x :: l' => y <- f x ;; ys <- mapM f l' ;; Ok (y :: ys)
  end.

(** [[x for x in l if p(x)]] with a raising [p]. *)
Fixpoint filterM {A : Type} (p : A -> res bool) (l : list A) : res (list A) :=
  match l with
  | [] => Ok []
  | x :: l' =>
      b <- p x ;; ys <- filterM p l' ;; Ok (if b then x :: ys else ys)
  end.

(** A [for] loop threading an accumulator, with a raising body. *)
Fixpoint foldM {A B : Type} (f : B -> A -> res B) (l : list A) (b : B) : res B :=
  match l with
  | [] => Ok b
  | x :: l' => b' <- f b x ;; foldM f l' b'
  end.

(** ** Lists as Python uses them *)

(** [x in l] on a list of strings. *)
Definition mem (x : string) (l : list string) : bool :=
  existsb (String.eqb x) l.

(** [l.remove(x)]: drops the first occurrence, [ValueError] when absent. *)
Fixpoint list_remove (x : string) (l : list string) : res (list string) :=
  match l with
  | [] => Raise ValueError
  | y :: l' =>
      if String.eqb y x then Ok l'
      else (r <- list_remove x l' ;; Ok (y :: r))
  end.

(** [l.index(x)]: position of the first occurrence, [ValueError] when absent. *)
Fixpoint list_index {A : Type} (eqb : A -> A -> bool) (x : A) (l : list A) : res Z :=
  match l with
  | [] => Raise ValueError
  | y :: l' =>
      if eqb y x then Ok 0
      else (i <- list_index eqb x l' ;; Ok (i + 1))
  end.

(** [l[i]] for a non-negative [i]. *)
Definition list_at {A : Type} (l : list A) (i : Z) : res A :=
  match nth_error l (Z.to_nat i) with
  | Some x => Ok x
  | None => Raise IndexError
  end.

Definition len {A : Type} (l : list A) : Z := Z.of_nat (length l).

(** ** Dictionaries in insertion order *)

Module Dict.
Section Defs.
Context {V : Type}.

Definition t : Type := list (string * V).

Fixpoint get (d : t) (k : string) : option V :=
  match d with
  | [] => None
  | (k', v) :: d' => if String.eqb k' k then Some v else get d' k
  end.

(** [d.get(k, default)] *)
Definition get_default (d : t) (k : string) (default : V) : V :=
  match get d k with
  | Some v => v
  | None => default
  end.

(** [d[k]] *)
Definition getitem (d : t) (k : string) : res V :=
  match get d k with
  | Some v => Ok v
  | None => Raise KeyError
  end.

(** [d[k] = v]: an existing key keeps its place, a new key goes last. *)
Fixpoint set (d : t) (k : string) (v : V) : t :=
  match d with
  | [] => [(k, v)]
  | (k', v') :: d' =>
      if String.eqb k' k then (k, v) :: d' else (k', v') :: set d' k v
  end.

(** [d.pop(k, None)] *)
Fixpoint pop (d : t) (k : string) : t :=
  match d with
  | [] => []
  | (k', v) :: d' => if String.eqb k' k then d' else (k', v) :: pop d' k
  end.

Definition keys (d : t) : list string := map fst d.
Definition values (d : t) : list V := map snd d.
Definition items (d : t) : list (string * V) := d.

(** [{k: f(k) for k in ks}] *)
Definition from_keys (ks : list string) (f : string -> V) : t :=
  fold_left (fun d k => set d k (f k)) ks [].
End Defs.
Arguments t V : clear implicits.
End Dict.

(** ** Cards *)

Definition Card : Type := string.

Definition SUITS : list ascii := ["C"; "D"; "S"; "H"]%char.
Definition RANKS : list ascii :=
  ["2"; "3"; "4"; "5"; "6"; "7"; "8"; "9"; "T"; "J"; "Q"; "K"; "A"]%char.

(** [RANK_VALUE[rank]]: [KeyError] for a character that is no rank. *)
Definition RANK_VALUE (rank : ascii) : res Z :=
  match list_index Ascii.eqb rank RANKS with
  | Ok i => Ok i
  | Raise _ => Raise KeyError
  end.

Definition PASS_LEFT : Z := 0.
Definition PASS_RIGHT : Z := 1.
Definition PASS_ACROSS : Z := 2.
Definition PASS_HOLD : Z := 3.

Definition make_deck : list Card :=
  flat_map (fun suit => map (fun rank => String rank (String suit "")) RANKS) SUITS.

(** [card[1]] *)
Definition card_suit (card : Card) : res ascii :=
  match String.get 1 card with
  | Some a => Ok a
  | None => Raise IndexError
  end.

(** [card[0]] *)
Definition card_rank (card : Card) : res ascii :=
  match String.get 0 card with
  | Some a => Ok a
  | None => Raise IndexError
  end.

Definition card_points (card : Card) : res Z :=
  s <- card_suit card ;;
  if Ascii.eqb s "H" then Ok 1
  else if String.eqb card "QS" then Ok 13
  else Ok 0.

Definition is_point_card (card : Card) : res bool :=
  p <- card_points card ;; Ok (0 <? p).

(** The sort key of a hand: [(SUITS.index(suit), RANK_VALUE[rank])]. *)
Definition card_key (c : Card) : res (Z * Z) :=
  s <- card_suit c ;;
  i <- list_index Ascii.eqb s SUITS ;;
  r <- card_rank c ;;
  v <- RANK_VALUE r ;;
  Ok (i, v).

Definition key_le (a b : Z * Z) : bool :=
  (fst a <? fst b) || ((fst a =? fst b) && (snd a <=? snd b)).

(** Stable insertion into a list sorted by key: the new element goes after
    the elements whose key is less than or equal to its own. *)
Fixpoint insert_by_key (x : (Z * Z) * Card) (l : list ((Z * Z) * Card))
  : list ((Z * Z) * Card) :=
  match l with
  | [] => [x]
  | y :: l' =>
      if key_le (fst y) (fst x) then y :: insert_by_key x l' else x :: y :: l'
  end.

Definition sort_keyed (l : list ((Z * Z) * Card)) : list ((Z * Z) * Card) :=
  fold_left (fun acc x => insert_by_key x acc) l [].

(** [hand.sort(key=...)]: the keys are computed first (a raising key leaves
    the list as it was), then the list is sorted stably. *)
Definition sort_hand (hand : list Card) : res (list Card) :=
  ks <- mapM card_key hand ;;
  Ok (map snd (sort_keyed (combine ks hand))).

(** [enumerate(l)] *)
Definition enumerate {A : Type} (l : list A) : list (Z * A) :=
  combine (map Z.of_nat (seq 0 (length l))) l.

(** ** Players and the game state *)

Record PlayerState : Type := mkPlayer {
  id : string;
  name : string;
  is_bot : bool
}.

Inductive Phase : Type := lobby | passing | playing | round_end | game_over.

Definition phase_eqb (a b : Phase) : bool :=
  match a, b with
  | lobby, lobby | passing, passing | playing, playing
  | round_end, round_end | game_over, game_over => true
  | _, _ => false
  end.

Definition Trick : Type := list (string * Card).

Record GameState : Type := mkState {
  players : list PlayerState;
  scores : Dict.t Z;
  hands : Dict.t (list Card);
  hearts_broken : bool;
  trick : Trick;
  last_trick : Trick;
  current_turn : option string;
  round_index : Z;
  trick_index : Z;
  phase : Phase;
  pass_dir : Z;
  pending_pass : Dict.t (list Card);
  taken_points_round : Dict.t Z;
  winner_id : option string
}.

Definition player_order (st : GameState) : list string := map id (players st).

(** ** The pure rule functions *)

(** [deck] is the deck after [random.shuffle]. *)
Definition deal_hands (players : list PlayerState) (deck : list Card)
  : res (Dict.t (list Card)) :=
  let hands := Dict.from_keys (map id players) (fun _ => @nil Card) in
  hands <- foldM (fun hands (ic : Z * Card) =>
             let (i, card) := ic in
             if len players =? 0 then Raise ZeroDivisionError
             else
               p <- list_at players (i mod len players) ;;
               h <- Dict.getitem hands (id p) ;;
               Ok (Dict.set hands (id p) (h ++ [card])))
           (enumerate deck) hands ;;
  foldM (fun hands pid =>
           h <- Dict.getitem hands pid ;;
           s <- sort_hand h ;;
           Ok (Dict.set hands pid s))
        (Dict.keys hands) hands.

Fixpoint find_two_clubs_player (hands : Dict.t (list Card)) : option string :=
  match hands with
  | [] => None
  | (pid, hand) :: hands' =>
      if mem "2C" hand then Some pid else find_two_clubs_player hands'
  end.

(** One iteration of the loop of [trick_winner]. *)
Definition trick_winner_step (lead_suit : ascii) (winning pc : string * Card)
  : res (string * Card) :=
  s <- card_suit (snd pc) ;;
  if negb (Ascii.eqb s lead_suit) then Ok winning
  else
    r <- card_rank (snd pc) ;;
    v <- RANK_VALUE r ;;
    rw <- card_rank (snd winning) ;;
    vw <- RANK_VALUE rw ;;
    Ok (if v >? vw then pc else winning).

Definition trick_winner (trick : Trick) : res string :=
  match trick with
  | [] => Raise IndexError
  | first :: rest =>
      lead_suit <- card_suit (snd first) ;;
      winning <- foldM (trick_winner_step lead_suit) rest first ;;
      Ok (fst winning)
  end.

Definition pass_map (players : list PlayerState) (direction : Z)
  : res (Dict.t string) :=
  let order := map id players in
  let size := len order in
  foldM (fun mapping (ip : Z * string) =>
           let (idx, pid) := ip in
           target <-
             (if direction =? PASS_LEFT then list_at order ((idx + 1) mod size)
              else if direction =? PASS_RIGHT then list_at order ((idx - 1) mod size)
              else if direction =? PASS_ACROSS then list_at order ((idx + 2) mod size)
              else Ok pid) ;;
           Ok (Dict.set mapping pid target))
        (enumerate order) [].

Definition suit_is (suit : ascii) (c : Card) : res bool :=
  s <- card_suit c ;; Ok (Ascii.eqb s suit).

Definition suit_is_not (suit : ascii) (c : Card) : res bool :=
  s <- card_suit c ;; Ok (negb (Ascii.eqb s suit)).

Definition not_point_card (c : Card) : res bool :=
  p <- is_point_card c ;; Ok (negb p).

Definition legal_moves (hand : list Card) (trick : Trick)
    (hearts_broken is_first_trick : bool) : res (list Card) :=
  match hand with
  | [] => Ok []
  | hand0 :: _ =>
      match trick with
      | [] =>
          if is_first_trick then
            Ok (if mem "2C" hand then ["2C"] else [hand0])
          else if hearts_broken then Ok hand
          else
            non_hearts <- filterM (suit_is_not "H") hand ;;
            Ok (match non_hearts with [] => hand | _ :: _ => non_hearts end)
      | lead :: _ =>
          lead_suit <- card_suit (snd lead) ;;
          suited <- filterM (suit_is lead_suit) hand ;;
          match suited with
          | _ :: _ => Ok suited
          | [] =>
              if is_first_trick then
                non_points <- filterM not_point_card hand ;;
                Ok (match non_points with [] => hand | _ :: _ => non_points end)
              else Ok hand
          end
      end
  end.

(** ** The state-and-exception monad of the [HeartsGame] methods *)

Definition M (A : Type) : Type := GameState -> GameState * res A.

Definition ret {A : Type} (a : A) : M A := fun st => (st, Ok a).

Definition bind {A B : Type} (m : M A) (k : A -> M B) : M B :=
  fun st =>
    match m st with
    | (st', Ok a) => k a st'
    | (st', Raise e) => (st', Raise e)
    end.

Definition get : M GameState := fun st => (st, Ok st).
Definition modify (f : GameState -> GameState) : M unit := fun st => (f st, Ok tt).
Definition lift {A : Type} (r : res A) : M A := fun st => (st, r).

Notation "x <~ m ;; k" := (bind m (fun x => k))
  (at level 61, m at next level, right associativity).
Notation "m ;;; k" := (bind m (fun _ => k))
  (at level 61, right associativity).

(** A [for] loop over [l] whose body mutates the state. *)
Fixpoint forM_ {A : Type} (l : list A) (f : A -> M unit) : M unit :=
  match l with
  | [] => ret tt
  | x :: l' => f x ;;; forM_ l' f
  end.

(** Field assignments [self.state.<field> = v]. *)
Definition set_scores (v : Dict.t Z) (s : GameState) : GameState :=
  mkState (players s) v (hands s) (hearts_broken s) (trick s) (last_trick s)
    (current_turn s) (round_index s) (trick_index s) (phase s) (pass_dir s)
    (pending_pass s) (taken_points_round s) (winner_id s).
Definition set_hands (v : Dict.t (list Card)) (s : GameState) : GameState :=
  mkState (players s) (scores s) v (hearts_broken s) (trick s) (last_trick s)
    (current_turn s) (round_index s) (trick_index s) (phase s) (pass_dir s)
    (pending_pass s) (taken_points_round s) (winner_id s).
Definition set_hearts_broken (v : bool) (s : GameState) : GameState :=
  mkState (players s) (scores s) (hands s) v (trick s) (last_trick s)
    (current_turn s) (round_index s) (trick_index s) (phase s) (pass_dir s)
    (pending_pass s) (taken_points_round s) (winner_id s).
Definition set_trick (v : Trick) (s : GameState) : GameState :=
  mkState (players s) (scores s) (hands s) (hearts_broken s) v (last_trick s)
    (current_turn s) (round_index s) (trick_index s) (phase s) (pass_dir s)
    (pending_pass s) (taken_points_round s) (winner_id s).
Definition set_last_trick (v : Trick) (s : GameState) : GameState :=
  mkState (players s) (scores s) (hands s) (hearts_broken s) (trick s) v
    (current_turn s) (round_index s) (trick_index s) (phase s) (pass_dir s)
    (pending_pass s) (taken_points_round s) (winner_id s).
Definition set_current_turn (v : option string) (s : GameState) : GameState :=
  mkState (players s) (scores s) (hands s) (hearts_broken s) (trick s) (last_trick s)
    v (round_index s) (trick_index s) (phase s) (pass_dir s)
    (pending_pass s) (taken_points_round s) (winner_id s).
Definition set_round_index (v : Z) (s : GameState) : GameState :=
  mkState (players s) (scores s) (hands s) (hearts_broken s) (trick s) (last_trick s)
    (current_turn s) v (trick_index s) (phase s) (pass_dir s)
    (pending_pass s) (taken_points_round s) (winner_id s).
Definition set_trick_index (v : Z) (s : GameState) : GameState :=
  mkState (players s) (scores s) (hands s) (hearts_broken s) (trick s) (last_trick s)
    (current_turn s) (round_index s) v (phase s) (pass_dir s)
    (pending_pass s) (taken_points_round s) (winner_id s).
Definition set_phase (v : Phase) (s : GameState) : GameState :=
  mkState (players s) (scores s) (hands s) (hearts_broken s) (trick s) (last_trick s)
    (current_turn s) (round_index s) (trick_index s) v (pass_dir s)
    (pending_pass s) (taken_points_round s) (winner_id s).
Definition set_pass_dir (v : Z) (s : GameState) : GameState :=
  mkState (players s) (scores s) (hands s) (hearts_broken s) (trick s) (last_trick s)
    (current_turn s) (round_index s) (trick_index s) (phase s) v
    (pending_pass s) (taken_points_round s) (winner_id s).
Definition set_pending_pass (v : Dict.t (list Card)) (s : GameState) : GameState :=
  mkState (players s) (scores s) (hands s) (hearts_broken s) (trick s) (last_trick s)
    (current_turn s) (round_index s) (trick_index s) (phase s) (pass_dir s)
    v (taken_points_round s) (winner_id s).
Definition set_taken_points_round (v : Dict.t Z) (s : GameState) : GameState :=
  mkState (players s) (scores s) (hands s) (hearts_broken s) (trick s) (last_trick s)
    (current_turn s) (round_index s) (trick_index s) (phase s) (pass_dir s)
    (pending_pass s) v (winner_id s).
Definition set_winner_id (v : option string) (s : GameState) : GameState :=
  mkState (players s) (scores s) (hands s) (hearts_broken s) (trick s) (last_trick s)
    (current_turn s) (round_index s) (trick_index s) (phase s) (pass_dir s)
    (pending_pass s) (taken_points_round s) v.

(** [self.state.hands[pid] = f(self.state.hands[pid])], with a raising [f]. *)
Definition update_hand (pid : string) (f : list Card -> res (list Card)) : M unit :=
  st <~ get ;;
  h <~ lift (Dict.getitem (hands st) pid) ;;
  h' <~ lift (f h) ;;
  modify (set_hands (Dict.set (hands st) pid h')).

(** [self.state.scores[pid] += n] *)
Definition add_score (pid : string) (n : Z) : M unit :=
  st <~ get ;;
  s <~ lift (Dict.getitem (scores st) pid) ;;
  modify (set_scores (Dict.set (scores st) pid (s + n))).

(** ** HeartsGame *)

(** [HeartsGame.__init__] *)
Definition HeartsGame (players : list PlayerState) : GameState :=
  mkState players (Dict.from_keys (map id players) (fun _ => 0)) [] false [] []
    None 0 0 lobby PASS_LEFT [] [] None.

Definition start_round (deck : list Card) : M unit :=
  st <~ get ;;
  dealt <~ lift (deal_hands (players st) deck) ;;
  modify (set_hands dealt) ;;;
  modify (set_trick []) ;;;
  modify (set_last_trick []) ;;;
  modify (set_hearts_broken false) ;;;
  modify (set_trick_index 0) ;;;
  modify (set_pending_pass []) ;;;
  modify (set_taken_points_round (Dict.from_keys (map id (players st)) (fun _ => 0))) ;;;
  modify (set_pass_dir (round_index st mod 4)) ;;;
  st <~ get ;;
  if pass_dir st =? PASS_HOLD then
    modify (set_phase playing) ;;;
    modify (set_current_turn (find_two_clubs_player (hands st)))
  else
    modify (set_phase passing) ;;;
    modify (set_current_turn None).

(** The exchange of [submit_pass], once every seat has a pending pass. *)
Definition exchange_passes : M unit :=
  st <~ get ;;
  mapping <~ lift (pass_map (players st) (pass_dir st)) ;;
  forM_ (Dict.items (pending_pass st)) (fun pp =>
    forM_ (snd pp) (fun card => update_hand (fst pp) (list_remove card))) ;;;
  forM_ (Dict.items (pending_pass st)) (fun pp =>
    target <~ lift (Dict.getitem mapping (fst pp)) ;;
    update_hand target (fun h => Ok (h ++ snd pp))) ;;;
  st <~ get ;;
  forM_ (Dict.keys (hands st)) (fun pid => update_hand pid sort_hand) ;;;
  modify (set_pending_pass []) ;;;
  modify (set_phase playing) ;;;
  st <~ get ;;
  modify (set_current_turn (find_two_clubs_player (hands st))).

Definition submit_pass (player_id : string) (cards : list Card) : M bool :=
  st <~ get ;;
  if negb (phase_eqb (phase st) passing) then ret false
  else if negb (len cards =? 3) then ret false
  else
    let hand := Dict.get_default (hands st) player_id [] in
    if existsb (fun card => negb (mem card hand)) cards then ret false
    else
      modify (set_pending_pass (Dict.set (pending_pass st) player_id cards)) ;;;
      st <~ get ;;
      if len (pending_pass st) <? len (players st) then ret true
      else exchange_passes ;;; ret true.

Definition next_player (st : GameState) (player_id : string) : res string :=
  let order := player_order st in
  idx <- list_index String.eqb player_id order ;;
  list_at order ((idx + 1) mod len order).

(** [max(l, default=0)] *)
Definition max_default0 (l : list Z) : Z :=
  match l with
  | [] => 0
  | x :: l' => fold_left Z.max l' x
  end.

(** [min(d, key=d.get)]: the first key, in iteration order, whose value is
    minimal; [ValueError] on an empty dictionary. *)
Definition min_step (d : Dict.t Z) (best : string * Z) (k : string)
  : res (string * Z) :=
  v <- Dict.getitem d k ;;
  Ok (if v <? snd best then (k, v) else best).

Definition min_key (d : Dict.t Z) : res string :=
  match Dict.keys d with
  | [] => Raise ValueError
  | k0 :: ks =>
      v0 <- Dict.getitem d k0 ;;
      best <- foldM (min_step d) ks (k0, v0) ;;
      Ok (fst best)
  end.

(** The first seat, in iteration order, with exactly 26 points. *)
Fixpoint find_moon_shooter (taken : Dict.t Z) : option string :=
  match taken with
  | [] => None
  | (pid, points) :: taken' =>
      if points =? 26 then Some pid else find_moon_shooter taken'
  end.

(** Truth value of an [Optional[str]]: [None] and the empty string are false. *)
Definition truthy (o : option string) : bool :=
  match o with
  | None => false
  | Some s => negb (String.eqb s "")
  end.

(** [o == s] for an [Optional[str]] and a [str]. *)
Definition opt_is (o : option string) (s : string) : bool :=
  match o with
  | None => false
  | Some s' => String.eqb s' s
  end.

Definition finish_round : M unit :=
  modify (set_phase round_end) ;;;
  st <~ get ;;
  let moon_shooter := find_moon_shooter (taken_points_round st) in
  (if truthy moon_shooter then
     forM_ (Dict.keys (scores st)) (fun pid =>
       if opt_is moon_shooter pid then ret tt else add_score pid 26)
   else
     forM_ (Dict.items (taken_points_round st)) (fun pp =>
       add_score (fst pp) (snd pp))) ;;;
  st <~ get ;;
  modify (set_round_index (round_index st + 1)) ;;;
  st <~ get ;;
  if max_default0 (Dict.values (scores st)) >=? 100 then
    modify (set_phase game_over) ;;;
    w <~ lift (min_key (scores st)) ;;
    modify (set_winner_id (Some w))
  else ret tt.

(** [sum(card_points(c) for _, c in trick)] *)
Definition trick_points (trick : Trick) : res Z :=
  foldM (fun acc (pc : string * Card) => p <- card_points (snd pc) ;; Ok (acc + p))
        trick 0.

(** The part of [play_card] after the trick has received its last card. *)
Definition complete_trick : M unit :=
  st <~ get ;;
  winner <~ lift (trick_winner (trick st)) ;;
  points <~ lift (trick_points (trick st)) ;;
  taken <~ lift (Dict.getitem (taken_points_round st) winner) ;;
  modify (set_taken_points_round
            (Dict.set (taken_points_round st) winner (taken + points))) ;;;
  modify (set_last_trick (trick st)) ;;;
  modify (set_trick []) ;;;
  modify (set_current_turn (Some winner)) ;;;
  st <~ get ;;
  if forallb (fun h => len h =? 0) (Dict.values (hands st)) then finish_round
  else modify (set_trick_index (trick_index st + 1)).

(** The part of [play_card] after the card has been found legal. *)
Definition play_accepted (player_id : string) (card : Card) : M bool :=
  st <~ get ;;
  (match trick st with
   | [] => modify (set_last_trick [])
   | _ :: _ => ret tt
   end) ;;;
  update_hand player_id (list_remove card) ;;;
  modify (set_trick (trick st ++ [(player_id, card)])) ;;;
  suit <~ lift (card_suit card) ;;
  (if Ascii.eqb suit "H" then modify (set_hearts_broken true) else ret tt) ;;;
  st <~ get ;;
  if len (trick st) <? len (players st) then
    nxt <~ lift (next_player st player_id) ;;
    modify (set_current_turn (Some nxt)) ;;;
    ret true
  else complete_trick ;;; ret true.

Definition play_card (player_id : string) (card : Card) : M bool :=
  st <~ get ;;
  if negb (phase_eqb (phase st) playing) then ret false
  else if negb (opt_is (current_turn st) player_id) then ret false
  else
    let hand := Dict.get_default (hands st) player_id [] in
    if negb (mem card hand) then ret false
    else
      let is_first_trick := trick_index st =? 0 in
      legal <~ lift (legal_moves hand (trick st) (hearts_broken st) is_first_trick) ;;
      if negb (mem card legal) then ret false
      else play_accepted player_id card.

Definition start_next_round (deck : list Card) : M bool :=
  st <~ get ;;
  if negb (phase_eqb (phase st) round_end) then ret false
  else start_round deck ;;; ret true.

Definition get_legal_moves (st : GameState) (player_id : string) : res (list Card) :=
  let hand := Dict.get_default (hands st) player_id [] in
  legal_moves hand (trick st) (hearts_broken st) (trick_index st =? 0).

(** ** The bots (app/ai.py) *)

(** [sort_key] of [choose_pass] and [choose_play]:
    [(card_points(card), RANK_VALUE[card_rank(card)])]. *)
Definition sort_key (card : Card) : res (Z * Z) :=
  p <- card_points card ;;
  r <- card_rank card ;;
  v <- RANK_VALUE r ;;
  Ok (p, v).

(** [sorted(l, key=key, reverse=reverse)]: the keys are computed first, the
    sort is stable, and a reversed sort reverses the list, sorts it and
    reverses the result, so that equal keys keep their order. *)
Definition sorted_by (key : Card -> res (Z * Z)) (reverse : bool) (l : list Card)
  : res (list Card) :=
  ks <- mapM key l ;;
  let keyed := combine ks l in
  Ok (map snd (if reverse then rev (sort_keyed (rev keyed)) else sort_keyed keyed)).

(** [sorted(hand, key=sort_key, reverse=True)[:3]] *)
Definition choose_pass (hand : list Card) : res (list Card) :=
  s <- sorted_by sort_key true hand ;;
  Ok (firstn 3 s).

(** [sorted(legal_moves, key=sort_key)[0]] *)
Definition choose_play (legal_moves : list Card) : res Card :=
  s <- sorted_by sort_key false legal_moves ;;
  list_at s 0.

(** The bot key of a card that has one. *)
Definition bot_key (c : Card) : Z * Z :=
  match sort_key c with
  | Ok k => k
  | Raise _ => (0, 0)
  end.

(** ** Rooms (app/main.py) *)

(** A room; of a connection only the id of its player matters here.  The
    [PlayerState] objects of a started game are those of the room
    ([HeartsGame(list(room.players.values()))]). *)
Record Room : Type := mkRoom {
  room_id : string;
  max_players : Z;
  room_players : Dict.t PlayerState;
  host_id : option string;
  game : option GameState;
  connections : Dict.t unit
}.

Definition set_room_players (v : Dict.t PlayerState) (r : Room) : Room :=
  mkRoom (room_id r) (max_players r) v (host_id r) (game r) (connections r).
Definition set_host_id (v : option string) (r : Room) : Room :=
  mkRoom (room_id r) (max_players r) (room_players r) v (game r) (connections r).
Definition set_game (v : option GameState) (r : Room) : Room :=
  mkRoom (room_id r) (max_players r) (room_players r) (host_id r) v (connections r).
Definition set_connections (v : Dict.t unit) (r : Room) : Room :=
  mkRoom (room_id r) (max_players r) (room_players r) (host_id r) (game r) v.

(** [self.game and self.game.state.phase != "lobby"] *)
Definition game_started (r : Room) : bool :=
  match game r with
  | Some g => negb (phase_eqb (phase g) lobby)
  | None => false
  end.

(** [player_id] is the token that [secrets.token_hex(4)] returns. *)
Definition add_player (name : string) (is_bot : bool) (player_id : string)
    (r : Room) : Room * option PlayerState :=
  if len (room_players r) >=? max_players r then (r, None)
  else if game_started r then (r, None)
  else
    let player := mkPlayer player_id name is_bot in
    let r1 := set_room_players (Dict.set (room_players r) player_id player) r in
    let r2 := if truthy (host_id r1) then r1
              else set_host_id (Some player_id) r1 in
    (r2, Some player).

(** [player.is_bot = True] as the game sees it: its players are the objects
    of the room. *)
Definition mark_bot (player_id : string) (p : PlayerState) : PlayerState :=
  if String.eqb (id p) player_id then mkPlayer (id p) (name p) true else p.

Definition mark_bot_in_game (player_id : string) (g : GameState) : GameState :=
  mkState (map (mark_bot player_id) (players g)) (scores g) (hands g)
    (hearts_broken g) (trick g) (last_trick g) (current_turn g) (round_index g)
    (trick_index g) (phase g) (pass_dir g) (pending_pass g)
    (taken_points_round g) (winner_id g).

Definition remove_player (player_id : string) (r : Room) : Room :=
  let r := set_connections (Dict.pop (connections r) player_id) r in
  if game_started r then
    match Dict.get (room_players r) player_id with
    | Some player =>
        set_game (option_map (mark_bot_in_game player_id) (game r))
          (set_room_players
             (Dict.set (room_players r) player_id
                (mkPlayer (id player) (name player) true)) r)
    | None => r
    end
  else
    let r := set_room_players (Dict.pop (room_players r) player_id) r in
    if opt_is (host_id r) player_id then
      set_host_id (hd_error (Dict.keys (room_players r))) r
    else r.

(** [pass_dir_label] *)
Definition pass_dir_label (pass_dir : Z) : string :=
  if pass_dir =? PASS_LEFT then "left"
  else if pass_dir =? PASS_RIGHT then "right"
  else if pass_dir =? PASS_ACROSS then "across"
  else "hold".

(** * Vocabulary of the statements *)

(** The 52 cards. *)
Definition deck_card (c : Card) : Prop := In c make_deck.

(** The rank value of a card, [RANK_VALUE[card_rank(c)]]. *)
Definition rank_value (c : Card) : res Z :=
  r <- card_rank c ;; RANK_VALUE r.

Definition is_ok {A : Type} (r : res A) : bool :=
  match r with Ok _ => true | Raise _ => false end.

(** The card has suit [s]; false for a string too short to have a suit. *)
Definition has_suit (s : ascii) (c : Card) : bool :=
  match card_suit c with
  | Ok s' => Ascii.eqb s' s
  | Raise _ => false
  end.

(** Point cards as the rules name them: every heart and the queen of spades. *)
Definition point_card (c : Card) : bool :=
  has_suit "H" c || String.eqb c "QS".

(** Play number [i] of [trick] is the first highest-ranked play of suit
    [lead_suit]: it has that suit, no play of that suit has a higher rank,
    and every earlier play of that suit has a strictly lower rank. *)
Definition first_highest (lead_suit : ascii) (trick : Trick) (i : nat) : Prop :=
  exists (w : string * Card) (v : Z),
    nth_error trick i = Some w /\
    card_suit (snd w) = Ok lead_suit /\
    rank_value (snd w) = Ok v /\
    forall (j : nat) (pc : string * Card) (vj : Z),
      nth_error trick j = Some pc ->
      card_suit (snd pc) = Ok lead_suit ->
      rank_value (snd pc) = Ok vj ->
      vj <= v /\ ((j < i)%nat -> vj < v).

(** Cumulative score and points of the round of a seat (0 for a seat that
    has no entry). *)
Definition score (st : GameState) (pid : string) : Z :=
  Dict.get_default (scores st) pid 0.

Definition taken (st : GameState) (pid : string) : Z :=
  Dict.get_default (taken_points_round st) pid 0.

(** The seats of a game: [scores] and [taken_points_round] are keyed by the
    players in seat order, and no two players share an id. *)
Definition seats_ok (st : GameState) : Prop :=
  NoDup (player_order st) /\
  Dict.keys (scores st) = player_order st /\
  Dict.keys (taken_points_round st) = player_order st.

(** The body of a scoring loop: the seat [key x] gains [n] points when
    [amt x = Some n], and is skipped when [amt x = None]. *)
Definition score_body {A : Type} (key : A -> string) (amt : A -> option Z)
    (x : A) : M unit :=
  match amt x with
  | None => ret tt
  | Some n => add_score (key x) n
  end.

Definition amount (o : option Z) : Z :=
  match o with
  | Some n => n
  | None => 0
  end.

(** Seat number [i] of [order] is the first seat with the lowest value of
    [f]: no seat has a lower value, and every earlier seat has a strictly
    higher one. *)
Definition first_lowest (order : list string) (f : string -> Z) (i : nat) : Prop :=
  exists w : string,
    nth_error order i = Some w /\
    forall (j : nat) (p : string),
      nth_error order j = Some p ->
      f w <= f p /\ ((j < i)%nat -> f w < f p).

(** The state [finish_round] reaches once the scores [sc] of the round are
    in, before it looks for the end of the game. *)
Definition round_scored (st : GameState) (sc : Dict.t Z) : GameState :=
  set_round_index (round_index st + 1) (set_scores sc (set_phase round_end st)).

(** What a seat gains when a round is scored: 26 for every seat but the
    shooter after a moon shot, the seat's own points of the round otherwise. *)
Definition round_gain (st : GameState) (p : string) : Z :=
  let moon_shooter := find_moon_shooter (taken_points_round st) in
  if truthy moon_shooter then (if opt_is moon_shooter p then 0 else 26)
  else taken st p.

(** Four seats and a state at the end of a round's last trick, used to run
    the statements on concrete inputs. *)
Definition four_players : list PlayerState :=
  [mkPlayer "a" "Ann" false; mkPlayer "b" "Bob" false;
   mkPlayer "c" "Cy" true; mkPlayer "d" "Di" true].

Definition last_trick_state (sc tk : Dict.t Z) : GameState :=
  mkState four_players sc [("a", []); ("b", []); ("c", []); ("d", [])] true [] []
    (Some "a") 0 12 playing 0 [] tk None.

(** [keeps P m]: the action [m] preserves the property [P] of the state,
    whether it returns or raises. *)
Definition keeps (P : GameState -> Prop) {A : Type} (m : M A) : Prop :=
  forall st : GameState, P st -> P (fst (m st)).

(** The hand of a seat, [hands.get(pid, [])]. *)
Definition hand_of (st : GameState) (pid : string) : list Card :=
  Dict.get_default (hands st) pid [].

(** The seat at position [i] of [order], counted cyclically. *)
Definition seat_at (order : list string) (i : Z) : option string :=
  nth_error order (Z.to_nat (i mod len order)).

(** The sort key of a card that has one. *)
Definition key_of (c : Card) : Z * Z :=
  match card_key c with
  | Ok k => k
  | Raise _ => (0, 0)
  end.

(** A hand in the order of the sort key: clubs, diamonds, spades, hearts,
    and by rank within a suit. *)
Definition hand_sorted (hand : list Card) : Prop :=
  StronglySorted (fun a b => key_le (key_of a) (key_of b) = true) hand.

(** [dict_map_at ks G d]: the values at the keys [ks] replaced by their
    image under [G]. *)
Definition dict_map_at {V : Type} (ks : list string) (G : V -> V) (d : Dict.t V)
  : Dict.t V :=
  map (fun kv => (fst kv, if mem (fst kv) ks then G (snd kv) else snd kv)) d.

(** [hands[pid] = g(hands[pid])] on the dictionary of hands. *)
Definition hand_update (pid : string) (g : list Card -> res (list Card))
    (hs : Dict.t (list Card)) : res (Dict.t (list Card)) :=
  h <- Dict.getitem hs pid ;; h' <- g h ;; Ok (Dict.set hs pid h').

(** [for card in cards: h.remove(card)] *)
Definition remove_all (cards : list Card) (h : list Card) : res (list Card) :=
  foldM (fun h c => list_remove c h) cards h.

(** [on_hands m f]: the action [m] touches the hands only, and runs on them
    as the function [f]; when [f] raises, [m] raises the same exception. *)
Definition on_hands (m : M unit)
    (f : Dict.t (list Card) -> res (Dict.t (list Card))) : Prop :=
  forall st : GameState,
    match f (hands st) with
    | Ok hs' => m st = (set_hands hs' st, Ok tt)
    | Raise e => exists hs', m st = (set_hands hs' st, Raise e)
    end.

(** No string occurs twice in [l]. *)
Fixpoint distinct (l : list string) : bool :=
  match l with
  | [] => true
  | x :: l' => negb (mem x l') && distinct l'
  end.

(** The first round of four seats dealt from the unshuffled deck, once the
    seats b, c and d have passed. *)
Definition three_passed : GameState :=
  fst (submit_pass "d" ["5C"; "9C"; "KC"]
    (fst (submit_pass "c" ["4C"; "8C"; "QC"]
      (fst (submit_pass "b" ["3C"; "7C"; "JC"]
        (fst (start_round make_deck (HeartsGame four_players)))))))).

(** The three loops of the pass exchange, as functions on the hands. *)
Definition removal_loop (pending hs : Dict.t (list Card))
  : res (Dict.t (list Card)) :=
  foldM (fun hs (pp : string * list Card) =>
           foldM (fun hs c => hand_update (fst pp) (list_remove c) hs) (snd pp) hs)
        pending hs.

Definition extend_loop (mapping : Dict.t string) (pending hs : Dict.t (list Card))
  : res (Dict.t (list Card)) :=
  foldM (fun hs (pp : string * list Card) =>
           target <- Dict.getitem mapping (fst pp) ;;
           hand_update target (fun h => Ok (h ++ snd pp)) hs)
        pending hs.

Definition sort_loop (hs : Dict.t (list Card)) : res (Dict.t (list Card)) :=
  foldM (fun hs pid => hand_update pid sort_hand hs) (Dict.keys hs) hs.

(** The state [play_card] reaches once the card is on the table: the card
    has left the hand [h'] of the seat, it is the last play of the trick, and
    hearts are broken when it is a heart. *)
Definition card_played (st : GameState) (pid : string) (card : Card)
    (h' : list Card) (suit : ascii) : GameState :=
  let st1 := match trick st with [] => set_last_trick [] st | _ :: _ => st end in
  let st2 := set_trick (trick st ++ [(pid, card)])
               (set_hands (Dict.set (hands st) pid h') st1) in
  if Ascii.eqb suit "H" then set_hearts_broken true st2 else st2.

(** The state [play_card] reaches once the trick [tk] is complete: the seat
    [winner] has taken its points and is to lead. *)
Definition trick_taken (st : GameState) (winner : string) (points : Z) : GameState :=
  set_current_turn (Some winner)
    (set_trick []
       (set_last_trick (trick st)
          (set_taken_points_round
             (Dict.set (taken_points_round st) winner
                (Dict.get_default (taken_points_round st) winner 0 + points)) st))).

(** The points of a card as the rules give them. *)
Definition points_of (c : Card) : Z :=
  if has_suit "H" c then 1 else if String.eqb c "QS" then 13 else 0.

(** A table in order: the seats are distinct and key the scores, the points
    of the round and the hands; every card in a hand or on the table is a
    deck card, and every play on the table is the play of a seat. *)
Definition table_ok (st : GameState) : Prop :=
  seats_ok st /\
  Dict.keys (hands st) = player_order st /\
  (forall p h, In (p, h) (hands st) -> Forall deck_card h) /\
  (forall p c, In (p, c) (trick st) -> In p (player_order st) /\ deck_card c).

(** A hold round of four seats dealt from the unshuffled deck, once the
    seats a, b and c have played to the first trick. *)
Definition fourth_to_play : GameState :=
  fst (play_card "c" "4C"
    (fst (play_card "b" "3C"
      (fst (play_card "a" "2C"
        (fst (start_round make_deck
                (set_round_index 3 (HeartsGame four_players))))))))).

(** The points of a list of cards, and the points of a round that are still
    in play or already taken: in the hands, on the table, and in
    [taken_points_round]. *)
Definition cards_points (l : list Card) : Z :=
  fold_right (fun c n => points_of c + n) 0 l.

Definition points_in_play (st : GameState) : Z :=
  cards_points (concat (Dict.values (hands st)))
  + cards_points (map snd (trick st))
  + fold_right Z.add 0 (Dict.values (taken_points_round st)).

(** A thirteenth trick of four seats with one card left to play. *)
Definition last_card_state : GameState :=
  mkState four_players [("a", 0); ("b", 0); ("c", 0); ("d", 0)]
    [("a", []); ("b", []); ("c", []); ("d", ["5C"])] true
    [("a", "2C"); ("b", "3C"); ("c", "4C")] []
    (Some "d") 0 12 playing 0 [] [("a", 10); ("b", 3); ("c", 0); ("d", 13)] None.

(** A room in order: its players have distinct, non-empty ids, they are at
    most [max_players], and the host is one of them (no host exactly when
    the room is empty). *)
Definition room_ok (r : Room) : Prop :=
  NoDup (Dict.keys (room_players r)) /\
  (forall k, In k (Dict.keys (room_players r)) -> k <> "") /\
  len (room_players r) <= max_players r /\
  match host_id r with
  | Some h => In h (Dict.keys (room_players r))
  | None => room_players r = []
  end.

(** * Properties *)

(** ** Basic facts about the list and result helpers *)

Lemma mem_In (x : string) (l : list string) : mem x l = true <-> In x l.
Proof.
  unfold mem. rewrite existsb_exists. split.
  - intros [y [Hy He]]. apply String.eqb_eq in He. now subst.
  - intros H. exists x. split; [exact H | apply String.eqb_refl].
Qed.

Lemma mem_false (x : string) (l : list string) : mem x l = false <-> ~ In x l.
Proof.
  rewrite <- mem_In. destruct (mem x l); split; congruence.
Qed.

Lemma filterM_pure {A : Type} (p : A -> res bool) (q : A -> bool) (l : list A) :
  (forall x, In x l -> p x = Ok (q x)) -> filterM p l = Ok (filter q l).
Proof.
  induction l as [|x l IH]; intros H; simpl; [reflexivity|].
  rewrite (H x (or_introl eq_refl)). simpl.
  rewrite IH by (intros y Hy; apply H; now right). simpl.
  now destruct (q x).
Qed.

Lemma filter_nil_iff {A : Type} (q : A -> bool) (l : list A) :
  filter q l = [] <-> forall x, In x l -> q x = false.
Proof.
  induction l as [|x l IH]; simpl.
  - split; [intros _ y [] | reflexivity].
  - destruct (q x) eqn:E; split.
    + discriminate.
    + intros H. specialize (H x (or_introl eq_refl)). congruence.
    + intros H y [<-|Hy]; [exact E | now apply IH].
    + intros H. apply IH. intros y Hy. apply H. now right.
Qed.

(** ** The 52 cards *)

Lemma is_ok_true {A : Type} (r : res A) : is_ok r = true -> exists a, r = Ok a.
Proof. destruct r; simpl; [eauto | discriminate]. Qed.

Lemma deck_forall (P : Card -> bool) :
  forallb P make_deck = true -> forall c, deck_card c -> P c = true.
Proof. intros H c Hc. rewrite forallb_forall in H. now apply H. Qed.

Lemma deck_card_mem (c : Card) : mem c make_deck = true -> deck_card c.
Proof. apply mem_In. Qed.

(** Proves that the cards of a literal list are deck cards. *)
Ltac deck_cards :=
  repeat (apply Forall_cons; [apply deck_card_mem; reflexivity|]);
  apply Forall_nil.

Lemma deck_card_suit (c : Card) : deck_card c -> exists s, card_suit c = Ok s.
Proof.
  intros H. apply is_ok_true.
  revert c H. apply deck_forall. reflexivity.
Qed.

Lemma deck_card_rank_value (c : Card) : deck_card c -> exists v, rank_value c = Ok v.
Proof.
  intros H. apply is_ok_true.
  revert c H. apply deck_forall. reflexivity.
Qed.

Lemma deck_card_key (c : Card) : deck_card c -> exists k, card_key c = Ok k.
Proof.
  intros H. apply is_ok_true.
  revert c H. apply deck_forall. reflexivity.
Qed.

Lemma deck_card_points (c : Card) : deck_card c -> exists p, card_points c = Ok p.
Proof.
  intros H. apply is_ok_true.
  revert c H. apply deck_forall. reflexivity.
Qed.

Lemma suit_is_has_suit (s : ascii) (c : Card) :
  deck_card c -> suit_is s c = Ok (has_suit s c).
Proof.
  intros H. destruct (deck_card_suit c H) as [s' Hs].
  unfold suit_is, has_suit. now rewrite Hs.
Qed.

Lemma suit_is_not_has_suit (s : ascii) (c : Card) :
  deck_card c -> suit_is_not s c = Ok (negb (has_suit s c)).
Proof.
  intros H. destruct (deck_card_suit c H) as [s' Hs].
  unfold suit_is_not, has_suit. now rewrite Hs.
Qed.

Lemma not_point_card_point_card (c : Card) :
  deck_card c -> not_point_card c = Ok (negb (point_card c)).
Proof.
  intros H. destruct (deck_card_suit c H) as [s' Hs].
  unfold not_point_card, is_point_card, card_points, point_card, has_suit.
  rewrite Hs. simpl.
  destruct (Ascii.eqb s' "H"); simpl; [reflexivity|].
  destruct (String.eqb c "QS"); reflexivity.
Qed.

(** ** Legal moves *)

Section LegalMoves.
Variable hand : list Card.
Hypothesis hand_cards : Forall deck_card hand.

Lemma hand_deck_card : forall c, In c hand -> deck_card c.
Proof. now apply Forall_forall. Qed.

Lemma filterM_suit_is (s : ascii) :
  filterM (suit_is s) hand = Ok (filter (has_suit s) hand).
Proof.
  apply filterM_pure. intros c Hc. apply suit_is_has_suit, hand_deck_card, Hc.
Qed.

Lemma filterM_suit_is_not (s : ascii) :
  filterM (suit_is_not s) hand = Ok (filter (fun c => negb (has_suit s c)) hand).
Proof.
  apply filterM_pure. intros c Hc. apply suit_is_not_has_suit, hand_deck_card, Hc.
Qed.

Lemma filterM_not_point :
  filterM not_point_card hand = Ok (filter (fun c => negb (point_card c)) hand).
Proof.
  apply filterM_pure. intros c Hc.
  apply not_point_card_point_card, hand_deck_card, Hc.
Qed.
End LegalMoves.

Lemma legal_moves_lead_eq (hand : list Card) (hb first : bool) :
  hand <> [] ->
  legal_moves hand [] hb first =
  if first then Ok (if mem "2C" hand then ["2C"] else [hd "" hand])
  else if hb then Ok hand
  else
    non_hearts <- filterM (suit_is_not "H") hand ;;
    Ok (match non_hearts with [] => hand | _ :: _ => non_hearts end).
Proof. destruct hand; [congruence | reflexivity]. Qed.

Lemma legal_moves_follow_eq (hand : list Card) (lead : string * Card)
    (rest : Trick) (hb first : bool) :
  hand <> [] ->
  legal_moves hand (lead :: rest) hb first =
  lead_suit <- card_suit (snd lead) ;;
  suited <- filterM (suit_is lead_suit) hand ;;
  match suited with
  | _ :: _ => Ok suited
  | [] =>
      if first then
        non_points <- filterM not_point_card hand ;;
        Ok (match non_points with [] => hand | _ :: _ => non_points end)
      else Ok hand
  end.
Proof. destruct hand; [congruence | reflexivity]. Qed.

(** C5. Leading a trick (empty trick) with a non-empty hand: on the first
    trick the only legal card is the two of clubs when held, and otherwise a
    single card of the hand; on later tricks the whole hand is legal once
    hearts are broken, and before that the non-hearts are, or the whole hand
    when it holds nothing but hearts.  The hand {2C, AH} on the first trick
    gives {2C}, and an empty hand gives no legal card. *)
Theorem legal_moves_lead :
  (forall (hand : list Card) (hb : bool),
     hand <> [] ->
     (In "2C" hand -> legal_moves hand [] hb true = Ok ["2C"]) /\
     (~ In "2C" hand ->
        exists c, In c hand /\ legal_moves hand [] hb true = Ok [c]) /\
     legal_moves hand [] true false = Ok hand /\
     (Forall deck_card hand ->
        ((exists c, In c hand /\ has_suit "H" c = false) ->
           legal_moves hand [] false false
           = Ok (filter (fun c => negb (has_suit "H" c)) hand)) /\
        ((forall c, In c hand -> has_suit "H" c = true) ->
           legal_moves hand [] false false = Ok hand))) /\
  (forall hb : bool, legal_moves ["2C"; "AH"] [] hb true = Ok ["2C"]) /\
  (forall (trick : Trick) (hb first : bool), legal_moves [] trick hb first = Ok []).
Proof.
  split; [|split; [intros hb; reflexivity | intros; reflexivity]].
  intros hand hb Hne.
  split; [|split; [|split; [|intros Hdeck; split]]].
  - intros H2. apply mem_In in H2.
    rewrite legal_moves_lead_eq by assumption. now rewrite H2.
  - intros H2. apply mem_false in H2. exists (hd "" hand). split.
    + destruct hand; [congruence | now left].
    + rewrite legal_moves_lead_eq by assumption. now rewrite H2.
  - now rewrite legal_moves_lead_eq by assumption.
  - intros [c [Hc Hs]]. rewrite legal_moves_lead_eq by assumption.
    rewrite (filterM_suit_is_not hand Hdeck). cbn [rbind].
    destruct (filter (fun c => negb (has_suit "H" c)) hand) as [|x l] eqn:E;
      [|reflexivity].
    exfalso. rewrite filter_nil_iff in E. specialize (E c Hc).
    rewrite Hs in E. discriminate.
  - intros Hall. rewrite legal_moves_lead_eq by assumption.
    rewrite (filterM_suit_is_not hand Hdeck). cbn [rbind].
    assert (E : filter (fun c => negb (has_suit "H" c)) hand = []).
    { apply filter_nil_iff. intros c Hc. now rewrite (Hall c Hc). }
    now rewrite E.
Qed.

(** A use of [legal_moves_lead] on the hand {3C, KH, 5H}. *)
Lemma legal_moves_lead_witness :
  legal_moves ["3C"; "KH"; "5H"] [] false true = Ok ["3C"] /\
  legal_moves ["3C"; "KH"; "5H"] [] false false = Ok ["3C"].
Proof.
  destruct legal_moves_lead as [H _].
  destruct (H ["3C"; "KH"; "5H"] false) as [_ [H1 [_ H2]]]; [discriminate|].
  split.
  - destruct H1 as [c [Hc E]].
    + simpl. intros [A|[A|[A|[]]]]; discriminate.
    + rewrite E. simpl in Hc. destruct Hc as [<-|[<-|[<-|[]]]];
        [reflexivity | discriminate E | discriminate E].
  - destruct H2 as [H2 _].
    + deck_cards.
    + apply H2. exists "3C". split; [now left | reflexivity].
Defined.

(** C6. Following (non-empty trick) with a non-empty hand: the held cards of
    the lead suit, whenever there is one; otherwise, on the first trick, the
    held cards that are no point cards (no heart, not the queen of spades),
    or the whole hand when it holds point cards only; otherwise the whole
    hand. *)
Theorem legal_moves_follow (hand : list Card) (lead : string * Card)
    (rest : Trick) (hb : bool) (lead_suit : ascii) :
  hand <> [] ->
  Forall deck_card hand ->
  card_suit (snd lead) = Ok lead_suit ->
  (forall first : bool,
     (exists c, In c hand /\ has_suit lead_suit c = true) ->
     legal_moves hand (lead :: rest) hb first
     = Ok (filter (has_suit lead_suit) hand)) /\
  ((forall c, In c hand -> has_suit lead_suit c = false) ->
     ((exists c, In c hand /\ point_card c = false) ->
        legal_moves hand (lead :: rest) hb true
        = Ok (filter (fun c => negb (point_card c)) hand)) /\
     ((forall c, In c hand -> point_card c = true) ->
        legal_moves hand (lead :: rest) hb true = Ok hand) /\
     legal_moves hand (lead :: rest) hb false = Ok hand).
Proof.
  intros Hne Hdeck Hlead.
  assert (Hnil : (forall c, In c hand -> has_suit lead_suit c = false) ->
                 filter (has_suit lead_suit) hand = []).
  { intros H. now apply filter_nil_iff. }
  split; [|intros Hnone; split; [|split]].
  - intros first [c [Hc Hs]]. rewrite legal_moves_follow_eq by assumption.
    rewrite Hlead. cbn [rbind]. rewrite (filterM_suit_is hand Hdeck). cbn [rbind].
    destruct (filter (has_suit lead_suit) hand) as [|x l] eqn:E; [|reflexivity].
    exfalso. rewrite filter_nil_iff in E. specialize (E c Hc). congruence.
  - intros [c [Hc Hp]]. rewrite legal_moves_follow_eq by assumption.
    rewrite Hlead. cbn [rbind]. rewrite (filterM_suit_is hand Hdeck). cbn [rbind].
    rewrite (Hnil Hnone). rewrite (filterM_not_point hand Hdeck). cbn [rbind].
    destruct (filter (fun c => negb (point_card c)) hand) as [|x l] eqn:E;
      [|reflexivity].
    exfalso. rewrite filter_nil_iff in E. specialize (E c Hc).
    rewrite Hp in E. discriminate.
  - intros Hall. rewrite legal_moves_follow_eq by assumption.
    rewrite Hlead. cbn [rbind]. rewrite (filterM_suit_is hand Hdeck). cbn [rbind].
    rewrite (Hnil Hnone). rewrite (filterM_not_point hand Hdeck). cbn [rbind].
    assert (E : filter (fun c => negb (point_card c)) hand = []).
    { apply filter_nil_iff. intros c Hc. now rewrite (Hall c Hc). }
    now rewrite E.
  - rewrite legal_moves_follow_eq by assumption.
    rewrite Hlead. cbn [rbind]. rewrite (filterM_suit_is hand Hdeck). cbn [rbind].
    now rewrite (Hnil Hnone).
Qed.

(** A use of [legal_moves_follow]: the hand {QS, 4D, 7H} after a club lead
    on the first trick may only play the four of diamonds, and after a
    diamond lead must follow with it. *)
Lemma legal_moves_follow_witness :
  legal_moves ["QS"; "4D"; "7H"] [("a", "2C")] false true = Ok ["4D"] /\
  legal_moves ["QS"; "4D"; "7H"] [("a", "2D")] false false = Ok ["4D"].
Proof.
  assert (Hd : Forall deck_card ["QS"; "4D"; "7H"]).
  { deck_cards. }
  split.
  - destruct (legal_moves_follow ["QS"; "4D"; "7H"] ("a", "2C") [] false "C")
      as [_ H]; [discriminate | exact Hd | reflexivity |].
    destruct H as [H _].
    + intros c [<-|[<-|[<-|[]]]]; reflexivity.
    + apply H. exists "4D". split; [simpl; tauto | reflexivity].
  - destruct (legal_moves_follow ["QS"; "4D"; "7H"] ("a", "2D") [] false "D")
      as [H _]; [discriminate | exact Hd | reflexivity |].
    apply (H false). exists "4D". split; [simpl; tauto | reflexivity].
Defined.

(** ** The winner of a trick *)

Lemma trick_winner_step_eq (lead_suit s : ascii) (w pc : string * Card) (v vw : Z) :
  card_suit (snd pc) = Ok s ->
  rank_value (snd pc) = Ok v ->
  rank_value (snd w) = Ok vw ->
  trick_winner_step lead_suit w pc
  = Ok (if negb (Ascii.eqb s lead_suit) then w else if v >? vw then pc else w).
Proof.
  unfold trick_winner_step, rank_value. intros Hs Hv Hw. rewrite Hs. cbn [rbind].
  destruct (negb (Ascii.eqb s lead_suit)); [reflexivity|].
  destruct (card_rank (snd pc)) as [r|]; [|discriminate]. cbn [rbind] in *.
  rewrite Hv. cbn [rbind].
  destruct (card_rank (snd w)) as [r'|]; [|discriminate]. cbn [rbind] in *.
  now rewrite Hw.
Qed.

(** The loop of [trick_winner] keeps the first highest play of the part of
    the trick it has seen. *)
Lemma trick_winner_loop (lead_suit : ascii) (rest pre : Trick) (w : string * Card)
    (i : nat) :
  Forall (fun pc => deck_card (snd pc)) (pre ++ rest) ->
  nth_error pre i = Some w ->
  first_highest lead_suit pre i ->
  exists (w' : string * Card) (i' : nat),
    foldM (trick_winner_step lead_suit) rest w = Ok w' /\
    nth_error (pre ++ rest) i' = Some w' /\
    first_highest lead_suit (pre ++ rest) i'.
Proof.
  revert pre w i. induction rest as [|x rest IH]; intros pre w i Hdeck Hw Hbest.
  - exists w, i. rewrite app_nil_r. auto.
  - assert (Hx : deck_card (snd x)).
    { rewrite Forall_forall in Hdeck. apply Hdeck, in_elt. }
    destruct (deck_card_suit _ Hx) as [s Hs].
    destruct (deck_card_rank_value _ Hx) as [v Hv].
    destruct Hbest as [w0 [vw [Hw0 [Hws [Hwv Hmax]]]]].
    assert (w0 = w) by congruence. subst w0.
    assert (Hi : (i < length pre)%nat).
    { apply nth_error_Some. congruence. }
    cbn [foldM]. rewrite (trick_winner_step_eq lead_suit s w x v vw Hs Hv Hwv).
    cbn [rbind].
    replace (pre ++ x :: rest) with ((pre ++ [x]) ++ rest) in *
      by (rewrite <- app_assoc; reflexivity).
    assert (Hlast : nth_error (pre ++ [x]) (length pre) = Some x).
    { rewrite nth_error_app2 by lia. now rewrite Nat.sub_diag. }
    assert (Hcase : forall j pc, nth_error (pre ++ [x]) j = Some pc ->
                      (j < length pre)%nat /\ nth_error pre j = Some pc \/
                      j = length pre /\ pc = x).
    { intros j pc Hj. destruct (Nat.lt_ge_cases j (length pre)) as [Hlt|Hge].
      - left. split; [exact Hlt|]. now rewrite nth_error_app1 in Hj.
      - right. assert (j = length pre).
        { assert (j < length (pre ++ [x]))%nat
            by (apply nth_error_Some; congruence).
          rewrite length_app in H. simpl in H. lia. }
        subst j. split; [reflexivity | congruence]. }
    destruct (negb (Ascii.eqb s lead_suit)) eqn:Es.
    + apply (IH (pre ++ [x]) w i Hdeck).
      * now rewrite nth_error_app1.
      * exists w, vw. repeat split; try assumption.
        -- now rewrite nth_error_app1.
        -- destruct (Hcase j pc H) as [[_ Hj]|[_ ->]];
             [now apply (Hmax j pc vj)|].
           rewrite Hs in H0. inversion H0. subst s.
           rewrite Ascii.eqb_refl in Es. discriminate.
        -- destruct (Hcase j pc H) as [[_ Hj]|[_ ->]];
             [now apply (Hmax j pc vj)|].
           rewrite Hs in H0. inversion H0. subst s.
           rewrite Ascii.eqb_refl in Es. discriminate.
    + apply negb_false_iff, Ascii.eqb_eq in Es. subst s.
      destruct (v >? vw) eqn:Ev.
      * apply Z.gtb_lt in Ev.
        apply (IH (pre ++ [x]) x (length pre) Hdeck Hlast).
        exists x, v. repeat split; try assumption.
        -- destruct (Hcase j pc H) as [[_ Hj]|[_ ->]].
           ++ destruct (Hmax j pc vj Hj H0 H1). lia.
           ++ assert (vj = v) by congruence. lia.
        -- intros Hlt. destruct (Hcase j pc H) as [[_ Hj]|[-> _]]; [|lia].
           destruct (Hmax j pc vj Hj H0 H1). lia.
      * assert (v <= vw) by (rewrite Z.gtb_ltb in Ev; apply Z.ltb_ge in Ev; lia).
        apply (IH (pre ++ [x]) w i Hdeck).
        -- now rewrite nth_error_app1.
        -- exists w, vw. repeat split; try assumption.
           ++ now rewrite nth_error_app1.
           ++ destruct (Hcase j pc H0) as [[_ Hj]|[_ ->]].
              ** now destruct (Hmax j pc vj Hj H1 H2).
              ** assert (vj = v) by congruence. lia.
           ++ intros Hlt. destruct (Hcase j pc H0) as [[_ Hj]|[-> _]]; [|lia].
              now apply (Hmax j pc vj Hj H1 H2).
Qed.

(** C7. On a non-empty trick [trick_winner] returns the seat of the first
    highest-ranked play among the plays whose suit is the suit of the first
    card: the winning play has the lead suit (a card of another suit never
    wins), no play of the lead suit outranks it, and every earlier play of the
    lead suit ranks strictly lower. *)
Theorem trick_winner_first_highest (trick : Trick) :
  trick <> [] ->
  Forall (fun pc => deck_card (snd pc)) trick ->
  exists (lead_suit : ascii) (i : nat) (pid : string) (c : Card),
    card_suit (snd (hd ("", "") trick)) = Ok lead_suit /\
    nth_error trick i = Some (pid, c) /\
    trick_winner trick = Ok pid /\
    first_highest lead_suit trick i.
Proof.
  intros Hne Hdeck. destruct trick as [|first rest]; [congruence|].
  assert (Hf : deck_card (snd first)) by (now inversion Hdeck).
  destruct (deck_card_suit _ Hf) as [lead_suit Hs].
  destruct (deck_card_rank_value _ Hf) as [v Hv].
  destruct (trick_winner_loop lead_suit rest [first] first 0) as [w [i [Hfold [Hn Hb]]]].
  - exact Hdeck.
  - reflexivity.
  - exists first, v. repeat split; try assumption; try reflexivity.
    + destruct j as [|j]; simpl in H; [|destruct j; discriminate].
      assert (vj = v) by congruence. lia.
    + lia.
  - exists lead_suit, i, (fst w), (snd w). simpl in Hn. repeat split.
    + exact Hs.
    + now destruct w.
    + unfold trick_winner. rewrite Hs. cbn [rbind]. now rewrite Hfold.
    + exact Hb.
Qed.

(** A use of [trick_winner_first_highest]: a club lead, a higher heart that
    cannot win, and the king of clubs that does. *)
Lemma trick_winner_first_highest_witness :
  trick_winner [("a", "2C"); ("b", "AH"); ("c", "KC"); ("d", "9C")] = Ok "c".
Proof.
  destruct (trick_winner_first_highest
              [("a", "2C"); ("b", "AH"); ("c", "KC"); ("d", "9C")])
    as [ls [i [pid [c [_ [_ [Hw _]]]]]]].
  - discriminate.
  - deck_cards.
  - rewrite Hw. vm_compute in Hw. symmetry. exact Hw.
Defined.

(** ** Dictionaries *)

Section DictFacts.
Context {V : Type}.
Implicit Types (d : Dict.t V) (k : string) (v : V).

Lemma dict_get_set_same d k v : Dict.get (Dict.set d k v) k = Some v.
Proof.
  induction d as [|[k' v'] d IH]; simpl.
  - now rewrite String.eqb_refl.
  - destruct (String.eqb k' k) eqn:E; simpl.
    + now rewrite String.eqb_refl.
    + now rewrite E.
Qed.

Lemma dict_get_set_other d k k' v :
  k <> k' -> Dict.get (Dict.set d k v) k' = Dict.get d k'.
Proof.
  intros Hne. induction d as [|[k0 v0] d IH]; simpl.
  - apply String.eqb_neq in Hne. now rewrite Hne.
  - destruct (String.eqb k0 k) eqn:E; simpl.
    + apply String.eqb_eq in E. subst k0.
      apply String.eqb_neq in Hne. now rewrite Hne.
    + destruct (String.eqb k0 k'); [reflexivity | exact IH].
Qed.

Lemma dict_get_In d k : In k (Dict.keys d) <-> exists v, Dict.get d k = Some v.
Proof.
  induction d as [|[k0 v0] d IH]; simpl.
  - split; [intros [] | intros [v Hv]; discriminate].
  - destruct (String.eqb k0 k) eqn:E.
    + apply String.eqb_eq in E. split; eauto.
    + apply String.eqb_neq in E. rewrite <- IH. tauto.
Qed.

Lemma dict_get_None d k : ~ In k (Dict.keys d) <-> Dict.get d k = None.
Proof.
  rewrite dict_get_In. destruct (Dict.get d k).
  - split; [intros H; exfalso; eauto | discriminate].
  - split; [reflexivity | intros _ [v Hv]; discriminate].
Qed.

Lemma dict_keys_set_in d k v :
  In k (Dict.keys d) -> Dict.keys (Dict.set d k v) = Dict.keys d.
Proof.
  induction d as [|[k0 v0] d IH]; simpl; [intros []|].
  destruct (String.eqb k0 k) eqn:E; simpl.
  - apply String.eqb_eq in E. now subst.
  - apply String.eqb_neq in E. intros [H|H]; [congruence|].
    now rewrite IH.
Qed.

Lemma dict_keys_set_new d k v :
  ~ In k (Dict.keys d) -> Dict.keys (Dict.set d k v) = Dict.keys d ++ [k].
Proof.
  induction d as [|[k0 v0] d IH]; simpl; [reflexivity|].
  intros H. destruct (String.eqb k0 k) eqn:E; simpl.
  - apply String.eqb_eq in E. tauto.
  - rewrite IH by tauto. reflexivity.
Qed.

Lemma dict_get_head k v d : Dict.get ((k, v) :: d) k = Some v.
Proof. simpl. now rewrite String.eqb_refl. Qed.

Lemma dict_getitem_In d k :
  In k (Dict.keys d) -> exists v, Dict.getitem d k = Ok v /\ Dict.get d k = Some v.
Proof.
  intros H. apply dict_get_In in H. destruct H as [v Hv].
  exists v. unfold Dict.getitem. now rewrite Hv.
Qed.
End DictFacts.

Lemma dict_get_of_In {V : Type} (d : Dict.t V) (k : string) (v : V) :
  NoDup (Dict.keys d) -> In (k, v) d -> Dict.get d k = Some v.
Proof.
  induction d as [|[k0 v0] d IH]; simpl; [intros _ []|].
  intros Hnd [H|H].
  - inversion H. subst. now rewrite String.eqb_refl.
  - inversion Hnd as [|? ? Hnot Hnd']. subst.
    destruct (String.eqb k0 k) eqn:E.
    + apply String.eqb_eq in E. subst k0. exfalso. apply Hnot.
      change k with (fst (k, v)). now apply in_map.
    + now apply IH.
Qed.

Lemma dict_In_of_get {V : Type} (d : Dict.t V) (k : string) (v : V) :
  Dict.get d k = Some v -> In (k, v) d.
Proof.
  induction d as [|[k0 v0] d IH]; simpl; [discriminate|].
  destruct (String.eqb k0 k) eqn:E.
  - apply String.eqb_eq in E. intros H. inversion H. subst. now left.
  - intros H. right. now apply IH.
Qed.

(** ** Loops of the state monad *)

Lemma forM_ext {A : Type} (f g : A -> M unit) (l : list A) (st : GameState) :
  (forall x st', In x l -> f x st' = g x st') -> forM_ l f st = forM_ l g st.
Proof.
  revert st. induction l as [|x l IH]; intros st H; [reflexivity|].
  simpl. unfold bind. rewrite (H x st (or_introl eq_refl)).
  destruct (g x st) as [st' [[]|e]]; [|reflexivity].
  apply IH. intros y st'' Hy. apply H. now right.
Qed.

Lemma add_score_ok (pid : string) (n s : Z) (st : GameState) :
  Dict.get (scores st) pid = Some s ->
  add_score pid n st = (set_scores (Dict.set (scores st) pid (s + n)) st, Ok tt).
Proof.
  intros H. unfold add_score, bind, get, lift, modify, Dict.getitem.
  now rewrite H.
Qed.

Lemma score_loop {A : Type} (key : A -> string) (amt : A -> option Z) (l : list A) :
  forall st : GameState,
    NoDup (map key l) ->
    (forall x, In x l -> In (key x) (Dict.keys (scores st))) ->
    exists sc : Dict.t Z,
      forM_ l (score_body key amt) st = (set_scores sc st, Ok tt) /\
      Dict.keys sc = Dict.keys (scores st) /\
      (forall x, In x l ->
         Dict.get_default sc (key x) 0
         = Dict.get_default (scores st) (key x) 0 + amount (amt x)) /\
      (forall k, ~ In k (map key l) -> Dict.get sc k = Dict.get (scores st) k).
Proof.
  induction l as [|x l IH]; intros st Hnd Hin.
  - exists (scores st). simpl. unfold ret. repeat split.
    + now destruct st.
    + intros x [].
  - inversion Hnd as [|? ? Hx Hnd']. subst.
    assert (Hk : In (key x) (Dict.keys (scores st))) by (apply Hin; now left).
    apply dict_get_In in Hk. destruct Hk as [s Hs].
    (* the state after the body at [x] *)
    assert (Hstep : exists sc1,
               score_body key amt x st = (set_scores sc1 st, Ok tt) /\
               Dict.keys sc1 = Dict.keys (scores st) /\
               Dict.get sc1 (key x) = Some (s + amount (amt x)) /\
               (forall k, k <> key x -> Dict.get sc1 k = Dict.get (scores st) k)).
    { unfold score_body. destruct (amt x) as [n|]; simpl.
      - exists (Dict.set (scores st) (key x) (s + n)). repeat split.
        + now apply add_score_ok.
        + apply dict_keys_set_in. apply dict_get_In. eauto.
        + apply dict_get_set_same.
        + intros k Hne. apply dict_get_set_other. congruence.
      - exists (scores st). repeat split.
        + unfold ret. now destruct st.
        + rewrite Hs. f_equal. lia. }
    destruct Hstep as [sc1 [Hrun [Hkeys [Hget Hother]]]].
    destruct (IH (set_scores sc1 st) Hnd') as [sc [Hloop [Hkeys' [Hl Hrest]]]].
    { intros y Hy. simpl. rewrite Hkeys. apply Hin. now right. }
    exists sc. simpl in *. repeat split.
    + unfold bind. rewrite Hrun. rewrite Hloop. reflexivity.
    + congruence.
    + intros y [->|Hy].
      * unfold Dict.get_default. rewrite (Hrest (key y) Hx), Hget, Hs. reflexivity.
      * rewrite (Hl y Hy). unfold Dict.get_default.
        rewrite Hother; [reflexivity|].
        intros E. apply Hx. rewrite <- E. now apply in_map.
    + intros k Hk.
      assert (Hk1 : k <> key x) by (intros E; apply Hk; now left).
      assert (Hk2 : ~ In k (map key l)) by (intros E; apply Hk; now right).
      rewrite (Hrest k Hk2). now apply Hother.
Qed.

(** ** [max] and [min] over the scores *)

Lemma fold_max_ge (l : list Z) (x y : Z) :
  fold_left Z.max l x >= y <-> x >= y \/ exists z, In z l /\ z >= y.
Proof.
  revert x. induction l as [|a l IH]; intros x; simpl.
  - split; [auto | intros [H|[z [[] _]]]; exact H].
  - rewrite IH. split.
    + intros [H|[z [Hz Hge]]].
      * destruct (Z.max_spec x a) as [[_ E]|[_ E]]; rewrite E in H.
        -- right. exists a. auto.
        -- now left.
      * right. exists z. auto.
    + intros [H|[z [[->|Hz] Hge]]].
      * left. lia.
      * left. lia.
      * right. exists z. auto.
Qed.

Lemma max_default0_ge (l : list Z) :
  max_default0 l >= 100 <-> exists z, In z l /\ z >= 100.
Proof.
  destruct l as [|x l]; simpl.
  - split; [lia | intros [z [[] _]]].
  - rewrite fold_max_ge. split.
    + intros [H|[z [Hz Hge]]]; [exists x | exists z]; auto.
    + intros [z [[<-|Hz] Hge]]; [now left | right; exists z; auto].
Qed.

Lemma nth_error_snoc_cases {A : Type} (pre : list A) (x : A) (j : nat) (y : A) :
  nth_error (pre ++ [x]) j = Some y ->
  ((j < length pre)%nat /\ nth_error pre j = Some y) \/ (j = length pre /\ y = x).
Proof.
  intros Hj. destruct (Nat.lt_ge_cases j (length pre)) as [Hlt|Hge].
  - left. split; [exact Hlt|]. now rewrite nth_error_app1 in Hj.
  - right. assert (Hlen : (j < length (pre ++ [x]))%nat)
      by (apply nth_error_Some; congruence).
    rewrite length_app in Hlen. simpl in Hlen.
    assert (j = length pre) by lia. subst j. split; [reflexivity|].
    rewrite nth_error_app2 in Hj by lia. rewrite Nat.sub_diag in Hj.
    simpl in Hj. congruence.
Qed.

(** The loop of [min] keeps the first lowest key of the part of the
    dictionary it has seen. *)
Lemma min_key_loop (d : Dict.t Z) (ks pre : list string) (w : string) (i : nat) :
  (forall k, In k (pre ++ ks) -> In k (Dict.keys d)) ->
  nth_error pre i = Some w ->
  first_lowest pre (fun k => Dict.get_default d k 0) i ->
  exists (w' : string) (i' : nat),
    foldM (min_step d) ks (w, Dict.get_default d w 0)
    = Ok (w', Dict.get_default d w' 0) /\
    nth_error (pre ++ ks) i' = Some w' /\
    first_lowest (pre ++ ks) (fun k => Dict.get_default d k 0) i'.
Proof.
  revert pre w i. induction ks as [|k ks IH]; intros pre w i Hin Hw Hbest.
  - exists w, i. rewrite app_nil_r. auto.
  - assert (Hk : In k (Dict.keys d)) by (apply Hin, in_elt).
    destruct (dict_getitem_In d k Hk) as [v [Hitem Hget]].
    assert (Hv : Dict.get_default d k 0 = v)
      by (unfold Dict.get_default; now rewrite Hget).
    destruct Hbest as [w0 [Hw0 Hmin]].
    assert (w0 = w) by congruence. subst w0.
    assert (Hi : (i < length pre)%nat) by (apply nth_error_Some; congruence).
    cbn [foldM]. unfold min_step at 1. rewrite Hitem. cbn [rbind snd].
    replace (pre ++ k :: ks) with ((pre ++ [k]) ++ ks) in *
      by (rewrite <- app_assoc; reflexivity).
    assert (Hlast : nth_error (pre ++ [k]) (length pre) = Some k).
    { rewrite nth_error_app2 by lia. now rewrite Nat.sub_diag. }
    destruct (v <? Dict.get_default d w 0) eqn:Elt.
    + apply Z.ltb_lt in Elt. rewrite <- Hv.
      apply (IH (pre ++ [k]) k (length pre) Hin Hlast).
      exists k. split; [exact Hlast|]. intros j p Hj.
      destruct (nth_error_snoc_cases pre k j p Hj) as [[Hlt Hp]|[-> ->]].
      * destruct (Hmin j p Hp). split; [lia | intros _; lia].
      * split; [lia | intros; lia].
    + apply Z.ltb_ge in Elt.
      apply (IH (pre ++ [k]) w i Hin).
      * now rewrite nth_error_app1.
      * exists w. split; [now rewrite nth_error_app1|]. intros j p Hj.
        destruct (nth_error_snoc_cases pre k j p Hj) as [[Hlt Hp]|[-> ->]].
        -- now apply Hmin.
        -- split; [lia | intros; lia].
Qed.

Lemma min_key_first_lowest (d : Dict.t Z) :
  d <> [] ->
  exists (w : string) (i : nat),
    min_key d = Ok w /\
    nth_error (Dict.keys d) i = Some w /\
    first_lowest (Dict.keys d) (fun k => Dict.get_default d k 0) i.
Proof.
  intros Hne. destruct d as [|[k0 v0] d']; [congruence|].
  set (d := (k0, v0) :: d').
  destruct (min_key_loop d (Dict.keys d') [k0] k0 0) as [w [i [Hfold [Hn Hb]]]].
  - intros k Hk. exact Hk.
  - reflexivity.
  - exists k0. split; [reflexivity|]. intros j p Hj.
    destruct j as [|j]; simpl in Hj; [|destruct j; discriminate].
    inversion Hj. subst p. split; [lia | intros; lia].
  - exists w, i. repeat split; try assumption.
    assert (E : Dict.get_default d k0 0 = v0).
    { unfold Dict.get_default, d. now rewrite dict_get_head. }
    rewrite E in Hfold.
    assert (Hitem : Dict.getitem d k0 = Ok v0).
    { unfold Dict.getitem, d. now rewrite dict_get_head. }
    assert (Hmin : min_key d
                   = (v <- Dict.getitem d k0 ;;
                      best <- foldM (min_step d) (Dict.keys d') (k0, v) ;;
                      Ok (fst best))) by reflexivity.
    rewrite Hmin, Hitem. cbn [rbind]. rewrite Hfold. reflexivity.
Qed.

(** ** Scoring a round *)

Lemma finish_round_result (st : GameState) :
  seats_ok st ->
  exists sc : Dict.t Z,
    Dict.keys sc = player_order st /\
    (forall p, In p (player_order st) ->
       Dict.get_default sc p 0 = score st p + round_gain st p) /\
    ((max_default0 (Dict.values sc) < 100 /\
      finish_round st = (round_scored st sc, Ok tt)) \/
     (max_default0 (Dict.values sc) >= 100 /\
      exists w, min_key sc = Ok w /\
        finish_round st
        = (set_winner_id (Some w) (set_phase game_over (round_scored st sc)),
           Ok tt))).
Proof.
  intros [Hnd [Hsc Htk]].
  set (st1 := set_phase round_end st).
  set (ms := find_moon_shooter (taken_points_round st)).
  (* the scoring loop *)
  assert (Hloop : exists sc,
             (if truthy ms then
                forM_ (Dict.keys (scores st1)) (fun pid =>
                  if opt_is ms pid then ret tt else add_score pid 26)
              else
                forM_ (Dict.items (taken_points_round st1)) (fun pp =>
                  add_score (fst pp) (snd pp))) st1
             = (set_scores sc st1, Ok tt) /\
             Dict.keys sc = player_order st /\
             (forall p, In p (player_order st) ->
                Dict.get_default sc p 0 = score st p + round_gain st p)).
  { unfold round_gain. fold ms. destruct (truthy ms) eqn:Etr.
    - destruct (score_loop (fun p : string => p)
                  (fun p => if opt_is ms p then None else Some 26)
                  (Dict.keys (scores st1)) st1) as [sc [Hrun [Hk [Hget _]]]].
      + rewrite map_id. simpl. now rewrite Hsc.
      + auto.
      + exists sc. split; [|split].
        * rewrite <- Hrun. apply forM_ext. intros x st' _.
          unfold score_body. now destruct (opt_is ms x).
        * simpl in Hk. congruence.
        * intros p Hp. simpl in Hget. rewrite Hsc in Hget.
          rewrite (Hget p Hp). unfold score.
          now destruct (opt_is ms p).
    - destruct (score_loop (fun pp : string * Z => fst pp)
                  (fun pp => Some (snd pp))
                  (Dict.items (taken_points_round st1)) st1)
        as [sc [Hrun [Hk [Hget _]]]].
      + change (NoDup (Dict.keys (taken_points_round st))). now rewrite Htk.
      + intros [p n] Hin.
        change (In p (Dict.keys (scores st))). rewrite Hsc, <- Htk.
        change p with (fst (p, n)). now apply in_map.
      + exists sc. split; [|split].
        * exact Hrun.
        * simpl in Hk. congruence.
        * intros p Hp. rewrite <- Htk in Hp.
          apply dict_get_In in Hp. destruct Hp as [n Hn].
          assert (Hin : In (p, n) (Dict.items (taken_points_round st1)))
            by (apply dict_In_of_get; exact Hn).
          pose proof (Hget (p, n) Hin) as Hg. cbn [fst snd amount] in Hg.
          rewrite Hg. unfold score, taken, Dict.get_default.
          now rewrite Hn. }
  destruct Hloop as [sc [Hrun [Hkeys Hgain]]].
  exists sc. split; [exact Hkeys|]. split; [exact Hgain|].
  assert (Hfin : finish_round st
                 = (if max_default0 (Dict.values sc) >=? 100 then
                      match min_key sc with
                      | Ok w => (set_winner_id (Some w)
                                   (set_phase game_over (round_scored st sc)), Ok tt)
                      | Raise e => (set_phase game_over (round_scored st sc), Raise e)
                      end
                    else (round_scored st sc, Ok tt))).
  { unfold finish_round. unfold bind at 1. unfold modify at 1. fold st1.
    unfold bind at 1. unfold get at 1.
    unfold bind at 1. change (taken_points_round st1) with (taken_points_round st).
    fold ms. change (taken_points_round st) with (taken_points_round st1) at 1.
    rewrite Hrun.
    unfold bind, get, modify, lift, ret. simpl.
    unfold round_scored. fold st1.
    destruct (max_default0 (Dict.values sc) >=? 100); [|reflexivity].
    destruct (min_key sc); reflexivity. }
  destruct (max_default0 (Dict.values sc) >=? 100) eqn:Emax.
  - right. rewrite Z.geb_le in Emax. split; [lia|].
    assert (Hne : sc <> []).
    { intros ->. simpl in Emax. lia. }
    destruct (min_key_first_lowest sc Hne) as [w [i [Hmin _]]].
    exists w. split; [exact Hmin|]. rewrite Hfin, Hmin. reflexivity.
  - left. split; [|exact Hfin].
    destruct (Z.geb_spec (max_default0 (Dict.values sc)) 100); [discriminate | lia].
Qed.

Lemma dict_values_In (d : Dict.t Z) (z : Z) :
  NoDup (Dict.keys d) ->
  (In z (Dict.values d) <-> exists p, In p (Dict.keys d) /\ Dict.get_default d p 0 = z).
Proof.
  intros Hnd. unfold Dict.values, Dict.keys. split.
  - intros H. apply in_map_iff in H. destruct H as [[p n] [E Hin]]. simpl in E. subst n.
    exists p. split.
    + change p with (fst (p, z)). now apply in_map.
    + unfold Dict.get_default. now rewrite (dict_get_of_In d p z Hnd Hin).
  - intros [p [Hp E]]. apply dict_get_In in Hp. destruct Hp as [n Hn].
    unfold Dict.get_default in E. rewrite Hn in E. subst n.
    change z with (snd (p, z)). apply in_map. now apply dict_In_of_get.
Qed.



Lemma score_round_scored (st : GameState) (sc : Dict.t Z) (p : string) :
  score (round_scored st sc) p = Dict.get_default sc p 0.
Proof. reflexivity. Qed.


Lemma seats_ok_last_trick_state (sc tk : Dict.t Z) :
  Dict.keys sc = ["a"; "b"; "c"; "d"] ->
  Dict.keys tk = ["a"; "b"; "c"; "d"] ->
  seats_ok (last_trick_state sc tk).
Proof.
  intros Hs Ht. unfold seats_ok, player_order. simpl. repeat split; try assumption.
  repeat constructor; simpl; intuition discriminate.
Qed.


(** X2. [finish_round] ends the game exactly when, after scoring, some seat
    has 100 points or more: then the phase is game_over and the winner is a
    seat with the lowest score; otherwise the phase is round_end and
    [winner_id] is left as it was. *)
Theorem finish_round_game_end (st : GameState) :
  seats_ok st ->
  exists st' : GameState,
    finish_round st = (st', Ok tt) /\
    ((exists p, In p (player_order st) /\ score st' p >= 100) ->
       phase st' = game_over /\
       exists w, winner_id st' = Some w /\ In w (player_order st) /\
         forall p, In p (player_order st) -> score st' w <= score st' p) /\
    ((forall p, In p (player_order st) -> score st' p < 100) ->
       phase st' = round_end /\ winner_id st' = winner_id st).
Proof.
  intros Hok. destruct (finish_round_result st Hok) as [sc [Hkeys [_ Hrun]]].
  destruct Hok as [Hnd _].
  assert (Hnd' : NoDup (Dict.keys sc)) by (now rewrite Hkeys).
  assert (Hmax : max_default0 (Dict.values sc) >= 100 <->
                 exists p, In p (player_order st) /\ Dict.get_default sc p 0 >= 100).
  { rewrite max_default0_ge. split.
    - intros [z [Hz Hge]]. apply (dict_values_In sc z Hnd') in Hz.
      destruct Hz as [p [Hp E]]. exists p. rewrite <- Hkeys. split; [exact Hp | lia].
    - intros [p [Hp Hge]]. exists (Dict.get_default sc p 0). split; [|exact Hge].
      apply (dict_values_In sc _ Hnd'). exists p. rewrite Hkeys. auto. }
  destruct Hrun as [[Hlt Hrun]|[Hge [w [Hmin Hrun]]]].
  - exists (round_scored st sc). split; [exact Hrun|]. split.
    + intros Hex. exfalso. apply Hmax in Hex. lia.
    + intros _. split; reflexivity.
  - exists (set_winner_id (Some w) (set_phase game_over (round_scored st sc))).
    split; [exact Hrun|]. split.
    + intros _. split; [reflexivity|]. exists w. split; [reflexivity|].
      assert (Hne : sc <> []) by (intros ->; simpl in Hge; lia).
      destruct (min_key_first_lowest sc Hne) as [w' [i [Hmin' [Hn [w0 [Hw0 Hlow]]]]]].
      assert (w' = w) by congruence. subst w'.
      assert (w0 = w) by congruence. subst w0.
      split.
      * rewrite <- Hkeys. eapply nth_error_In. exact Hn.
      * intros p Hp. rewrite <- Hkeys in Hp.
        apply In_nth_error in Hp. destruct Hp as [j Hj].
        now destruct (Hlow j p Hj).
    + intros Hall. exfalso. apply Hmax in Hge. destruct Hge as [p [Hp Hge]].
      specialize (Hall p Hp). change (score _ p) with (Dict.get_default sc p 0) in Hall.
      lia.
Qed.

(** A use of [finish_round_game_end]: seat d crosses 100 and seat c wins. *)
Lemma finish_round_game_end_witness :
  exists st' : GameState,
    finish_round (last_trick_state [("a", 60); ("b", 74); ("c", 31); ("d", 95)]
                                   [("a", 3); ("b", 0); ("c", 2); ("d", 21)])
    = (st', Ok tt) /\
    phase st' = game_over.
Proof.
  destruct (finish_round_game_end
              (last_trick_state [("a", 60); ("b", 74); ("c", 31); ("d", 95)]
                                [("a", 3); ("b", 0); ("c", 2); ("d", 21)]))
    as [st' [Hrun [Hend _]]].
  - now apply seats_ok_last_trick_state.
  - exists st'. split; [exact Hrun|]. apply Hend.
    exists "d". split; [simpl; tauto|].
    vm_compute in Hrun. inversion Hrun. vm_compute. discriminate.
Defined.

(** X3. When [finish_round] ends the game, the winner is the first seat in
    seat order with the lowest score: every seat before it has a strictly
    higher score, so a tie goes to the earliest tied seat. *)
Theorem finish_round_winner_first (st st' : GameState) :
  seats_ok st ->
  finish_round st = (st', Ok tt) ->
  phase st' = game_over ->
  exists (w : string) (i : nat),
    winner_id st' = Some w /\
    nth_error (player_order st) i = Some w /\
    first_lowest (player_order st) (score st') i.
Proof.
  intros Hok Hfin Hph.
  destruct (finish_round_result st Hok) as [sc [Hkeys [_ Hrun]]].
  destruct Hrun as [[_ Hrun]|[Hge [w [Hmin Hrun]]]].
  - rewrite Hrun in Hfin. inversion Hfin. subst st'. discriminate Hph.
  - rewrite Hrun in Hfin. inversion Hfin. subst st'. clear Hfin.
    assert (Hne : sc <> []) by (intros ->; simpl in Hge; lia).
    destruct (min_key_first_lowest sc Hne) as [w' [i [Hmin' [Hn Hlow]]]].
    assert (w' = w) by congruence. subst w'.
    exists w, i. rewrite <- Hkeys. repeat split; assumption.
Qed.

(** A use of [finish_round_winner_first]: seats b and c tie at 31 and the
    earlier seat b wins. *)
Lemma finish_round_winner_first_witness :
  winner_id
    (fst (finish_round
            (last_trick_state [("a", 60); ("b", 31); ("c", 31); ("d", 95)]
                              [("a", 26); ("b", 0); ("c", 0); ("d", 0)])))
  = Some "b".
Proof.
  set (st := last_trick_state [("a", 60); ("b", 31); ("c", 31); ("d", 95)]
                              [("a", 26); ("b", 0); ("c", 0); ("d", 0)]).
  destruct (finish_round_winner_first st (fst (finish_round st)))
    as [w [i [Hw _]]].
  - apply seats_ok_last_trick_state; reflexivity.
  - vm_compute. reflexivity.
  - vm_compute. reflexivity.
  - rewrite Hw. vm_compute in Hw. symmetry. exact Hw.
Defined.

(** ** Properties kept by the actions *)

Section Keeps.
Variable P : GameState -> Prop.

Lemma keeps_ret {A : Type} (a : A) : keeps P (ret a).
Proof. intros st H. exact H. Qed.

Lemma keeps_get : keeps P get.
Proof. intros st H. exact H. Qed.

Lemma keeps_lift {A : Type} (r : res A) : keeps P (lift r).
Proof. intros st H. exact H. Qed.

Lemma keeps_modify (f : GameState -> GameState) :
  (forall st, P st -> P (f st)) -> keeps P (modify f).
Proof. intros Hf st H. now apply Hf. Qed.

Lemma keeps_bind {A B : Type} (m : M A) (k : A -> M B) :
  keeps P m -> (forall a, keeps P (k a)) -> keeps P (bind m k).
Proof.
  intros Hm Hk st H. unfold bind. specialize (Hm st H).
  destruct (m st) as [st' [a|e]]; simpl in *.
  - now apply Hk.
  - exact Hm.
Qed.

Lemma keeps_forM_ {A : Type} (l : list A) (f : A -> M unit) :
  (forall x, keeps P (f x)) -> keeps P (forM_ l f).
Proof.
  intros Hf. induction l as [|x l IH]; simpl.
  - apply keeps_ret.
  - apply keeps_bind; [apply Hf | intros _; exact IH].
Qed.

Lemma keeps_if {A : Type} (b : bool) (m1 m2 : M A) :
  keeps P m1 -> keeps P m2 -> keeps P (if b then m1 else m2).
Proof. now destruct b. Qed.
End Keeps.

Lemma keeps_run (P : GameState -> Prop) {A : Type} (m : M A)
    (st st' : GameState) (r : res A) :
  keeps P m -> P st -> m st = (st', r) -> P st'.
Proof. intros Hk H E. specialize (Hk st H). now rewrite E in Hk. Qed.

(** Proves [keeps P m] for an action built from the monad's combinators,
    leaving the field assignments to [tac]. *)
Ltac keeps_step tac :=
  lazymatch goal with
  | |- keeps _ (ret _) => apply keeps_ret
  | |- keeps _ get => apply keeps_get
  | |- keeps _ (lift _) => apply keeps_lift
  | |- keeps _ (forM_ _ _) => apply keeps_forM_; intros ?
  | |- keeps _ (bind _ _) => apply keeps_bind; [|intros ?]
  | |- keeps _ (modify _) => apply keeps_modify; intros ? ?; tac
  | |- keeps _ (match ?x with [] => _ | _ :: _ => _ end) => destruct x
  | |- keeps _ (if _ then _ else _) => apply keeps_if
  | |- keeps _ (update_hand _ _) => unfold update_hand
  | |- keeps _ (add_score _ _) => unfold add_score
  | |- keeps _ finish_round => unfold finish_round
  | |- keeps _ complete_trick => unfold complete_trick
  | |- keeps _ exchange_passes => unfold exchange_passes
  | |- keeps _ (submit_pass _ _) => unfold submit_pass
  | |- keeps _ (play_card _ _) => unfold play_card
  | |- keeps _ (play_accepted _ _) => unfold play_accepted
  end.

Ltac keeps_tac tac := repeat keeps_step tac.

(** *** Hearts stay broken *)

Lemma hb_finish_round : keeps (fun st => hearts_broken st = true) finish_round.
Proof. unfold finish_round. keeps_tac ltac:(assumption). Qed.

Lemma hb_complete_trick : keeps (fun st => hearts_broken st = true) complete_trick.
Proof. unfold complete_trick. keeps_tac ltac:(assumption). Qed.

Lemma hb_exchange_passes : keeps (fun st => hearts_broken st = true) exchange_passes.
Proof. unfold exchange_passes. keeps_tac ltac:(assumption). Qed.

Lemma hb_submit_pass (pid : string) (cards : list Card) :
  keeps (fun st => hearts_broken st = true) (submit_pass pid cards).
Proof. unfold submit_pass. keeps_tac ltac:(assumption). Qed.

Lemma hb_play_card (pid : string) (card : Card) :
  keeps (fun st => hearts_broken st = true) (play_card pid card).
Proof. unfold play_card. keeps_tac ltac:(first [assumption | reflexivity]). Qed.

Lemma bind_ok_inv {A B : Type} (m : M A) (k : A -> M B) (st st' : GameState) (b : B) :
  bind m k st = (st', Ok b) ->
  exists (a : A) (st1 : GameState), m st = (st1, Ok a) /\ k a st1 = (st', Ok b).
Proof.
  unfold bind. destruct (m st) as [st1 [a|e]]; intros H.
  - exists a, st1. auto.
  - inversion H.
Qed.

Lemma phase_eqb_eq (a b : Phase) : phase_eqb a b = true <-> a = b.
Proof. destruct a, b; simpl; split; intros H; congruence. Qed.

Lemma phase_eqb_neq (a b : Phase) : phase_eqb a b = false <-> a <> b.
Proof. destruct a, b; simpl; split; intros H; congruence. Qed.

Lemma play_accepted_heart (pid : string) (card : Card) (st st' : GameState) (b : bool) :
  play_accepted pid card st = (st', Ok b) ->
  has_suit "H" card = true ->
  hearts_broken st' = true.
Proof.
  intros Hrun Hh. unfold play_accepted in Hrun.
  apply bind_ok_inv in Hrun. destruct Hrun as [st0 [s1 [_ Hrun]]].
  apply bind_ok_inv in Hrun. destruct Hrun as [u1 [s2 [_ Hrun]]].
  apply bind_ok_inv in Hrun. destruct Hrun as [u2 [s3 [_ Hrun]]].
  apply bind_ok_inv in Hrun. destruct Hrun as [u3 [s4 [_ Hrun]]].
  apply bind_ok_inv in Hrun. destruct Hrun as [suit [s5 [Hsuit Hrun]]].
  unfold lift in Hsuit. inversion Hsuit. subst s5.
  unfold has_suit in Hh. rewrite H1 in Hh. rewrite Hh in Hrun.
  apply bind_ok_inv in Hrun. destruct Hrun as [u4 [s6 [Hset Hrun]]].
  unfold modify in Hset. inversion Hset. subst s6.
  eapply (keeps_run (fun st => hearts_broken st = true)); [| |exact Hrun].
  - keeps_tac ltac:(assumption).
  - reflexivity.
Qed.

(** X4. Hearts stay broken within a round: [submit_pass], [play_card] and
    [finish_round] never set [hearts_broken] back to false, whether they
    return or raise, and [start_next_round] leaves it alone unless it deals;
    an accepted play of a heart sets it; [start_round] resets it. *)
Theorem hearts_broken_monotone :
  (forall st : GameState,
     hearts_broken st = true ->
     (forall pid cards, hearts_broken (fst (submit_pass pid cards st)) = true) /\
     (forall pid card, hearts_broken (fst (play_card pid card st)) = true) /\
     hearts_broken (fst (finish_round st)) = true /\
     (forall deck, phase st <> round_end ->
        hearts_broken (fst (start_next_round deck st)) = true)) /\
  (forall (st st' : GameState) pid card,
     play_card pid card st = (st', Ok true) ->
     has_suit "H" card = true ->
     hearts_broken st' = true) /\
  (forall (st st' : GameState) deck,
     start_round deck st = (st', Ok tt) -> hearts_broken st' = false).
Proof.
  split; [|split].
  - intros st Hb. repeat split.
    + intros pid cards. now apply hb_submit_pass.
    + intros pid card. now apply hb_play_card.
    + now apply hb_finish_round.
    + intros deck Hph. unfold start_next_round, bind, get.
      apply phase_eqb_neq in Hph. rewrite Hph. exact Hb.
  - intros st st' pid card Hrun Hh. unfold play_card in Hrun.
    apply bind_ok_inv in Hrun. destruct Hrun as [st0 [s1 [Hget Hrun]]].
    unfold get in Hget. inversion Hget. subst st0 s1.
    destruct (negb (phase_eqb (phase st) playing)); [inversion Hrun|].
    destruct (negb (opt_is (current_turn st) pid)); [inversion Hrun|].
    cbv zeta in Hrun.
    destruct (negb (mem card (Dict.get_default (hands st) pid []))); [inversion Hrun|].
    apply bind_ok_inv in Hrun. destruct Hrun as [legal [s2 [_ Hrun]]].
    destruct (negb (mem card legal)); [inversion Hrun|].
    now apply (play_accepted_heart pid card s2 st' true).
  - intros st st' deck Hrun. unfold start_round in Hrun.
    apply bind_ok_inv in Hrun. destruct Hrun as [st0 [s1 [Hget Hrun]]].
    unfold get in Hget. inversion Hget. subst st0 s1.
    apply bind_ok_inv in Hrun. destruct Hrun as [dealt [s2 [Hd Hrun]]].
    unfold lift in Hd. inversion Hd. subst s2.
    unfold bind, modify, get in Hrun. simpl in Hrun.
    destruct (round_index st mod 4 =? PASS_HOLD); inversion Hrun; reflexivity.
Qed.

(** A use of [hearts_broken_monotone] on the state before a round's last
    trick is scored, where hearts are broken. *)
Lemma hearts_broken_monotone_witness :
  hearts_broken
    (fst (submit_pass "a" ["2C"; "3C"; "4C"]
            (last_trick_state [("a", 0); ("b", 0); ("c", 0); ("d", 0)]
                              [("a", 26); ("b", 0); ("c", 0); ("d", 0)])))
  = true.
Proof.
  destruct hearts_broken_monotone as [H _].
  destruct (H (last_trick_state [("a", 0); ("b", 0); ("c", 0); ("d", 0)]
                                [("a", 26); ("b", 0); ("c", 0); ("d", 0)]))
    as [Hs _]; [reflexivity|].
  apply Hs.
Defined.

(** ** Rejected actions *)

Lemma existsb_not_mem (cards hand : list Card) :
  existsb (fun card => negb (mem card hand)) cards = true <->
  exists c, In c cards /\ ~ In c hand.
Proof.
  rewrite existsb_exists. split; intros [c [Hc H]]; exists c; split; try assumption.
  - apply negb_true_iff in H. now apply mem_false.
  - apply negb_true_iff. now apply mem_false.
Qed.

Lemma opt_is_false (o : option string) (s : string) :
  opt_is o s = false <-> o <> Some s.
Proof.
  destruct o as [s'|]; simpl.
  - rewrite String.eqb_neq. split; congruence.
  - split; [discriminate | reflexivity].
Qed.

Lemma len_eq_3 {A : Type} (l : list A) : (len l =? 3) = true <-> length l = 3%nat.
Proof. unfold len. rewrite Z.eqb_eq. lia. Qed.

(** X5. [submit_pass] rejects, returning False and leaving the state as it
    was, whenever the phase is not passing, the list does not have exactly
    three cards, or some listed card is not in the seat's hand (the hand of
    an unknown seat is empty). *)
Theorem submit_pass_rejects (st : GameState) (pid : string) (cards : list Card) :
  phase st <> passing \/ length cards <> 3%nat \/
  (exists c, In c cards /\ ~ In c (hand_of st pid)) ->
  submit_pass pid cards st = (st, Ok false).
Proof.
  intros H. unfold submit_pass, bind, get, ret.
  destruct (phase_eqb (phase st) passing) eqn:Ep; simpl; [|reflexivity].
  destruct (len cards =? 3) eqn:El; simpl; [|reflexivity].
  destruct (existsb (fun card => negb (mem card (Dict.get_default (hands st) pid [])))
              cards) eqn:Ee; [reflexivity|].
  exfalso. destruct H as [H|[H|H]].
  - apply H. now apply phase_eqb_eq.
  - apply H. now apply len_eq_3.
  - apply existsb_not_mem in H. unfold hand_of in H. congruence.
Qed.

(** A use of [submit_pass_rejects]: a card of another seat's hand. *)
Lemma submit_pass_rejects_witness :
  submit_pass "a" ["2C"; "3C"; "4C"] (fst (start_round make_deck (HeartsGame four_players)))
  = (fst (start_round make_deck (HeartsGame four_players)), Ok false).
Proof.
  apply submit_pass_rejects. right. right. exists "3C". split.
  - simpl. tauto.
  - apply mem_false. vm_compute. reflexivity.
Defined.

(** X6. [play_card] rejects, returning False and leaving the state as it
    was, whenever the phase is not playing, it is not the seat's turn, the
    card is not in the seat's hand, or the card is not among the seat's legal
    moves. *)
Theorem play_card_rejects (st : GameState) (pid : string) (card : Card) :
  phase st <> playing \/ current_turn st <> Some pid \/
  ~ In card (hand_of st pid) \/
  (exists legal, get_legal_moves st pid = Ok legal /\ ~ In card legal) ->
  play_card pid card st = (st, Ok false).
Proof.
  intros H. unfold play_card, bind, get, ret, lift.
  destruct (phase_eqb (phase st) playing) eqn:Ep; simpl; [|reflexivity].
  destruct (opt_is (current_turn st) pid) eqn:Eo; simpl; [|reflexivity].
  destruct (mem card (Dict.get_default (hands st) pid [])) eqn:Em; simpl;
    [|reflexivity].
  destruct H as [H|[H|[H|[legal [Hl Hn]]]]].
  - exfalso. apply H. now apply phase_eqb_eq.
  - exfalso. apply opt_is_false in H. congruence.
  - exfalso. apply mem_false in H. unfold hand_of in H. congruence.
  - unfold get_legal_moves in Hl. rewrite Hl.
    apply mem_false in Hn. now rewrite Hn.
Qed.

(** A use of [play_card_rejects]: a play while the round is still passing. *)
Lemma play_card_rejects_witness :
  play_card "a" "2C" (fst (start_round make_deck (HeartsGame four_players)))
  = (fst (start_round make_deck (HeartsGame four_players)), Ok false).
Proof.
  apply play_card_rejects. left. vm_compute. discriminate.
Defined.

(** X7. [start_next_round] returns False and changes nothing unless the
    phase is round_end; in particular a finished game is final: in phase
    game_over [submit_pass], [play_card] and [start_next_round] all return
    False and leave the state as it was. *)
Theorem game_over_is_final (st : GameState) :
  (forall deck, phase st <> round_end ->
     start_next_round deck st = (st, Ok false)) /\
  (phase st = game_over ->
   (forall pid cards, submit_pass pid cards st = (st, Ok false)) /\
   (forall pid card, play_card pid card st = (st, Ok false)) /\
   (forall deck, start_next_round deck st = (st, Ok false))).
Proof.
  assert (Hnext : forall deck, phase st <> round_end ->
                    start_next_round deck st = (st, Ok false)).
  { intros deck Hph. unfold start_next_round, bind, get, ret.
    apply phase_eqb_neq in Hph. now rewrite Hph. }
  split; [exact Hnext|]. intros Hph. repeat split.
  - intros pid cards. unfold submit_pass, bind, get, ret. now rewrite Hph.
  - intros pid card. unfold play_card, bind, get, ret. now rewrite Hph.
  - intros deck. apply Hnext. congruence.
Qed.

(** A use of [game_over_is_final] on the state a finished game is left in. *)
Lemma game_over_is_final_witness :
  let st := fst (finish_round
                   (last_trick_state [("a", 60); ("b", 74); ("c", 31); ("d", 95)]
                                     [("a", 3); ("b", 0); ("c", 2); ("d", 21)])) in
  play_card "a" "2C" st = (st, Ok false).
Proof.
  intros st. destruct (game_over_is_final st) as [_ H].
  destruct H as [_ [Hp _]]; [vm_compute; reflexivity|].
  apply Hp.
Defined.

(** ** Legal moves are held cards *)

Lemma filterM_incl {A : Type} (p : A -> res bool) (l r : list A) :
  filterM p l = Ok r -> incl r l.
Proof.
  revert r. induction l as [|x l IH]; simpl; intros r H.
  - injection H as <-. apply incl_refl.
  - destruct (p x) as [b|e]; simpl in H; [|discriminate].
    destruct (filterM p l) as [r'|e]; simpl in H; [|discriminate].
    specialize (IH r' eq_refl).
    destruct b; injection H as <-.
    + intros y [<-|Hy]; [now left | right; now apply IH].
    + intros y Hy. right. now apply IH.
Qed.

Lemma legal_moves_held (hand : list Card) (trick : Trick) (hb first : bool)
    (legal : list Card) :
  legal_moves hand trick hb first = Ok legal ->
  incl legal hand /\ (hand <> [] -> legal <> []).
Proof.
  destruct hand as [|c0 hand'] eqn:Eh.
  { simpl. intros H. injection H as <-. split; [apply incl_refl | congruence]. }
  rewrite <- Eh. assert (Hne : hand <> []) by (rewrite Eh; discriminate).
  assert (Hin0 : In c0 hand) by (rewrite Eh; now left).
  clear Eh. destruct trick as [|lead rest].
  - rewrite legal_moves_lead_eq by assumption.
    destruct first.
    + destruct (mem "2C" hand) eqn:E2; intros H; injection H as <-.
      * split; [|discriminate]. intros y [<-|[]]. now apply mem_In.
      * split; [|discriminate]. intros y [<-|[]].
        destruct hand; [congruence | now left].
    + destruct hb.
      * intros H. injection H as <-. split; [apply incl_refl | tauto].
      * destruct (filterM (suit_is_not "H") hand) as [nh|e] eqn:Ef; simpl;
          [|discriminate].
        apply filterM_incl in Ef.
        destruct nh; intros H; injection H as <-.
        -- split; [apply incl_refl | tauto].
        -- split; [exact Ef | discriminate].
  - rewrite legal_moves_follow_eq by assumption.
    destruct (card_suit (snd lead)) as [ls|e]; simpl; [|discriminate].
    destruct (filterM (suit_is ls) hand) as [su|e] eqn:Ef; simpl; [|discriminate].
    apply filterM_incl in Ef. destruct su.
    + destruct first.
      * destruct (filterM not_point_card hand) as [np|e] eqn:En; simpl;
          [|discriminate].
        apply filterM_incl in En.
        destruct np; intros H; injection H as <-.
        -- split; [apply incl_refl | tauto].
        -- split; [exact En | discriminate].
      * intros H. injection H as <-. split; [apply incl_refl | tauto].
    + intros H. injection H as <-. split; [exact Ef | discriminate].
Qed.

Lemma legal_moves_returns (hand : list Card) (trick : Trick) (hb first : bool) :
  Forall deck_card hand ->
  (forall lead, hd_error trick = Some lead -> is_ok (card_suit (snd lead)) = true) ->
  exists legal, legal_moves hand trick hb first = Ok legal.
Proof.
  intros Hdeck Hlead.
  destruct hand as [|c0 hand'] eqn:Eh; [now exists []|].
  rewrite <- Eh in *. assert (Hne : hand <> []) by (rewrite Eh; discriminate).
  clear Eh. destruct trick as [|lead rest].
  - rewrite legal_moves_lead_eq by assumption.
    destruct first; [eauto|]. destruct hb; [eauto|].
    rewrite (filterM_suit_is_not hand Hdeck). simpl. eauto.
  - rewrite legal_moves_follow_eq by assumption.
    destruct (is_ok_true _ (Hlead lead eq_refl)) as [ls Hls]. rewrite Hls. simpl.
    rewrite (filterM_suit_is hand Hdeck). simpl.
    destruct (filter (has_suit ls) hand); [|eauto].
    destruct first; [|eauto].
    rewrite (filterM_not_point hand Hdeck). simpl. eauto.
Qed.

(** X8. For a hand of deck cards, and a trick whose lead card (if any) has a
    suit, [legal_moves] returns a list; every card of that list is a card of
    the hand, and the list is empty only when the hand is: a seat that holds
    a card always has a legal card to play. *)
Theorem legal_moves_sound (hand : list Card) (trick : Trick) (hb first : bool) :
  Forall deck_card hand ->
  (forall lead, hd_error trick = Some lead -> is_ok (card_suit (snd lead)) = true) ->
  exists legal,
    legal_moves hand trick hb first = Ok legal /\
    (forall c, In c legal -> In c hand) /\
    (hand <> [] -> legal <> []).
Proof.
  intros Hdeck Hlead.
  destruct (legal_moves_returns hand trick hb first Hdeck Hlead) as [legal H].
  exists legal. split; [exact H|]. now apply legal_moves_held in H.
Qed.

(** A use of [legal_moves_sound]: following a spade without holding one. *)
Lemma legal_moves_sound_witness :
  exists legal,
    legal_moves ["3C"; "KH"; "5H"] [("a", "QS")] false false = Ok legal /\
    (forall c, In c legal -> In c ["3C"; "KH"; "5H"]) /\
    (["3C"; "KH"; "5H"] <> [] -> legal <> []).
Proof.
  apply legal_moves_sound.
  - deck_cards.
  - intros lead H. injection H as <-. reflexivity.
Defined.

(** ** Who holds the two of clubs *)

Lemma find_two_clubs_player_spec (hs : Dict.t (list Card)) :
  (forall pid, find_two_clubs_player hs = Some pid ->
     exists (i : nat) (hand : list Card),
       nth_error hs i = Some (pid, hand) /\ In "2C" hand /\
       forall (j : nat) (q : string) (h : list Card),
         (j < i)%nat -> nth_error hs j = Some (q, h) -> ~ In "2C" h) /\
  (find_two_clubs_player hs = None <->
   forall (q : string) (h : list Card), In (q, h) hs -> ~ In "2C" h).
Proof.
  induction hs as [|[p0 h0] hs [IH1 IH2]]; simpl.
  - split; [discriminate|]. split; [intros _ q h [] | reflexivity].
  - destruct (mem "2C" h0) eqn:E.
    + split.
      * intros pid H. injection H as <-. exists 0%nat, h0.
        split; [reflexivity|]. split; [now apply mem_In|]. intros; lia.
      * split; [discriminate|]. intros H. exfalso.
        apply (H p0 h0); [now left | now apply mem_In].
    + apply mem_false in E. split.
      * intros pid H. destruct (IH1 pid H) as [i [hand [Hn [Hin Hlt]]]].
        exists (S i), hand. split; [exact Hn|]. split; [exact Hin|].
        intros [|j] q h Hj Hnth; simpl in Hnth.
        -- injection Hnth as _ <-. exact E.
        -- apply (Hlt j q h); [lia | exact Hnth].
      * rewrite IH2. split.
        -- intros H q h [Heq|Hin]; [injection Heq as _ <-; exact E | eauto].
        -- intros H q h Hin. apply (H q h). now right.
Qed.

(** X9. [find_two_clubs_player] returns the first seat, in the order of the
    hands, whose hand holds the two of clubs, and None exactly when no hand
    holds it. *)
Theorem find_two_clubs_player_first (hs : Dict.t (list Card)) :
  (forall pid, find_two_clubs_player hs = Some pid ->
     exists (i : nat) (hand : list Card),
       nth_error hs i = Some (pid, hand) /\ In "2C" hand /\
       forall (j : nat) (q : string) (h : list Card),
         (j < i)%nat -> nth_error hs j = Some (q, h) -> ~ In "2C" h) /\
  (find_two_clubs_player hs = None <->
   forall (q : string) (h : list Card), In (q, h) hs -> ~ In "2C" h).
Proof. exact (find_two_clubs_player_spec hs). Qed.

(** ** The seat to the left *)

Lemma list_index_spec (x : string) (l : list string) :
  (In x l ->
   exists i : nat, list_index String.eqb x l = Ok (Z.of_nat i) /\
     nth_error l i = Some x /\
     forall j y, (j < i)%nat -> nth_error l j = Some y -> y <> x) /\
  (~ In x l -> list_index String.eqb x l = Raise ValueError).
Proof.
  induction l as [|y l [IH1 IH2]]; simpl.
  - split; [intros [] | reflexivity].
  - destruct (String.eqb y x) eqn:E.
    + apply String.eqb_eq in E. subst y. split.
      * intros _. exists 0%nat. split; [reflexivity|]. split; [reflexivity|].
        intros; lia.
      * intros H. exfalso. apply H. now left.
    + apply String.eqb_neq in E. split.
      * intros [H|H]; [congruence|].
        destruct (IH1 H) as [i [Hi [Hn Hlt]]]. exists (S i). rewrite Hi. simpl.
        split; [f_equal; lia|]. split; [exact Hn|].
        intros [|j] z Hj Hz; simpl in Hz.
        -- injection Hz as <-. exact E.
        -- apply (Hlt j z); [lia | exact Hz].
      * intros H. rewrite IH2 by tauto. reflexivity.
Qed.

Lemma list_at_nth {A : Type} (l : list A) (i : Z) :
  0 <= i < len l -> exists x, list_at l i = Ok x /\ nth_error l (Z.to_nat i) = Some x.
Proof.
  intros H. unfold list_at, len in *.
  destruct (nth_error l (Z.to_nat i)) as [x|] eqn:E; [eauto|].
  apply nth_error_None in E. lia.
Qed.

Lemma next_player_spec (st : GameState) (pid : string) :
  (In pid (player_order st) ->
   exists (i : nat) (q : string),
     next_player st pid = Ok q /\
     nth_error (player_order st) i = Some pid /\
     (forall j y, (j < i)%nat -> nth_error (player_order st) j = Some y -> y <> pid) /\
     nth_error (player_order st) (if (S i =? length (player_order st))%nat
                                  then 0%nat else S i) = Some q) /\
  (~ In pid (player_order st) -> next_player st pid = Raise ValueError).
Proof.
  unfold next_player.
  destruct (list_index_spec pid (player_order st)) as [H1 H2]. split.
  - intros Hin. destruct (H1 Hin) as [i [Hi [Hn Hlt]]]. rewrite Hi. cbn [rbind].
    assert (Hlen : (i < length (player_order st))%nat).
    { apply nth_error_Some. congruence. }
    destruct (list_at_nth (player_order st)
                ((Z.of_nat i + 1) mod len (player_order st))) as [q [Hq Hnq]].
    { apply Z.mod_pos_bound. unfold len. lia. }
    exists i, q. split; [exact Hq|]. split; [exact Hn|]. split; [exact Hlt|].
    rewrite <- Hnq. f_equal. unfold len.
    destruct (Nat.eqb_spec (S i) (length (player_order st))) as [E|E].
    + replace (Z.of_nat i + 1) with (Z.of_nat (length (player_order st))) by lia.
      rewrite Z.mod_same by lia. reflexivity.
    + rewrite Z.mod_small by lia. lia.
  - intros Hn. rewrite H2 by assumption. reflexivity.
Qed.

(** X10. [next_player] of a seat of the game is the seat that follows the
    first occurrence of the id in seat order, the first seat following the
    last; for an id that is no seat of the game it raises ValueError. *)
Theorem next_player_cycles (st : GameState) (pid : string) :
  (In pid (player_order st) ->
   exists (i : nat) (q : string),
     next_player st pid = Ok q /\
     nth_error (player_order st) i = Some pid /\
     (forall j y, (j < i)%nat -> nth_error (player_order st) j = Some y -> y <> pid) /\
     nth_error (player_order st) (if (S i =? length (player_order st))%nat
                                  then 0%nat else S i) = Some q) /\
  (~ In pid (player_order st) -> next_player st pid = Raise ValueError).
Proof. exact (next_player_spec st pid). Qed.

(** A use of [next_player_cycles]: the seat after the last is the first. *)
Lemma next_player_cycles_witness :
  exists (i : nat) (q : string),
    next_player (HeartsGame four_players) "d" = Ok q /\
    nth_error (player_order (HeartsGame four_players)) i = Some "d" /\
    (forall j y, (j < i)%nat ->
       nth_error (player_order (HeartsGame four_players)) j = Some y -> y <> "d") /\
    nth_error (player_order (HeartsGame four_players))
      (if (S i =? length (player_order (HeartsGame four_players)))%nat
       then 0%nat else S i) = Some q.
Proof.
  apply (next_player_cycles (HeartsGame four_players) "d").
  simpl. tauto.
Defined.

(** A use of [find_two_clubs_player_first]: the second seat holds the card. *)
Lemma find_two_clubs_player_first_witness :
  exists (i : nat) (hand : list Card),
    nth_error [("a", ["3C"]); ("b", ["2C"; "KH"])] i = Some ("b", hand) /\
    In "2C" hand.
Proof.
  destruct (find_two_clubs_player_first [("a", ["3C"]); ("b", ["2C"; "KH"])])
    as [H _].
  destruct (H "b" eq_refl) as [i [hand [Hn [Hin _]]]].
  exists i, hand. split; assumption.
Defined.

(** ** The pass mapping *)

Lemma dict_set_new_app {V : Type} (d : Dict.t V) (k : string) (v : V) :
  ~ In k (Dict.keys d) -> Dict.set d k v = d ++ [(k, v)].
Proof.
  induction d as [|[k0 v0] d IH]; simpl; [reflexivity|].
  intros H. destruct (String.eqb k0 k) eqn:E.
  - apply String.eqb_eq in E. tauto.
  - rewrite IH by tauto. reflexivity.
Qed.

Lemma build_map_loop (F : Z -> string -> res string) (G : Z -> string -> string)
    (l : list (Z * string)) (acc : Dict.t string) :
  (forall idx pid, In (idx, pid) l -> F idx pid = Ok (G idx pid)) ->
  NoDup (map snd l) ->
  (forall ip, In ip l -> ~ In (snd ip) (Dict.keys acc)) ->
  foldM (fun mapping (ip : Z * string) =>
           let (idx, pid) := ip in
           target <- F idx pid ;; Ok (Dict.set mapping pid target)) l acc
  = Ok (acc ++ map (fun ip => (snd ip, G (fst ip) (snd ip))) l).
Proof.
  revert acc. induction l as [|[idx pid] l IH]; intros acc HF Hnd Hacc; simpl.
  - now rewrite app_nil_r.
  - rewrite (HF idx pid (or_introl eq_refl)). simpl.
    inversion Hnd as [|? ? Hnot Hnd']. subst.
    rewrite dict_set_new_app by (apply (Hacc (idx, pid)); now left).
    rewrite IH.
    + now rewrite <- app_assoc.
    + intros i p Hin. apply HF. now right.
    + exact Hnd'.
    + intros ip Hin. unfold Dict.keys. rewrite map_app, in_app_iff. simpl.
      intros [H|[H|[]]].
      * apply (Hacc ip); [now right | exact H].
      * apply Hnot. rewrite H. now apply in_map.
Qed.

Lemma enumerate_from_In {A : Type} (l : list A) (s : nat) (idx : Z) (x : A) :
  In (idx, x) (combine (map Z.of_nat (seq s (length l))) l) <->
  exists i : nat, idx = Z.of_nat (s + i) /\ nth_error l i = Some x.
Proof.
  revert s. induction l as [|y l IH]; intros s; simpl.
  - split; [intros [] | intros [[|i] [_ H]]; discriminate].
  - rewrite IH. split.
    + intros [H|[i [Hi Hn]]].
      * inversion H. subst. exists 0%nat. split; [f_equal; lia | reflexivity].
      * exists (S i). split; [rewrite Hi; f_equal; lia | exact Hn].
    + intros [[|i] [Hi Hn]]; simpl in Hn.
      * left. injection Hn as <-. rewrite Hi. do 2 f_equal. lia.
      * right. exists i. split; [rewrite Hi; f_equal; lia | exact Hn].
Qed.

Lemma enumerate_In {A : Type} (l : list A) (idx : Z) (x : A) :
  In (idx, x) (enumerate l) <->
  exists i : nat, idx = Z.of_nat i /\ nth_error l i = Some x.
Proof. unfold enumerate. now rewrite enumerate_from_In. Qed.

Lemma enumerate_snd {A : Type} (l : list A) : map snd (enumerate l) = l.
Proof.
  unfold enumerate. generalize 0%nat. induction l as [|x l IH]; intros s; simpl.
  - reflexivity.
  - now rewrite IH.
Qed.

Lemma mod_shift_inj (n i j k : Z) :
  0 <= i < n -> 0 <= j < n -> (i + k) mod n = (j + k) mod n -> i = j.
Proof.
  intros Hi Hj H.
  pose proof (Z.div_mod (i + k) n ltac:(lia)) as E1.
  pose proof (Z.div_mod (j + k) n ltac:(lia)) as E2.
  rewrite H in E1.
  set (q1 := (i + k) / n) in *. set (q2 := (j + k) / n) in *.
  set (r := (j + k) mod n) in *.
  assert (E : i - j = n * (q1 - q2)) by lia.
  assert (Hq : q1 - q2 = 0) by nia.
  lia.
Qed.

(** The target of a seat as [pass_map] computes it. *)
Lemma pass_target_ok (order : list string) (d : Z) (i : nat) (pid : string) :
  nth_error order i = Some pid ->
  exists t,
    (if d =? PASS_LEFT then list_at order ((Z.of_nat i + 1) mod len order)
     else if d =? PASS_RIGHT then list_at order ((Z.of_nat i - 1) mod len order)
     else if d =? PASS_ACROSS then list_at order ((Z.of_nat i + 2) mod len order)
     else Ok pid) = Ok t /\
    (d = PASS_LEFT -> seat_at order (Z.of_nat i + 1) = Some t) /\
    (d = PASS_RIGHT -> seat_at order (Z.of_nat i - 1) = Some t) /\
    (d = PASS_ACROSS -> seat_at order (Z.of_nat i + 2) = Some t) /\
    (d <> PASS_LEFT -> d <> PASS_RIGHT -> d <> PASS_ACROSS -> t = pid).
Proof.
  intros Hn.
  assert (Hlen : 0 < len order).
  { unfold len. assert (i < length order)%nat by (apply nth_error_Some; congruence).
    lia. }
  assert (Hat : forall x, exists t, list_at order (x mod len order) = Ok t /\
                                    seat_at order x = Some t).
  { intros x. destruct (list_at_nth order (x mod len order)) as [t [H1 H2]].
    - apply Z.mod_pos_bound. exact Hlen.
    - exists t. split; [exact H1 | exact H2]. }
  unfold PASS_LEFT, PASS_RIGHT, PASS_ACROSS.
  destruct (Z.eqb_spec d 0) as [E0|E0];
    [|destruct (Z.eqb_spec d 1) as [E1|E1];
      [|destruct (Z.eqb_spec d 2) as [E2|E2]]].
  - destruct (Hat (Z.of_nat i + 1)) as [t [H1 H2]]. exists t.
    repeat split; intros; try assumption; lia.
  - destruct (Hat (Z.of_nat i - 1)) as [t [H1 H2]]. exists t.
    repeat split; intros; try assumption; lia.
  - destruct (Hat (Z.of_nat i + 2)) as [t [H1 H2]]. exists t.
    repeat split; intros; try assumption; lia.
  - exists pid. repeat split; intros; try reflexivity; lia.
Qed.

Lemma seat_at_inj (order : list string) (i j : nat) (k : Z) (t : string) :
  NoDup order -> (i < length order)%nat -> (j < length order)%nat ->
  seat_at order (Z.of_nat i + k) = Some t ->
  seat_at order (Z.of_nat j + k) = Some t -> i = j.
Proof.
  intros Hnd Hi Hj H1 H2. unfold seat_at in *.
  assert (Hlen : 0 < len order) by (unfold len; lia).
  pose proof (Z.mod_pos_bound (Z.of_nat i + k) (len order) Hlen) as B1.
  pose proof (Z.mod_pos_bound (Z.of_nat j + k) (len order) Hlen) as B2.
  assert (E : Z.to_nat ((Z.of_nat i + k) mod len order)
              = Z.to_nat ((Z.of_nat j + k) mod len order)).
  { apply (proj1 (NoDup_nth_error order) Hnd).
    - apply nth_error_Some. congruence.
    - congruence. }
  assert (E' : (Z.of_nat i + k) mod len order = (Z.of_nat j + k) mod len order)
    by lia.
  apply mod_shift_inj in E'; unfold len; lia.
Qed.

Lemma pass_map_spec (players : list PlayerState) (d : Z) :
  NoDup (map id players) ->
  exists mapping : Dict.t string,
    pass_map players d = Ok mapping /\
    Dict.keys mapping = map id players /\
    (forall (i : nat) (pid : string),
       nth_error (map id players) i = Some pid ->
       exists t, Dict.get mapping pid = Some t /\
         (d = PASS_LEFT -> seat_at (map id players) (Z.of_nat i + 1) = Some t) /\
         (d = PASS_RIGHT -> seat_at (map id players) (Z.of_nat i - 1) = Some t) /\
         (d = PASS_ACROSS -> seat_at (map id players) (Z.of_nat i + 2) = Some t) /\
         (d <> PASS_LEFT -> d <> PASS_RIGHT -> d <> PASS_ACROSS -> t = pid)) /\
    (forall p q t : string,
       Dict.get mapping p = Some t -> Dict.get mapping q = Some t -> p = q).
Proof.
  intros Hnd. unfold pass_map. set (order := map id players) in *.
  set (F := fun (idx : Z) (pid : string) =>
              if d =? PASS_LEFT then list_at order ((idx + 1) mod len order)
              else if d =? PASS_RIGHT then list_at order ((idx - 1) mod len order)
              else if d =? PASS_ACROSS then list_at order ((idx + 2) mod len order)
              else Ok pid).
  set (G := fun (idx : Z) (pid : string) =>
              match F idx pid with Ok t => t | Raise _ => pid end).
  set (mapping := map (fun ip : Z * string => (snd ip, G (fst ip) (snd ip)))
                      (enumerate order)).
  assert (HG : forall i pid, nth_error order i = Some pid ->
                 F (Z.of_nat i) pid = Ok (G (Z.of_nat i) pid)).
  { intros i pid Hn. destruct (pass_target_ok order d i pid Hn) as [t [Ht _]].
    unfold G. fold (F (Z.of_nat i) pid) in Ht. now rewrite Ht. }
  assert (Hkeys : Dict.keys mapping = order).
  { unfold Dict.keys, mapping. rewrite map_map. simpl. apply enumerate_snd. }
  assert (Hin : forall p t, Dict.get mapping p = Some t <->
                  exists i, nth_error order i = Some p /\ t = G (Z.of_nat i) p).
  { intros p t. split.
    - intros H. apply dict_In_of_get in H. unfold mapping in H.
      apply in_map_iff in H. destruct H as [[idx pid] [E Hip]]. simpl in E.
      injection E as -> <-. apply enumerate_In in Hip.
      destruct Hip as [i [-> Hn]]. eauto.
    - intros [i [Hn ->]]. apply dict_get_of_In; [now rewrite Hkeys|].
      unfold mapping. apply in_map_iff. exists (Z.of_nat i, p).
      split; [reflexivity|]. apply enumerate_In. eauto. }
  exists mapping. split; [|split; [exact Hkeys|split]].
  - change (foldM (fun mapping (ip : Z * string) =>
                     let (idx, pid) := ip in
                     target <- F idx pid ;; Ok (Dict.set mapping pid target))
                  (enumerate order) [] = Ok mapping).
    rewrite (build_map_loop F G); [reflexivity| | |].
    + intros idx pid H. apply enumerate_In in H. destruct H as [i [-> Hn]].
      now apply HG.
    + now rewrite enumerate_snd.
    + intros ip _ [].
  - intros i pid Hn. destruct (pass_target_ok order d i pid Hn) as [t [Ht Hs]].
    exists t. split; [|exact Hs]. apply Hin. exists i. split; [exact Hn|].
    fold (F (Z.of_nat i) pid) in Ht. unfold G. now rewrite Ht.
  - intros p q t Hp Hq. apply Hin in Hp, Hq.
    destruct Hp as [i [Hi Hp]], Hq as [j [Hj Hq]].
    destruct (pass_target_ok order d i p Hi) as [tp [Htp [Lp [Rp [Ap Op]]]]].
    destruct (pass_target_ok order d j q Hj) as [tq [Htq [Lq [Rq [Aq Oq]]]]].
    fold (F (Z.of_nat i) p) in Htp. fold (F (Z.of_nat j) q) in Htq.
    unfold G in Hp, Hq. rewrite Htp in Hp. rewrite Htq in Hq. subst tp tq.
    assert (Li : (i < length order)%nat) by (apply nth_error_Some; congruence).
    assert (Lj : (j < length order)%nat) by (apply nth_error_Some; congruence).
    assert (Hij : i = j -> p = q) by (intros ->; congruence).
    destruct (Z.eq_dec d PASS_LEFT) as [E0|E0];
      [|destruct (Z.eq_dec d PASS_RIGHT) as [E1|E1];
        [|destruct (Z.eq_dec d PASS_ACROSS) as [E2|E2]]].
    + apply Hij. apply (seat_at_inj order i j 1 t); auto.
    + apply Hij. apply (seat_at_inj order i j (-1) t); auto.
    + apply Hij. apply (seat_at_inj order i j 2 t); auto.
    + rewrite <- (Op E0 E1 E2). now apply Oq.
Qed.

(** X11. For players with distinct ids [pass_map] returns a mapping keyed by
    the seats in seat order: passing left sends seat [i] to seat [i + 1],
    right to seat [i - 1] and across to seat [i + 2], all counted cyclically,
    and any other direction sends every seat to itself.  No two seats pass to
    the same seat. *)
Theorem pass_map_targets (players : list PlayerState) (d : Z) :
  NoDup (map id players) ->
  exists mapping : Dict.t string,
    pass_map players d = Ok mapping /\
    Dict.keys mapping = map id players /\
    (forall (i : nat) (pid : string),
       nth_error (map id players) i = Some pid ->
       exists t, Dict.get mapping pid = Some t /\
         (d = PASS_LEFT -> seat_at (map id players) (Z.of_nat i + 1) = Some t) /\
         (d = PASS_RIGHT -> seat_at (map id players) (Z.of_nat i - 1) = Some t) /\
         (d = PASS_ACROSS -> seat_at (map id players) (Z.of_nat i + 2) = Some t) /\
         (d <> PASS_LEFT -> d <> PASS_RIGHT -> d <> PASS_ACROSS -> t = pid)) /\
    (forall p q t : string,
       Dict.get mapping p = Some t -> Dict.get mapping q = Some t -> p = q).
Proof. exact (pass_map_spec players d). Qed.

(** A use of [pass_map_targets]: passing right from the first of four seats. *)
Lemma pass_map_targets_witness :
  exists mapping : Dict.t string,
    pass_map four_players PASS_RIGHT = Ok mapping /\
    Dict.get mapping "a" = Some "d".
Proof.
  destruct (pass_map_targets four_players PASS_RIGHT) as [m [Hm [_ [Ht _]]]].
  - repeat constructor; simpl; intuition discriminate.
  - exists m. split; [exact Hm|].
    destruct (Ht 0%nat "a" eq_refl) as [t [Hg [_ [Hr _]]]].
    rewrite Hg. rewrite <- (Hr eq_refl). reflexivity.
Defined.

(** ** Sorting a hand *)

Lemma key_le_total (a b : Z * Z) : key_le a b = false -> key_le b a = true.
Proof.
  unfold key_le. intros H.
  apply orb_false_iff in H. destruct H as [H1 H2].
  apply Z.ltb_ge in H1.
  destruct (Z.ltb_spec (fst b) (fst a)) as [L|L]; [reflexivity|]. simpl.
  assert (E : fst a = fst b) by lia.
  rewrite E, Z.eqb_refl in *. simpl in *.
  apply Z.leb_gt in H2. apply Z.leb_le. lia.
Qed.

Lemma key_le_trans (a b c : Z * Z) :
  key_le a b = true -> key_le b c = true -> key_le a c = true.
Proof.
  unfold key_le. intros H1 H2.
  apply orb_true_iff in H1, H2. apply orb_true_iff.
  rewrite andb_true_iff in *. rewrite !Z.ltb_lt, !Z.eqb_eq, !Z.leb_le in *. lia.
Qed.

Lemma insert_by_key_perm (x : (Z * Z) * Card) (l : list ((Z * Z) * Card)) :
  Permutation (insert_by_key x l) (x :: l).
Proof.
  induction l as [|y l IH]; simpl; [reflexivity|].
  destruct (key_le (fst y) (fst x)); [|reflexivity].
  rewrite IH. apply perm_swap.
Qed.

Lemma insert_by_key_sorted (x : (Z * Z) * Card) (l : list ((Z * Z) * Card)) :
  StronglySorted (fun a b => key_le (fst a) (fst b) = true) l ->
  StronglySorted (fun a b => key_le (fst a) (fst b) = true) (insert_by_key x l).
Proof.
  induction l as [|y l IH]; simpl; intros H.
  - repeat constructor.
  - inversion H as [|? ? Hs Hall]. subst.
    destruct (key_le (fst y) (fst x)) eqn:E.
    + constructor; [now apply IH|].
      apply Forall_forall. intros z Hz.
      apply (Permutation_in _ (insert_by_key_perm x l)) in Hz.
      destruct Hz as [<-|Hz]; [exact E|].
      rewrite Forall_forall in Hall. now apply Hall.
    + apply key_le_total in E. constructor; [exact H|].
      constructor; [exact E|].
      apply Forall_forall. intros z Hz. rewrite Forall_forall in Hall.
      apply (key_le_trans _ (fst y)); [exact E | now apply Hall].
Qed.

Lemma sort_keyed_loop (l acc : list ((Z * Z) * Card)) :
  StronglySorted (fun a b => key_le (fst a) (fst b) = true) acc ->
  Permutation (fold_left (fun acc x => insert_by_key x acc) l acc) (acc ++ l) /\
  StronglySorted (fun a b => key_le (fst a) (fst b) = true)
    (fold_left (fun acc x => insert_by_key x acc) l acc).
Proof.
  revert acc. induction l as [|x l IH]; intros acc Hs; simpl.
  - rewrite app_nil_r. split; [reflexivity | exact Hs].
  - destruct (IH (insert_by_key x acc) (insert_by_key_sorted x acc Hs)) as [P S].
    split; [|exact S]. rewrite P, insert_by_key_perm. simpl.
    apply Permutation_middle.
Qed.

Lemma mapM_combine {A B : Type} (f : A -> res B) (l : list A) (r : list B) :
  mapM f l = Ok r ->
  map snd (combine r l) = l /\
  forall b a, In (b, a) (combine r l) -> f a = Ok b.
Proof.
  revert r. induction l as [|x l IH]; simpl; intros r H.
  - injection H as <-. split; [reflexivity | intros ? ? []].
  - destruct (f x) as [y|e] eqn:E; simpl in H; [|discriminate].
    destruct (mapM f l) as [r'|e]; simpl in H; [|discriminate].
    injection H as <-. destruct (IH r' eq_refl) as [H1 H2]. simpl. split.
    + now rewrite H1.
    + intros b a [Hba|Hba]; [inversion Hba; now subst | now apply H2].
Qed.

Lemma mapM_ok {A B : Type} (f : A -> res B) (l : list A) :
  (forall x, In x l -> exists y, f x = Ok y) -> exists r, mapM f l = Ok r.
Proof.
  induction l as [|x l IH]; simpl; intros H; [eauto|].
  destruct (H x (or_introl eq_refl)) as [y Hy]. rewrite Hy. simpl.
  destruct IH as [r Hr]; [intros z Hz; apply H; now right|].
  rewrite Hr. simpl. eauto.
Qed.

Lemma sort_hand_result (hand s : list Card) :
  sort_hand hand = Ok s -> Permutation s hand /\ hand_sorted s.
Proof.
  unfold sort_hand. destruct (mapM card_key hand) as [ks|e] eqn:E; simpl;
    [|discriminate].
  intros H. injection H as <-.
  destruct (mapM_combine _ _ _ E) as [Hsnd Hkey].
  destruct (sort_keyed_loop (combine ks hand) [] (SSorted_nil _)) as [P S].
  fold (sort_keyed (combine ks hand)) in P, S. simpl in P. split.
  - rewrite <- Hsnd at 2. now apply Permutation_map.
  - assert (Hk : forall p, In p (sort_keyed (combine ks hand)) ->
                   key_of (snd p) = fst p).
    { intros [k c] Hp. apply (Permutation_in _ P) in Hp.
      unfold key_of. simpl. now rewrite (Hkey k c Hp). }
    unfold hand_sorted. revert S Hk.
    generalize (sort_keyed (combine ks hand)). intros l S.
    induction S as [|p l S IH Hall]; intros Hk; simpl; constructor.
    + apply IH. intros q Hq. apply Hk. now right.
    + apply Forall_forall. intros c Hc. apply in_map_iff in Hc.
      destruct Hc as [q [<- Hq]]. rewrite Forall_forall in Hall.
      rewrite (Hk p (or_introl eq_refl)), (Hk q (or_intror Hq)).
      now apply Hall.
Qed.

Lemma sort_hand_returns (hand : list Card) :
  Forall deck_card hand -> exists s, sort_hand hand = Ok s.
Proof.
  intros Hdeck. unfold sort_hand.
  destruct (mapM_ok card_key hand) as [ks Hks].
  - intros c Hc. apply deck_card_key. rewrite Forall_forall in Hdeck. auto.
  - rewrite Hks. simpl. eauto.
Qed.

(** X12. Sorting a hand of deck cards returns the same cards in the order
    of the sort key: suits in the order clubs, diamonds, spades, hearts, and
    ranks ascending within a suit. *)
Theorem sort_hand_sorts (hand : list Card) :
  Forall deck_card hand ->
  exists s, sort_hand hand = Ok s /\ Permutation s hand /\ hand_sorted s.
Proof.
  intros Hdeck. destruct (sort_hand_returns hand Hdeck) as [s Hs].
  exists s. split; [exact Hs|]. now apply sort_hand_result.
Qed.

(** A use of [sort_hand_sorts] on four cards. *)
Lemma sort_hand_sorts_witness :
  exists s, sort_hand ["KH"; "3C"; "QS"; "2C"] = Ok s /\
            Permutation s ["KH"; "3C"; "QS"; "2C"] /\ hand_sorted s.
Proof.
  apply sort_hand_sorts. deck_cards.
Defined.

(** ** Loops over dictionaries *)

Lemma from_keys_loop {V : Type} (f : string -> V) (ks : list string)
    (acc : Dict.t V) :
  NoDup ks -> (forall k, In k ks -> ~ In k (Dict.keys acc)) ->
  fold_left (fun d k => Dict.set d k (f k)) ks acc
  = acc ++ map (fun k => (k, f k)) ks.
Proof.
  revert acc. induction ks as [|k ks IH]; intros acc Hnd Hacc; simpl.
  - now rewrite app_nil_r.
  - inversion Hnd as [|? ? Hnot Hnd']. subst.
    rewrite dict_set_new_app by (apply Hacc; now left).
    rewrite IH; [now rewrite <- app_assoc | exact Hnd' |].
    intros k' Hk'. unfold Dict.keys. rewrite map_app, in_app_iff. simpl.
    intros [H|[H|[]]].
    + apply (Hacc k'); [now right | exact H].
    + congruence.
Qed.

Lemma from_keys_nodup {V : Type} (f : string -> V) (ks : list string) :
  NoDup ks -> Dict.from_keys ks f = map (fun k => (k, f k)) ks.
Proof.
  intros H. unfold Dict.from_keys. rewrite from_keys_loop; auto.
Qed.

Lemma from_keys_keys {V : Type} (f : string -> V) (ks : list string) :
  NoDup ks -> Dict.keys (Dict.from_keys ks f) = ks.
Proof.
  intros H. rewrite from_keys_nodup by assumption.
  unfold Dict.keys. rewrite map_map. simpl. apply map_id.
Qed.

Lemma dict_set_map {V : Type} (d : Dict.t V) (k : string) (v : V) :
  In k (Dict.keys d) -> NoDup (Dict.keys d) ->
  Dict.set d k v = map (fun kv => if String.eqb (fst kv) k then (k, v) else kv) d.
Proof.
  induction d as [|[k0 v0] d IH]; simpl; [intros []|].
  intros Hin Hnd. inversion Hnd as [|? ? Hnot Hnd']. subst.
  destruct (String.eqb k0 k) eqn:E.
  - apply String.eqb_eq in E. subst k0. f_equal.
    symmetry. rewrite <- (map_id d) at 2. apply map_ext_in.
    intros [k1 v1] H1. simpl.
    destruct (String.eqb k1 k) eqn:E1; [|reflexivity].
    apply String.eqb_eq in E1. subst k1. exfalso. apply Hnot.
    change k with (fst (k, v1)). now apply in_map.
  - apply String.eqb_neq in E. f_equal. apply IH; [|exact Hnd'].
    destruct Hin; [congruence | assumption].
Qed.

Lemma dict_map_at_keys {V : Type} (ks : list string) (G : V -> V) (d : Dict.t V) :
  Dict.keys (dict_map_at ks G d) = Dict.keys d.
Proof. unfold Dict.keys, dict_map_at. now rewrite map_map. Qed.

Lemma dict_map_at_all {V : Type} (ks : list string) (G : V -> V) (d : Dict.t V) :
  incl (Dict.keys d) ks -> Dict.values (dict_map_at ks G d) = map G (Dict.values d).
Proof.
  intros H. unfold Dict.values, dict_map_at. rewrite !map_map.
  apply map_ext_in. intros [k v] Hkv. simpl.
  assert (E : mem k ks = true).
  { apply mem_In, H. change k with (fst (k, v)). now apply in_map. }
  now rewrite E.
Qed.

Lemma dict_map_at_get {V : Type} (ks : list string) (G : V -> V) (d : Dict.t V)
    (k : string) :
  Dict.get (dict_map_at ks G d) k
  = option_map (fun v => if mem k ks then G v else v) (Dict.get d k).
Proof.
  induction d as [|[k0 v0] d IH]; simpl; [reflexivity|].
  destruct (String.eqb k0 k) eqn:E; [|exact IH].
  apply String.eqb_eq in E. now subst.
Qed.

(** The loop [for k in ks: d[k] = g(d[k])]. *)
Lemma dict_update_loop {V : Type} (g : V -> res V) (G : V -> V)
    (ks : list string) (d : Dict.t V) :
  NoDup ks -> NoDup (Dict.keys d) -> incl ks (Dict.keys d) ->
  (forall k v, In k ks -> Dict.get d k = Some v -> g v = Ok (G v)) ->
  foldM (fun d k => v <- Dict.getitem d k ;; s <- g v ;; Ok (Dict.set d k s)) ks d
  = Ok (dict_map_at ks G d).
Proof.
  revert d. induction ks as [|k ks IH]; intros d Hks Hd Hincl Hg; simpl.
  - f_equal. unfold dict_map_at. clear. induction d as [|[k v] d IH]; simpl;
      [reflexivity | f_equal; exact IH].
  - inversion Hks as [|? ? Hnot Hks']. subst.
    assert (Hk : In k (Dict.keys d)) by (apply Hincl; now left).
    destruct (dict_getitem_In d k Hk) as [v [Hv Hget]]. rewrite Hv. simpl.
    rewrite (Hg k v (or_introl eq_refl) Hget). simpl.
    rewrite IH.
    + f_equal. rewrite (dict_set_map d k (G v) Hk Hd).
      unfold dict_map_at. rewrite map_map. apply map_ext_in.
      intros [k1 v1] H1. simpl.
      destruct (String.eqb k1 k) eqn:E; simpl.
      * apply String.eqb_eq in E. subst k1.
        apply mem_false in Hnot. unfold mem in *. simpl.
        rewrite Hnot.
        apply (dict_get_of_In d k v1 Hd) in H1. congruence.
      * reflexivity.
    + exact Hks'.
    + now rewrite dict_keys_set_in.
    + rewrite dict_keys_set_in by assumption.
      intros x Hx. apply Hincl. now right.
    + intros k' v' Hk' Hget'. rewrite dict_get_set_other in Hget'.
      * apply (Hg k' v'); [now right | exact Hget'].
      * intros ->. contradiction.
Qed.

Lemma dict_set_concat (d : Dict.t (list Card)) (k : string) (h l : list Card) :
  Dict.get d k = Some h ->
  Permutation (concat (Dict.values (Dict.set d k (h ++ l))))
              (concat (Dict.values d) ++ l).
Proof.
  induction d as [|[k0 v0] d IH]; simpl; [discriminate|].
  destruct (String.eqb k0 k) eqn:E; intros H.
  - injection H as ->. simpl. rewrite <- !app_assoc.
    apply Permutation_app_head, Permutation_app_comm.
  - simpl. rewrite <- app_assoc. apply Permutation_app_head. now apply IH.
Qed.

Lemma foldM_enumerate_from {A B : Type} (f : B -> Z * A -> res B)
    (P : nat -> B -> Prop) (l : list A) (s : nat) (b : B) :
  P s b ->
  (forall m x b, nth_error l m = Some x -> P (s + m)%nat b ->
     exists b', f b (Z.of_nat (s + m), x) = Ok b' /\ P (S (s + m)) b') ->
  exists b', foldM f (combine (map Z.of_nat (seq s (length l))) l) b = Ok b' /\
             P (s + length l)%nat b'.
Proof.
  revert s b. induction l as [|x l IH]; intros s b Hb Hstep; simpl.
  - exists b. split; [reflexivity|]. now rewrite Nat.add_0_r.
  - destruct (Hstep 0%nat x b eq_refl) as [b1 [H1 P1]];
      [now rewrite Nat.add_0_r|].
    rewrite Nat.add_0_r in H1, P1. rewrite H1. simpl.
    destruct (IH (S s) b1 P1) as [b' [H' P']].
    + intros m y b2 Hm Pm.
      replace (S s + m)%nat with (s + S m)%nat in * by lia.
      now apply Hstep.
    + exists b'. split; [exact H'|].
      now replace (s + S (length l))%nat with (S s + length l)%nat by lia.
Qed.

Lemma foldM_enumerate_inv {A B : Type} (f : B -> Z * A -> res B)
    (P : nat -> B -> Prop) (l : list A) (b : B) :
  P 0%nat b ->
  (forall m x b, nth_error l m = Some x -> P m b ->
     exists b', f b (Z.of_nat m, x) = Ok b' /\ P (S m) b') ->
  exists b', foldM f (enumerate l) b = Ok b' /\ P (length l) b'.
Proof.
  intros H0 Hstep. unfold enumerate.
  apply (foldM_enumerate_from f P l 0 b H0). exact Hstep.
Qed.

Lemma div_mod_succ (m n : Z) :
  0 <= m -> 0 < n ->
  (m mod n + 1 < n /\ (m + 1) / n = m / n /\ (m + 1) mod n = m mod n + 1) \/
  (m mod n + 1 = n /\ (m + 1) / n = m / n + 1 /\ (m + 1) mod n = 0).
Proof.
  intros Hm Hn.
  pose proof (Z.div_mod m n ltac:(lia)) as E.
  pose proof (Z.mod_pos_bound m n Hn) as B.
  destruct (Z_lt_dec (m mod n + 1) n) as [L|L]; [left | right].
  - split; [exact L|]. split.
    + symmetry. apply (Z.div_unique (m + 1) n (m / n) (m mod n + 1)); lia.
    + symmetry. apply (Z.mod_unique (m + 1) n (m / n) (m mod n + 1)); lia.
  - split; [lia|]. split.
    + symmetry. apply (Z.div_unique (m + 1) n (m / n + 1) 0); lia.
    + symmetry. apply (Z.mod_unique (m + 1) n (m / n + 1) 0); lia.
Qed.

(** ** Dealing *)

Lemma firstn_S_nth {A : Type} (l : list A) (m : nat) (x : A) :
  nth_error l m = Some x -> firstn (S m) l = firstn m l ++ [x].
Proof.
  revert m. induction l as [|y l IH]; intros [|m] H; simpl in *; try discriminate.
  - now injection H as <-.
  - now rewrite <- IH.
Qed.

Lemma concat_map_perm (G : list Card -> list Card) (vs : list (list Card)) :
  (forall v, In v vs -> Permutation (G v) v) ->
  Permutation (concat (map G vs)) (concat vs).
Proof.
  induction vs as [|v vs IH]; simpl; intros H; [reflexivity|].
  apply Permutation_app; [apply H; now left | apply IH; intros; apply H; now right].
Qed.

(** The dealing loop of [deal_hands]: the cards go round the seats. *)
Lemma deal_loop (players : list PlayerState) (deck : list Card) :
  players <> [] -> NoDup (map id players) ->
  exists hands : Dict.t (list Card),
    foldM (fun hands (ic : Z * Card) =>
             let (i, card) := ic in
             if len players =? 0 then Raise ZeroDivisionError
             else
               p <- list_at players (i mod len players) ;;
               h <- Dict.getitem hands (id p) ;;
               Ok (Dict.set hands (id p) (h ++ [card])))
          (enumerate deck) (Dict.from_keys (map id players) (fun _ => @nil Card))
    = Ok hands /\
    Dict.keys hands = map id players /\
    Permutation (concat (Dict.values hands)) deck /\
    forall (i : nat) (pid : string),
      nth_error (map id players) i = Some pid ->
      exists h, Dict.get hands pid = Some h /\
        Z.of_nat (length h)
        = Z.of_nat (length deck) / len players
          + (if Z.of_nat i <? Z.of_nat (length deck) mod len players then 1 else 0).
Proof.
  intros Hne Hnd. set (order := map id players) in *.
  set (n := len players).
  assert (Hn : 0 < n).
  { unfold n, len. destruct players; [congruence | simpl; lia]. }
  assert (Hlen : length order = length players) by apply length_map.
  set (P := fun (m : nat) (hands : Dict.t (list Card)) =>
              Dict.keys hands = order /\
              Permutation (concat (Dict.values hands)) (firstn m deck) /\
              forall (i : nat) (pid : string),
                nth_error order i = Some pid ->
                exists h, Dict.get hands pid = Some h /\
                  Z.of_nat (length h)
                  = Z.of_nat m / n + (if Z.of_nat i <? Z.of_nat m mod n then 1 else 0)).
  match goal with
  | |- exists hands, foldM ?f ?l ?b = _ /\ _ =>
      destruct (foldM_enumerate_inv f P deck b) as [hands [Hrun [Hk [Hp Hl]]]]
  end.
  - (* before the first card *)
    unfold P. rewrite from_keys_keys by assumption.
    split; [reflexivity|]. split.
    + rewrite from_keys_nodup by assumption. simpl.
      clear. induction order; simpl; [constructor | assumption].
    + intros i pid Hi. exists []. split.
      * apply dict_get_of_In.
        -- now rewrite from_keys_keys.
        -- rewrite from_keys_nodup by assumption.
           apply in_map_iff. exists pid. split; [reflexivity|].
           eapply nth_error_In; eauto.
      * change (Z.of_nat 0) with 0. rewrite Zdiv_0_l, Zmod_0_l. cbn [length].
        destruct (Z.ltb_spec (Z.of_nat i) 0); lia.
  - (* one card *)
    intros m card hands Hcard [Hk [Hp Hl]].
    assert (E0 : (n =? 0) = false) by (apply Z.eqb_neq; lia).
    cbv beta iota. rewrite E0.
    pose proof (Z.mod_pos_bound (Z.of_nat m) n Hn) as Hr.
    destruct (list_at_nth players (Z.of_nat m mod n)) as [p [Hat Hnp]];
      [exact Hr|].
    rewrite Hat. cbn [rbind].
    set (r := Z.to_nat (Z.of_nat m mod n)) in *.
    assert (Hor : nth_error order r = Some (id p)).
    { unfold order. now apply map_nth_error. }
    assert (Hin : In (id p) (Dict.keys hands)).
    { rewrite Hk. eapply nth_error_In; eauto. }
    destruct (dict_getitem_In hands (id p) Hin) as [h [Hgi Hg]].
    rewrite Hgi. cbn [rbind].
    eexists. split; [reflexivity|]. unfold P. split; [|split].
    + now rewrite dict_keys_set_in.
    + rewrite (firstn_S_nth deck m card Hcard).
      rewrite (dict_set_concat hands (id p) h [card] Hg).
      now apply Permutation_app_tail.
    + intros i pid Hi.
      destruct (Hl i pid Hi) as [hi [Hgi' Hli]].
      assert (Hilt : (i < length order)%nat) by (apply nth_error_Some; congruence).
      assert (Hrlt : (r < length order)%nat) by (apply nth_error_Some; congruence).
      rewrite Nat2Z.inj_succ. unfold Z.succ.
      destruct (String.eqb (id p) pid) eqn:E.
      * apply String.eqb_eq in E. subst pid.
        assert (Eir : i = r).
        { apply (proj1 (NoDup_nth_error order) Hnd); [exact Hilt | congruence]. }
        exists (h ++ [card]). split; [apply dict_get_set_same|].
        assert (hi = h) by congruence. subst hi.
        rewrite length_app. simpl.
        destruct (div_mod_succ (Z.of_nat m) n ltac:(lia) Hn)
          as [[B [Ed Em]]|[B [Ed Em]]]; rewrite Ed, Em;
          destruct (Z.ltb_spec (Z.of_nat i) (Z.of_nat m mod n));
          try destruct (Z.ltb_spec (Z.of_nat i) (Z.of_nat m mod n + 1));
          try destruct (Z.ltb_spec (Z.of_nat i) 0); lia.
      * apply String.eqb_neq in E.
        assert (Eir : i <> r) by (intros ->; congruence).
        exists hi. split; [now rewrite dict_get_set_other|].
        unfold len in n. 
        destruct (div_mod_succ (Z.of_nat m) n ltac:(lia) Hn)
          as [[B [Ed Em]]|[B [Ed Em]]]; rewrite Ed, Em;
          destruct (Z.ltb_spec (Z.of_nat i) (Z.of_nat m mod n));
          try destruct (Z.ltb_spec (Z.of_nat i) (Z.of_nat m mod n + 1));
          try destruct (Z.ltb_spec (Z.of_nat i) 0); unfold n in *; lia.
  - exists hands. split; [exact Hrun|]. split; [exact Hk|]. split.
    + now rewrite firstn_all in Hp.
    + exact Hl.
Qed.

Lemma deal_hands_result (players : list PlayerState) (deck : list Card) :
  players <> [] -> NoDup (map id players) -> Forall deck_card deck ->
  exists hands : Dict.t (list Card),
    deal_hands players deck = Ok hands /\
    Dict.keys hands = map id players /\
    Permutation (concat (Dict.values hands)) deck /\
    (forall pid h, Dict.get hands pid = Some h -> hand_sorted h) /\
    (forall q : nat, length deck = (q * length players)%nat ->
       forall pid h, Dict.get hands pid = Some h -> length h = q).
Proof.
  intros Hne Hnd Hdeck. unfold deal_hands.
  destruct (deal_loop players deck Hne Hnd) as [hands [Hrun [Hk [Hp Hl]]]].
  rewrite Hrun. cbn [rbind].
  set (G := fun h : list Card =>
              match sort_hand h with Ok s => s | Raise _ => h end).
  assert (Hcards : forall pid h, Dict.get hands pid = Some h ->
                     sort_hand h = Ok (G h)).
  { intros pid h Hg. destruct (sort_hand_returns h) as [s Hs].
    - apply Forall_forall. intros c Hc.
      rewrite Forall_forall in Hdeck. apply Hdeck.
      apply (Permutation_in _ Hp). apply in_concat. exists h. split; [|exact Hc].
      apply dict_In_of_get in Hg. change h with (snd (pid, h)).
      now apply in_map.
    - unfold G. now rewrite Hs. }
  assert (Hndk : NoDup (Dict.keys hands)) by now rewrite Hk.
  rewrite (dict_update_loop sort_hand G (Dict.keys hands) hands Hndk Hndk
             (incl_refl _)) by (intros k v _; apply Hcards).
  eexists. split; [reflexivity|].
  assert (HG : forall pid h, Dict.get hands pid = Some h ->
                 Permutation (G h) h /\ hand_sorted (G h)).
  { intros pid h Hg. apply sort_hand_result. now apply (Hcards pid). }
  assert (Hget : forall pid h',
             Dict.get (dict_map_at (Dict.keys hands) G hands) pid = Some h' ->
             exists h, Dict.get hands pid = Some h /\ h' = G h).
  { intros pid h' Hg'. rewrite dict_map_at_get in Hg'.
    destruct (Dict.get hands pid) as [h|] eqn:Eg; simpl in Hg'; [|discriminate].
    exists h. split; [reflexivity|].
    assert (Em : mem pid (Dict.keys hands) = true).
    { apply mem_In, dict_get_In. eauto. }
    rewrite Em in Hg'. congruence. }
  split; [|split; [|split]].
  + now rewrite dict_map_at_keys.
  + rewrite dict_map_at_all by apply incl_refl.
    rewrite concat_map_perm; [exact Hp|].
    intros v Hv. unfold Dict.values in Hv. apply in_map_iff in Hv.
    destruct Hv as [[k v'] [<- Hkv]]. simpl.
    apply (HG k). now apply dict_get_of_In.
  + intros pid h' Hg'. destruct (Hget pid h' Hg') as [h [Hg ->]].
    now apply (HG pid).
  + intros q Hq pid h' Hg'. destruct (Hget pid h' Hg') as [h [Hg ->]].
    rewrite (Permutation_length (proj1 (HG pid h Hg))).
    assert (Hin : In pid (map id players)).
    { rewrite <- Hk. apply dict_get_In. eauto. }
    apply In_nth_error in Hin. destruct Hin as [i Hi].
    destruct (Hl i pid Hi) as [h0 [Hg0 Hlen]].
    assert (h0 = h) by congruence. subst h0.
    assert (Hn : 0 < len players).
    { unfold len. destruct players; [congruence | simpl; lia]. }
    assert (E : Z.of_nat (length deck) = Z.of_nat q * len players).
    { unfold len. lia. }
    rewrite E, Z_div_mult, Z_mod_mult in Hlen by lia.
    destruct (Z.ltb_spec (Z.of_nat i) 0); lia.
Qed.

(** X13. For at least one player, players with distinct ids and a deck of
    deck cards, [deal_hands] returns hands keyed by the seats in seat order;
    the hands together hold exactly the cards of the deck, every hand is
    sorted, and when the deck has [q] cards per player every hand has [q]
    cards.  Without players a non-empty deck raises ZeroDivisionError. *)
Theorem deal_hands_deals (players : list PlayerState) (deck : list Card) :
  (players <> [] -> NoDup (map id players) -> Forall deck_card deck ->
   exists hands : Dict.t (list Card),
     deal_hands players deck = Ok hands /\
     Dict.keys hands = map id players /\
     Permutation (concat (Dict.values hands)) deck /\
     (forall pid h, Dict.get hands pid = Some h -> hand_sorted h) /\
     (forall q : nat, length deck = (q * length players)%nat ->
        forall pid h, Dict.get hands pid = Some h -> length h = q)) /\
  (players = [] -> deck <> [] ->
   deal_hands players deck = Raise ZeroDivisionError).
Proof.
  split.
  - apply deal_hands_result.
  - intros -> Hne. destruct deck as [|c deck]; [congruence | reflexivity].
Qed.

(** A use of [deal_hands_deals]: four seats and the unshuffled deck. *)
Lemma deal_hands_deals_witness :
  exists hands : Dict.t (list Card),
    deal_hands four_players make_deck = Ok hands /\
    forall pid h, Dict.get hands pid = Some h -> length h = 13%nat.
Proof.
  destruct (deal_hands_deals four_players make_deck) as [H _].
  destruct H as [hands [Hrun [_ [_ [_ Hq]]]]].
  - discriminate.
  - repeat constructor; simpl; intuition discriminate.
  - apply Forall_forall. intros c Hc. exact Hc.
  - exists hands. split; [exact Hrun|]. apply Hq. reflexivity.
Defined.

(** ** Starting a round *)

Lemma start_round_run (deck : list Card) (st : GameState) (hs : Dict.t (list Card)) :
  deal_hands (players st) deck = Ok hs ->
  exists st',
    start_round deck st = (st', Ok tt) /\
    players st' = players st /\ scores st' = scores st /\
    hands st' = hs /\ trick st' = [] /\ last_trick st' = [] /\
    hearts_broken st' = false /\ trick_index st' = 0 /\
    pending_pass st' = [] /\
    taken_points_round st' = Dict.from_keys (player_order st) (fun _ => 0) /\
    round_index st' = round_index st /\ winner_id st' = winner_id st /\
    pass_dir st' = round_index st mod 4 /\
    (round_index st mod 4 = PASS_HOLD ->
       phase st' = playing /\ current_turn st' = find_two_clubs_player hs) /\
    (round_index st mod 4 <> PASS_HOLD ->
       phase st' = passing /\ current_turn st' = None).
Proof.
  intros Hdeal. unfold start_round, bind, get, lift, modify. rewrite Hdeal.
  cbn -[Z.modulo Dict.from_keys find_two_clubs_player].
  destruct (Z.eqb_spec (round_index st mod 4) PASS_HOLD) as [E|E];
    eexists; (split; [reflexivity|]);
    cbn -[Z.modulo Dict.from_keys find_two_clubs_player];
    repeat split; intros; congruence.
Qed.

Lemma two_clubs_dealt (hs : Dict.t (list Card)) :
  NoDup (Dict.keys hs) ->
  In "2C" (concat (Dict.values hs)) ->
  exists p, find_two_clubs_player hs = Some p /\
            In "2C" (Dict.get_default hs p []).
Proof.
  intros Hnd Hin. apply in_concat in Hin. destruct Hin as [h [Hh H2]].
  unfold Dict.values in Hh. apply in_map_iff in Hh.
  destruct Hh as [[q h'] [E Hq]]. simpl in E. subst h'.
  destruct (find_two_clubs_player_spec hs) as [Hsome Hnone].
  destruct (find_two_clubs_player hs) as [p|] eqn:Ef.
  - exists p. split; [reflexivity|].
    destruct (Hsome p eq_refl) as [i [hand [Hn [Hc _]]]].
    apply nth_error_In in Hn.
    unfold Dict.get_default. now rewrite (dict_get_of_In hs p hand Hnd Hn).
  - exfalso. apply (proj1 Hnone eq_refl q h Hq H2).
Qed.

(** X14. Starting a round with at least one player, players with distinct
    ids and a shuffled full deck: the 52 cards are dealt to the seats, the
    trick, the pending passes and the points of the round are cleared, hearts
    are unbroken and the scores untouched.  The pass direction is the round
    number modulo 4; in a hold round play starts at once with the holder of
    the two of clubs to move, in every other round the phase is passing and
    nobody is to move. *)
Theorem start_round_starts (deck : list Card) (st : GameState) :
  players st <> [] -> NoDup (player_order st) -> Permutation deck make_deck ->
  exists st',
    start_round deck st = (st', Ok tt) /\
    Dict.keys (hands st') = player_order st /\
    Permutation (concat (Dict.values (hands st'))) make_deck /\
    trick st' = [] /\ pending_pass st' = [] /\ hearts_broken st' = false /\
    trick_index st' = 0 /\
    (forall p, In p (player_order st) -> taken st' p = 0) /\
    scores st' = scores st /\
    pass_dir st' = round_index st mod 4 /\
    (round_index st mod 4 = PASS_HOLD ->
       phase st' = playing /\
       exists p, current_turn st' = Some p /\ In "2C" (hand_of st' p)) /\
    (round_index st mod 4 <> PASS_HOLD ->
       phase st' = passing /\ current_turn st' = None).
Proof.
  intros Hne Hnd Hperm.
  assert (Hdeck : Forall deck_card deck).
  { apply Forall_forall. intros c Hc. apply (Permutation_in _ Hperm Hc). }
  destruct (deal_hands_result (players st) deck Hne Hnd Hdeck)
    as [hs [Hdeal [Hk [Hp _]]]].
  destruct (start_round_run deck st hs Hdeal)
    as (st' & Hrun & _ & Hsc & Hh & Ht & _ & Hb & Hti & Hpp & Htk & _ & _ & Hpd
        & Hhold & Hpass).
  exists st'. split; [exact Hrun|]. rewrite Hh.
  split; [exact Hk|]. split; [now rewrite Hp|].
  repeat (split; [assumption|]).
  split; [|split; [exact Hsc|split; [exact Hpd|split; [|exact Hpass]]]].
  - intros p Hin. unfold taken. rewrite Htk.
    rewrite from_keys_nodup by assumption.
    unfold Dict.get_default. rewrite (dict_get_of_In _ p 0); [reflexivity| |].
    + unfold Dict.keys. rewrite map_map. simpl. now rewrite map_id.
    + apply in_map_iff. now exists p.
  - intros E. destruct (Hhold E) as [Hph Hct]. split; [exact Hph|].
    destruct (two_clubs_dealt hs) as [p [Hf H2]].
    + unfold player_order in Hnd. now rewrite Hk.
    + apply (Permutation_in _ (Permutation_sym Hp)).
      apply (Permutation_in _ (Permutation_sym Hperm)).
      apply mem_In. reflexivity.
    + exists p. rewrite Hct. split; [exact Hf|]. unfold hand_of. now rewrite Hh.
Qed.

(** A use of [start_round_starts]: the fourth round is a hold round. *)
Lemma start_round_starts_witness :
  phase (fst (start_round make_deck
                (set_round_index 3 (HeartsGame four_players)))) = playing.
Proof.
  destruct (start_round_starts make_deck
              (set_round_index 3 (HeartsGame four_players)))
    as (st' & Hrun & _ & _ & _ & _ & _ & _ & _ & _ & _ & Hhold & _).
  - discriminate.
  - repeat constructor; simpl; intuition discriminate.
  - reflexivity.
  - rewrite Hrun. simpl. apply Hhold. reflexivity.
Defined.

(** ** An accepted pass that does not complete the exchange *)

Lemma submit_pass_stored (st : GameState) (pid : string) (cards : list Card) :
  phase st = passing -> length cards = 3%nat ->
  (forall c, In c cards -> In c (hand_of st pid)) ->
  len (Dict.set (pending_pass st) pid cards) < len (players st) ->
  submit_pass pid cards st
  = (set_pending_pass (Dict.set (pending_pass st) pid cards) st, Ok true).
Proof.
  intros Hph Hlen Hin Hfew. unfold submit_pass, bind, get, ret, modify.
  rewrite Hph. apply len_eq_3 in Hlen. rewrite Hlen.
  assert (Ee : existsb (fun card => negb (mem card (Dict.get_default (hands st) pid [])))
                 cards = false).
  { apply not_true_is_false. intros Ee.
    apply existsb_not_mem in Ee. destruct Ee as [c [Hc Hn]].
    apply Hn. now apply Hin. }
  rewrite Ee. apply Z.ltb_lt in Hfew.
  cbn -[len Dict.set Z.ltb]. now rewrite Hfew.
Qed.

(** X15. In the passing phase, a list of three cards that are all in the
    seat's hand is accepted; when seats are still missing after it is stored,
    [submit_pass] returns True and the only change is that the list is the
    seat's pending pass, replacing an earlier one.  The three cards need not
    be distinct. *)
Theorem submit_pass_stores (st : GameState) (pid : string) (cards : list Card) :
  phase st = passing -> length cards = 3%nat ->
  (forall c, In c cards -> In c (hand_of st pid)) ->
  len (Dict.set (pending_pass st) pid cards) < len (players st) ->
  submit_pass pid cards st
  = (set_pending_pass (Dict.set (pending_pass st) pid cards) st, Ok true).
Proof. exact (submit_pass_stored st pid cards). Qed.

(** A use of [submit_pass_stores]: a first pass that names one card twice. *)
Lemma submit_pass_stores_witness :
  snd (submit_pass "a" ["2C"; "2C"; "6C"]
         (fst (start_round make_deck (HeartsGame four_players)))) = Ok true.
Proof.
  rewrite submit_pass_stores; [reflexivity | reflexivity | reflexivity | |].
  - intros c Hc. apply mem_In. simpl in Hc.
    destruct Hc as [<-|[<-|[<-|[]]]]; vm_compute; reflexivity.
  - vm_compute. reflexivity.
Defined.

(** ** Loops that touch the hands only *)

Lemma set_hands_same (st : GameState) : set_hands (hands st) st = st.
Proof. now destruct st. Qed.

Lemma on_hands_update_hand (pid : string) (g : list Card -> res (list Card)) :
  on_hands (update_hand pid g) (hand_update pid g).
Proof.
  intros st. unfold hand_update, update_hand, bind, get, lift, modify.
  destruct (Dict.getitem (hands st) pid) as [h|e]; simpl.
  - destruct (g h) as [h'|e]; simpl; [reflexivity|].
    exists (hands st). now rewrite set_hands_same.
  - exists (hands st). now rewrite set_hands_same.
Qed.

Lemma on_hands_lift_bind {A : Type} (r : res A) (k : A -> M unit)
    (f : A -> Dict.t (list Card) -> res (Dict.t (list Card))) :
  (forall a, on_hands (k a) (f a)) ->
  on_hands (a <~ lift r ;; k a) (fun hs => a <- r ;; f a hs).
Proof.
  intros H st. unfold bind, lift. destruct r as [a|e]; simpl.
  - apply H.
  - exists (hands st). now rewrite set_hands_same.
Qed.

Lemma on_hands_forM_ {A : Type} (l : list A) (body : A -> M unit)
    (f : A -> Dict.t (list Card) -> res (Dict.t (list Card))) :
  (forall x, on_hands (body x) (f x)) ->
  on_hands (forM_ l body) (fun hs => foldM (fun hs x => f x hs) l hs).
Proof.
  intros H. induction l as [|x l IH]; intros st; simpl.
  - unfold ret. now rewrite set_hands_same.
  - unfold bind. specialize (H x st).
    destruct (f x (hands st)) as [hs1|e]; simpl.
    + rewrite H. specialize (IH (set_hands hs1 st)). simpl in IH.
      destruct (foldM (fun hs x => f x hs) l hs1) as [hs2|e].
      * exact IH.
      * destruct IH as [hs' IH]. exists hs'. exact IH.
    + destruct H as [hs' H]. exists hs'. now rewrite H.
Qed.

(** ** Removing the passed cards *)

Lemma list_remove_ok (c : Card) (h h' : list Card) :
  list_remove c h = Ok h' ->
  In c h /\ Permutation h (c :: h') /\ (NoDup h -> NoDup h' /\ ~ In c h').
Proof.
  revert h'. induction h as [|y h IH]; simpl; intros h'; [discriminate|].
  destruct (String.eqb y c) eqn:E.
  - apply String.eqb_eq in E. subst y. intros H. injection H as <-.
    split; [now left|]. split; [reflexivity|].
    intros Hnd. inversion Hnd. now subst.
  - apply String.eqb_neq in E.
    destruct (list_remove c h) as [r|e]; simpl; [|discriminate].
    intros H. injection H as <-.
    destruct (IH r eq_refl) as [Hin [Hp Hnd]].
    split; [now right|]. split.
    + rewrite Hp. apply perm_swap.
    + intros Hnd'. inversion Hnd' as [|? ? Hy Hh]. subst.
      destruct (Hnd Hh) as [Hr Hc]. split.
      * constructor; [|exact Hr]. intros Hyr. apply Hy.
        apply (Permutation_in _ (Permutation_sym Hp)). now right.
      * intros [H|H]; [congruence | contradiction].
Qed.

Lemma list_remove_in (c : Card) (h : list Card) :
  In c h -> exists h', list_remove c h = Ok h'.
Proof.
  induction h as [|y h IH]; simpl; [intros []|].
  destruct (String.eqb y c) eqn:E; [eauto|].
  apply String.eqb_neq in E. intros [H|H]; [congruence|].
  destruct (IH H) as [h' Hh]. rewrite Hh. simpl. eauto.
Qed.

Lemma list_remove_raises (c : Card) (h : list Card) (e : exn) :
  list_remove c h = Raise e -> e = ValueError /\ ~ In c h.
Proof.
  induction h as [|y h IH]; simpl.
  - intros H. injection H as <-. tauto.
  - destruct (String.eqb y c) eqn:E; [discriminate|].
    apply String.eqb_neq in E.
    destruct (list_remove c h) as [r|e']; simpl; [discriminate|].
    intros H. injection H as <-. destruct (IH eq_refl) as [-> Hn].
    split; [reflexivity|]. intros [H|H]; [congruence | contradiction].
Qed.

Lemma remove_all_ok (cards h : list Card) :
  NoDup cards -> incl cards h ->
  exists kept, remove_all cards h = Ok kept /\ Permutation h (cards ++ kept).
Proof.
  revert h. induction cards as [|c cs IH]; intros h Hnd Hincl.
  - exists h. split; reflexivity.
  - inversion Hnd as [|? ? Hc Hcs]. subst.
    destruct (list_remove_in c h) as [h1 H1]; [apply Hincl; now left|].
    destruct (list_remove_ok c h h1 H1) as [_ [Hp _]].
    destruct (IH h1 Hcs) as [kept [Hk Hpk]].
    + intros x Hx.
      assert (Hxh : In x (c :: h1)).
      { apply (Permutation_in _ Hp). apply Hincl. now right. }
      destruct Hxh as [<-|Hxh]; [contradiction | exact Hxh].
    + exists kept. unfold remove_all in *. simpl. rewrite H1. simpl.
      split; [exact Hk|]. rewrite Hp. simpl. now apply perm_skip.
Qed.

Lemma remove_all_nodup (cards h kept : list Card) :
  NoDup h -> remove_all cards h = Ok kept -> NoDup cards /\ NoDup kept.
Proof.
  revert h. induction cards as [|c cs IH]; intros h Hnd H.
  - injection H as <-. split; [constructor | exact Hnd].
  - unfold remove_all in *. simpl in H.
    destruct (list_remove c h) as [h1|e] eqn:E1; simpl in H; [|discriminate].
    destruct (list_remove_ok c h h1 E1) as [_ [_ Hn]].
    destruct (Hn Hnd) as [Hnd1 Hc1].
    destruct (IH h1 Hnd1 H) as [Hcs Hk]. split; [|exact Hk].
    constructor; [|exact Hcs]. intros Hc. apply Hc1.
    (* a card removed later was still in the hand *)
    clear - Hc H. revert h1 H. induction cs as [|x cs IHcs]; intros h1 H;
      [destruct Hc|].
    simpl in H. destruct (list_remove x h1) as [h2|e] eqn:E2; simpl in H;
      [|discriminate].
    destruct (list_remove_ok x h1 h2 E2) as [Hx [Hp _]].
    destruct Hc as [->|Hc]; [exact Hx|].
    apply (Permutation_in _ (Permutation_sym Hp)). right.
    now apply (IHcs Hc h2).
Qed.

Lemma remove_all_raises (cards h : list Card) (e : exn) :
  remove_all cards h = Raise e -> e = ValueError.
Proof.
  revert h. induction cards as [|c cs IH]; intros h; [discriminate|].
  unfold remove_all in *. simpl.
  destruct (list_remove c h) as [h1|e1] eqn:E1; simpl.
  - apply IH.
  - intros H. injection H as <-. now apply (list_remove_raises c h).
Qed.

Lemma dict_set_get_same {V : Type} (d : Dict.t V) (k : string) (v : V) :
  Dict.get d k = Some v -> Dict.set d k v = d.
Proof.
  induction d as [|[k0 v0] d IH]; simpl; [discriminate|].
  destruct (String.eqb k0 k) eqn:E.
  - apply String.eqb_eq in E. subst k0. intros H. now injection H as ->.
  - intros H. now rewrite IH.
Qed.

Lemma dict_set_set {V : Type} (d : Dict.t V) (k : string) (v v' : V) :
  Dict.set (Dict.set d k v) k v' = Dict.set d k v'.
Proof.
  induction d as [|[k0 v0] d IH]; simpl.
  - now rewrite String.eqb_refl.
  - destruct (String.eqb k0 k) eqn:E; simpl.
    + now rewrite String.eqb_refl.
    + now rewrite E, IH.
Qed.

(** The inner loop of the removal is one update of the seat's hand. *)
Lemma remove_inner (hs : Dict.t (list Card)) (pid : string) (cards h : list Card) :
  Dict.get hs pid = Some h ->
  foldM (fun hs c => hand_update pid (list_remove c) hs) cards hs
  = hand_update pid (remove_all cards) hs.
Proof.
  revert hs h. induction cards as [|c cs IH]; intros hs h Hg.
  - unfold hand_update, Dict.getitem, remove_all. rewrite Hg. simpl.
    now rewrite dict_set_get_same.
  - simpl. unfold hand_update at 1. unfold Dict.getitem. rewrite Hg. cbn [rbind].
    destruct (list_remove c h) as [h1|e] eqn:E1; cbn [rbind].
    + rewrite (IH _ h1) by apply dict_get_set_same.
      unfold hand_update, Dict.getitem, remove_all.
      rewrite dict_get_set_same, Hg. simpl. rewrite E1. simpl.
      destruct (foldM (fun h c => list_remove c h) cs h1); simpl; [|reflexivity].
      now rewrite dict_set_set.
    + unfold hand_update, Dict.getitem, remove_all. rewrite Hg. simpl.
      now rewrite E1.
Qed.

(** A loop that updates the hands at distinct seats, one seat per item. *)
Lemma items_update_loop {A : Type} (l : list A) (key : A -> string)
    (body : A -> Dict.t (list Card) -> res (Dict.t (list Card)))
    (G : A -> list Card -> list Card) (hs : Dict.t (list Card)) :
  NoDup (map key l) ->
  (forall x, In x l -> In (key x) (Dict.keys hs)) ->
  (forall x hs' h, In x l ->
     Dict.get hs (key x) = Some h -> Dict.get hs' (key x) = Some h ->
     body x hs' = Ok (Dict.set hs' (key x) (G x h))) ->
  exists hs',
    foldM (fun hs x => body x hs) l hs = Ok hs' /\
    Dict.keys hs' = Dict.keys hs /\
    (forall x h, In x l -> Dict.get hs (key x) = Some h ->
       Dict.get hs' (key x) = Some (G x h)) /\
    (forall k, ~ In k (map key l) -> Dict.get hs' k = Dict.get hs k).
Proof.
  revert hs. induction l as [|x l IH]; intros hs Hnd Hin Hbody.
  - exists hs. simpl. repeat split; auto. intros x h [].
  - inversion Hnd as [|? ? Hx Hnd']. subst.
    destruct (dict_getitem_In hs (key x) (Hin x (or_introl eq_refl))) as [h [_ Hg]].
    simpl. rewrite (Hbody x hs h (or_introl eq_refl) Hg Hg). cbn [rbind].
    set (hs1 := Dict.set hs (key x) (G x h)).
    assert (Hother : forall y, In y l -> Dict.get hs1 (key y) = Dict.get hs (key y)).
    { intros y Hy. unfold hs1. apply dict_get_set_other.
      intros E. apply Hx. rewrite E. now apply in_map. }
    destruct (IH hs1 Hnd') as [hs' [Hrun [Hk [Hup Hrest]]]].
    + intros y Hy. unfold hs1. rewrite dict_keys_set_in.
      * apply Hin. now right.
      * apply Hin. now left.
    + intros y hs2 hy Hy Hg1 Hg2. rewrite (Hother y Hy) in Hg1.
      apply Hbody; [now right | exact Hg1 | exact Hg2].
    + exists hs'. split; [exact Hrun|]. split; [|split].
      * rewrite Hk. unfold hs1. apply dict_keys_set_in. apply Hin. now left.
      * intros y hy [<-|Hy] Hgy.
        -- rewrite Hrest by exact Hx. unfold hs1.
           rewrite dict_get_set_same. congruence.
        -- apply Hup; [exact Hy|]. now rewrite (Hother y Hy).
      * intros k Hk'. simpl in Hk'. rewrite Hrest by tauto.
        unfold hs1. apply dict_get_set_other. tauto.
Qed.

(** The removal loop raises as soon as one pending list repeats a card. *)
Lemma removal_raises (pending hs : Dict.t (list Card)) :
  (forall pp, In pp pending -> In (fst pp) (Dict.keys hs)) ->
  (forall p h, Dict.get hs p = Some h -> NoDup h) ->
  (exists pp, In pp pending /\ ~ NoDup (snd pp)) ->
  foldM (fun hs (pp : string * list Card) =>
           foldM (fun hs c => hand_update (fst pp) (list_remove c) hs) (snd pp) hs)
        pending hs
  = Raise ValueError.
Proof.
  revert hs. induction pending as [|pp pending IH]; intros hs Hkeys Hnd Hbad.
  - destruct Hbad as [pp [[] _]].
  - destruct (dict_getitem_In hs (fst pp) (Hkeys pp (or_introl eq_refl)))
      as [h [Hgi Hg]].
    simpl. rewrite (remove_inner hs (fst pp) (snd pp) h Hg).
    unfold hand_update. rewrite Hgi. cbn [rbind].
    destruct (remove_all (snd pp) h) as [kept|e] eqn:Er; cbn [rbind].
    + destruct (remove_all_nodup (snd pp) h kept (Hnd _ _ Hg) Er) as [Hc Hk].
      apply IH.
      * intros qq Hq. rewrite dict_keys_set_in by (apply Hkeys; now left).
        apply Hkeys. now right.
      * intros p hp Hp. destruct (String.eqb (fst pp) p) eqn:E.
        -- apply String.eqb_eq in E. subst p.
           rewrite dict_get_set_same in Hp. now injection Hp as <-.
        -- apply String.eqb_neq in E. rewrite dict_get_set_other in Hp by exact E.
           now apply (Hnd p).
      * destruct Hbad as [qq [[<-|Hq] Hn]]; [contradiction|]. now exists qq.
    + now rewrite (remove_all_raises _ _ _ Er).
Qed.

(** ** A pass that repeats a card *)

Lemma distinct_NoDup (l : list string) : distinct l = true -> NoDup l.
Proof.
  induction l as [|x l IH]; simpl; intros H; [constructor|].
  apply andb_true_iff in H. destruct H as [H1 H2].
  constructor; [|now apply IH].
  apply mem_false. now apply negb_true_iff.
Qed.

Lemma removal_on_hands (pending : Dict.t (list Card)) :
  on_hands
    (forM_ (Dict.items pending) (fun pp =>
       forM_ (snd pp) (fun card => update_hand (fst pp) (list_remove card))))
    (fun hs =>
       foldM (fun hs (pp : string * list Card) =>
                foldM (fun hs c => hand_update (fst pp) (list_remove c) hs)
                      (snd pp) hs)
             pending hs).
Proof.
  apply (on_hands_forM_ pending _
           (fun pp hs => foldM (fun hs c => hand_update (fst pp) (list_remove c) hs)
                               (snd pp) hs)).
  intros pp.
  apply (on_hands_forM_ (snd pp) _ (fun c => hand_update (fst pp) (list_remove c))).
  intros c. apply on_hands_update_hand.
Qed.

Lemma exchange_raises (st : GameState) :
  NoDup (player_order st) ->
  (forall q l, In (q, l) (pending_pass st) -> In q (Dict.keys (hands st))) ->
  (forall p h, In (p, h) (hands st) -> NoDup h) ->
  (exists q l, In (q, l) (pending_pass st) /\ ~ NoDup l) ->
  exists hs', exchange_passes st = (set_hands hs' st, Raise ValueError).
Proof.
  intros Hnd Hkeys Hhands Hbad.
  destruct (pass_map_spec (players st) (pass_dir st) Hnd) as [mapping [Hmap _]].
  unfold exchange_passes, bind, get, lift. rewrite Hmap.
  pose proof (removal_on_hands (pending_pass st) st) as H.
  rewrite removal_raises in H.
  - destruct H as [hs' H]. exists hs'. now rewrite H.
  - intros [q l] Hq. now apply (Hkeys q l).
  - intros p h Hg. apply (Hhands p h). now apply dict_In_of_get.
  - destruct Hbad as [q [l [Hq Hl]]]. now exists (q, l).
Qed.

Lemma dict_set_In {V : Type} (d : Dict.t V) (k k' : string) (v v' : V) :
  In (k', v') (Dict.set d k v) -> (k' = k /\ v' = v) \/ In (k', v') d.
Proof.
  induction d as [|[k0 v0] d IH]; simpl.
  - intros [H|[]]. left. inversion H. now subst.
  - destruct (String.eqb k0 k); simpl.
    + intros [H|H]; [left; inversion H; now subst | tauto].
    + intros [H|H]; [tauto | destruct (IH H); tauto].
Qed.

(** X16. [submit_pass] does not check that the three cards are distinct.
    When the pass that completes the set of pending passes is submitted, and
    some pending list (this one or an earlier one) names a card twice while
    no hand holds a card twice, the exchange raises ValueError: the call
    does not return, the phase is still passing, and the pending passes,
    including the one just stored, are still pending. *)
Theorem submit_pass_repeated_card (st : GameState) (pid : string)
    (cards : list Card) :
  phase st = passing -> length cards = 3%nat ->
  (forall c, In c cards -> In c (hand_of st pid)) ->
  len (players st) <= len (Dict.set (pending_pass st) pid cards) ->
  NoDup (player_order st) ->
  (forall q l, In (q, l) (pending_pass st) -> In q (Dict.keys (hands st))) ->
  (forall p h, In (p, h) (hands st) -> NoDup h) ->
  (exists q l, In (q, l) (Dict.set (pending_pass st) pid cards) /\ ~ NoDup l) ->
  exists hs',
    submit_pass pid cards st
    = (set_hands hs' (set_pending_pass (Dict.set (pending_pass st) pid cards) st),
       Raise ValueError).
Proof.
  intros Hph Hlen Hin Hfull Hnd Hkeys Hhands Hbad.
  assert (Hpid : In pid (Dict.keys (hands st))).
  { destruct cards as [|c cards]; [discriminate|].
    specialize (Hin c (or_introl eq_refl)). unfold hand_of, Dict.get_default in Hin.
    apply dict_get_In. destruct (Dict.get (hands st) pid) as [h|]; [eauto|].
    destruct Hin. }
  destruct (exchange_raises
              (set_pending_pass (Dict.set (pending_pass st) pid cards) st))
    as [hs' Hex].
  - exact Hnd.
  - intros q l Hq. cbn [pending_pass set_pending_pass hands] in *.
    apply dict_set_In in Hq. destruct Hq as [[-> _]|Hq]; [exact Hpid|].
    now apply (Hkeys q l).
  - exact Hhands.
  - exact Hbad.
  - exists hs'.
    unfold submit_pass, bind, get, ret, modify.
    rewrite Hph. apply len_eq_3 in Hlen. rewrite Hlen.
    assert (Ee : existsb (fun card =>
                   negb (mem card (Dict.get_default (hands st) pid []))) cards
                 = false).
    { apply not_true_is_false. intros Ee.
      apply existsb_not_mem in Ee. destruct Ee as [c [Hc Hn]].
      apply Hn. now apply Hin. }
    rewrite Ee.
    assert (Hge : (len (Dict.set (pending_pass st) pid cards) <? len (players st))
                  = false) by (apply Z.ltb_ge; exact Hfull).
    cbn -[len Dict.set Z.ltb exchange_passes]. rewrite Hge.
    now rewrite Hex.
Qed.

(** A use of [submit_pass_repeated_card]: the fourth seat passes 2C twice. *)
Lemma submit_pass_repeated_card_witness :
  snd (submit_pass "a" ["2C"; "2C"; "6C"] three_passed) = Raise ValueError.
Proof.
  destruct (submit_pass_repeated_card three_passed "a" ["2C"; "2C"; "6C"])
    as [hs' H].
  - vm_compute. reflexivity.
  - reflexivity.
  - intros c Hc. apply (proj1 (mem_In c (hand_of three_passed "a"))). simpl in Hc.
    destruct Hc as [<-|[<-|[<-|[]]]]; vm_compute; reflexivity.
  - vm_compute. discriminate.
  - apply distinct_NoDup. vm_compute. reflexivity.
  - intros q l Hq. apply (proj1 (mem_In q (Dict.keys (hands three_passed)))).
    vm_compute in Hq.
    destruct Hq as [E|[E|[E|[]]]]; inversion E; vm_compute; reflexivity.
  - intros p h Hp. apply distinct_NoDup. vm_compute in Hp.
    destruct Hp as [E|[E|[E|[E|[]]]]]; inversion E; vm_compute; reflexivity.
  - exists "a", ["2C"; "2C"; "6C"]. split.
    + apply (dict_In_of_get _ "a"). vm_compute. reflexivity.
    + intros Hn. inversion Hn as [|? ? Hx _]. apply Hx. now left.
  - now rewrite H.
Defined.

(** ** The pass exchange *)

Lemma removal_result (pending hs : Dict.t (list Card)) :
  NoDup (Dict.keys pending) ->
  (forall q l, In (q, l) pending -> In q (Dict.keys hs)) ->
  (forall q l h, In (q, l) pending -> Dict.get hs q = Some h ->
     NoDup l /\ incl l h) ->
  exists hs1,
    removal_loop pending hs = Ok hs1 /\
    Dict.keys hs1 = Dict.keys hs /\
    (forall q l h, In (q, l) pending -> Dict.get hs q = Some h ->
       exists kept, Dict.get hs1 q = Some kept /\ Permutation h (l ++ kept)) /\
    (forall k, ~ In k (Dict.keys pending) -> Dict.get hs1 k = Dict.get hs k).
Proof.
  intros Hnd Hkeys Hcards.
  set (G := fun (x : string * list Card) (h : list Card) =>
              match remove_all (snd x) h with Ok k => k | Raise _ => h end).
  assert (HG : forall q l h, In (q, l) pending -> Dict.get hs q = Some h ->
                 remove_all l h = Ok (G (q, l) h) /\
                 Permutation h (l ++ G (q, l) h)).
  { intros q l h Hin Hg. destruct (Hcards q l h Hin Hg) as [Hl Hi].
    destruct (remove_all_ok l h Hl Hi) as [kept [Hr Hp]].
    unfold G. simpl. rewrite Hr. split; [reflexivity | exact Hp]. }
  destruct (items_update_loop pending fst
              (fun x hs => foldM (fun hs c => hand_update (fst x) (list_remove c) hs)
                                 (snd x) hs)
              G hs Hnd) as [hs1 [Hrun [Hk [Hup Hrest]]]].
  - intros [q l] Hin. now apply (Hkeys q l).
  - intros [q l] hs' h Hin Hg Hg'. simpl in *.
    rewrite (remove_inner hs' q l h Hg').
    unfold hand_update, Dict.getitem. rewrite Hg'. cbn [rbind].
    destruct (HG q l h Hin Hg) as [Hr _]. now rewrite Hr.
  - exists hs1. split; [exact Hrun|]. split; [exact Hk|]. split; [|exact Hrest].
    intros q l h Hin Hg. exists (G (q, l) h). split.
    + apply (Hup (q, l) h Hin Hg).
    + now apply HG.
Qed.

Lemma extend_result (mapping : Dict.t string) (pending hs1 : Dict.t (list Card)) :
  NoDup (Dict.keys pending) ->
  (forall q l, In (q, l) pending ->
     exists t, Dict.get mapping q = Some t /\ In t (Dict.keys hs1)) ->
  (forall p q t, Dict.get mapping p = Some t -> Dict.get mapping q = Some t ->
     p = q) ->
  exists hs2,
    extend_loop mapping pending hs1 = Ok hs2 /\
    Dict.keys hs2 = Dict.keys hs1 /\
    (forall q l t h, In (q, l) pending -> Dict.get mapping q = Some t ->
       Dict.get hs1 t = Some h -> Dict.get hs2 t = Some (h ++ l)) /\
    (forall k, (forall q l, In (q, l) pending -> Dict.get mapping q <> Some k) ->
       Dict.get hs2 k = Dict.get hs1 k).
Proof.
  intros Hnd Htgt Hinj.
  set (key := fun x : string * list Card => Dict.get_default mapping (fst x) "").
  assert (Hkey : forall q l t, Dict.get mapping q = Some t -> key (q, l) = t).
  { intros q l t H. unfold key, Dict.get_default. simpl. now rewrite H. }
  assert (Hndk : NoDup (map key pending)).
  { clear - Hnd Htgt Hinj Hkey. induction pending as [|[q l] pending IH]; simpl.
    - constructor.
    - inversion Hnd as [|? ? Hq Hnd']. subst. constructor.
      + intros Hin. apply in_map_iff in Hin. destruct Hin as [[q' l'] [E Hin']].
        destruct (Htgt q l (or_introl eq_refl)) as [t [Ht _]].
        destruct (Htgt q' l' (or_intror Hin')) as [t' [Ht' _]].
        rewrite (Hkey q l t Ht), (Hkey q' l' t' Ht') in E. subst t'.
        apply Hq. rewrite (Hinj q q' t Ht Ht').
        change q' with (fst (q', l')). now apply in_map.
      + apply IH; [exact Hnd'|]. intros q' l' Hin'. apply (Htgt q' l'). now right. }
  destruct (items_update_loop pending key
              (fun x hs => target <- Dict.getitem mapping (fst x) ;;
                           hand_update target (fun h => Ok (h ++ snd x)) hs)
              (fun x h => h ++ snd x) hs1 Hndk) as [hs2 [Hrun [Hk [Hup Hrest]]]].
  - intros [q l] Hin. destruct (Htgt q l Hin) as [t [Ht Hin']].
    now rewrite (Hkey q l t Ht).
  - intros [q l] hs' h Hin Hg Hg'. destruct (Htgt q l Hin) as [t [Ht _]].
    rewrite (Hkey q l t Ht) in *. simpl.
    unfold Dict.getitem at 1. rewrite Ht. cbn [rbind].
    unfold hand_update, Dict.getitem. now rewrite Hg'.
  - exists hs2. split; [exact Hrun|]. split; [exact Hk|]. split.
    + intros q l t h Hin Ht Hg. specialize (Hup (q, l) h Hin).
      rewrite (Hkey q l t Ht) in Hup. now apply Hup.
    + intros k Hno. apply Hrest. intros Hin. apply in_map_iff in Hin.
      destruct Hin as [[q l] [E Hin]]. destruct (Htgt q l Hin) as [t [Ht _]].
      rewrite (Hkey q l t Ht) in E. subst t. now apply (Hno q l).
Qed.

Lemma sort_result (hs2 : Dict.t (list Card)) :
  NoDup (Dict.keys hs2) ->
  (forall k v, Dict.get hs2 k = Some v -> Forall deck_card v) ->
  exists hs3,
    sort_loop hs2 = Ok hs3 /\
    Dict.keys hs3 = Dict.keys hs2 /\
    (forall k v, Dict.get hs2 k = Some v ->
       exists s, Dict.get hs3 k = Some s /\ Permutation s v /\ hand_sorted s).
Proof.
  intros Hnd Hdeck.
  set (G := fun h : list Card =>
              match sort_hand h with Ok s => s | Raise _ => h end).
  assert (HG : forall k v, Dict.get hs2 k = Some v -> sort_hand v = Ok (G v)).
  { intros k v Hg. destruct (sort_hand_returns v (Hdeck k v Hg)) as [s Hs].
    unfold G. now rewrite Hs. }
  exists (dict_map_at (Dict.keys hs2) G hs2). split; [|split].
  - unfold sort_loop, hand_update.
    apply (dict_update_loop sort_hand G (Dict.keys hs2) hs2 Hnd Hnd (incl_refl _)).
    intros k v _. apply HG.
  - apply dict_map_at_keys.
  - intros k v Hg. exists (G v). split.
    + rewrite dict_map_at_get, Hg. simpl.
      assert (Em : mem k (Dict.keys hs2) = true).
      { apply mem_In, dict_get_In. eauto. }
      now rewrite Em.
    + apply sort_hand_result. now apply (HG k).
Qed.

Lemma bind_run {A B : Type} (m : M A) (k : A -> M B) (st st1 : GameState) (a : A) :
  m st = (st1, Ok a) -> bind m k st = k a st1.
Proof. intros H. unfold bind. now rewrite H. Qed.

Lemma extend_on_hands (mapping : Dict.t string) (pending : Dict.t (list Card)) :
  on_hands
    (forM_ (Dict.items pending) (fun pp =>
       target <~ lift (Dict.getitem mapping (fst pp)) ;;
       update_hand target (fun h => Ok (h ++ snd pp))))
    (extend_loop mapping pending).
Proof.
  apply (on_hands_forM_ pending _
           (fun pp hs => target <- Dict.getitem mapping (fst pp) ;;
                         hand_update target (fun h => Ok (h ++ snd pp)) hs)).
  intros pp.
  apply (on_hands_lift_bind _ _
           (fun target => hand_update target (fun h => Ok (h ++ snd pp)))).
  intros target. apply on_hands_update_hand.
Qed.

Lemma sort_on_hands (ks : list string) :
  on_hands (forM_ ks (fun pid => update_hand pid sort_hand))
           (fun hs => foldM (fun hs pid => hand_update pid sort_hand hs) ks hs).
Proof.
  apply (on_hands_forM_ ks _ (fun pid => hand_update pid sort_hand)).
  intros pid. apply on_hands_update_hand.
Qed.

(** The exchange, once its three loops are known to return. *)
Lemma exchange_run (st : GameState) (mapping : Dict.t string)
    (hs1 hs2 hs3 : Dict.t (list Card)) :
  pass_map (players st) (pass_dir st) = Ok mapping ->
  removal_loop (pending_pass st) (hands st) = Ok hs1 ->
  extend_loop mapping (pending_pass st) hs1 = Ok hs2 ->
  sort_loop hs2 = Ok hs3 ->
  exchange_passes st
  = (set_current_turn (find_two_clubs_player hs3)
       (set_phase playing (set_pending_pass [] (set_hands hs3 st))), Ok tt).
Proof.
  intros Hmap Hrem Hext Hsort.
  pose proof (removal_on_hands (pending_pass st) st) as H1.
  cbv beta in H1. unfold removal_loop in Hrem. rewrite Hrem in H1.
  pose proof (extend_on_hands mapping (pending_pass st) (set_hands hs1 st)) as H2.
  cbn [hands set_hands] in H2. rewrite Hext in H2.
  pose proof (sort_on_hands (Dict.keys hs2) (set_hands hs2 (set_hands hs1 st)))
    as H3.
  cbv beta in H3. cbn [hands set_hands] in H3.
  unfold sort_loop in Hsort. rewrite Hsort in H3.
  unfold exchange_passes.
  erewrite bind_run by reflexivity.
  erewrite bind_run by (unfold lift; rewrite Hmap; reflexivity).
  erewrite bind_run by exact H1.
  erewrite bind_run by exact H2.
  erewrite bind_run by reflexivity.
  cbn [hands set_hands].
  erewrite bind_run by exact H3.
  reflexivity.
Qed.

Lemma pass_map_seats (players : list PlayerState) (d : Z) (mapping : Dict.t string) :
  NoDup (map id players) -> pass_map players d = Ok mapping ->
  Dict.keys mapping = map id players /\
  (forall q t, Dict.get mapping q = Some t -> In t (map id players)) /\
  (forall p q t, Dict.get mapping p = Some t -> Dict.get mapping q = Some t ->
     p = q).
Proof.
  intros Hnd Hmap.
  destruct (pass_map_spec players d Hnd) as [m [Hm [Hk [Ht Hinj]]]].
  rewrite Hm in Hmap. injection Hmap as <-.
  split; [exact Hk|]. split; [|exact Hinj].
  intros q t Hg.
  assert (Hq : In q (map id players)).
  { rewrite <- Hk. apply dict_get_In. eauto. }
  destruct (In_nth_error _ _ Hq) as [i Hi].
  destruct (Ht i q Hi) as [t' [Hg' [HL [HR [HA HO]]]]].
  assert (t' = t) by congruence. subst t'.
  destruct (Z.eq_dec d PASS_LEFT) as [E0|E0];
    [|destruct (Z.eq_dec d PASS_RIGHT) as [E1|E1];
      [|destruct (Z.eq_dec d PASS_ACROSS) as [E2|E2]]].
  - eapply nth_error_In. exact (HL E0).
  - eapply nth_error_In. exact (HR E1).
  - eapply nth_error_In. exact (HA E2).
  - now rewrite (HO E0 E1 E2).
Qed.

(** [submit_pass] once the card list is accepted and no seat is missing. *)
Lemma submit_pass_fires (st : GameState) (pid : string) (cards : list Card) :
  phase st = passing -> length cards = 3%nat ->
  (forall c, In c cards -> In c (hand_of st pid)) ->
  len (players st) <= len (Dict.set (pending_pass st) pid cards) ->
  submit_pass pid cards st
  = (exchange_passes ;;; ret true)
      (set_pending_pass (Dict.set (pending_pass st) pid cards) st).
Proof.
  intros Hph Hlen Hin Hfull.
  unfold submit_pass.
  erewrite bind_run by reflexivity.
  rewrite Hph. apply len_eq_3 in Hlen. rewrite Hlen.
  assert (Ee : existsb (fun card =>
                 negb (mem card (Dict.get_default (hands st) pid []))) cards
               = false).
  { apply not_true_is_false. intros Ee.
    apply existsb_not_mem in Ee. destruct Ee as [c [Hc Hn]].
    apply Hn. now apply Hin. }
  rewrite Ee. cbn [phase_eqb negb].
  erewrite bind_run by reflexivity.
  erewrite bind_run by reflexivity.
  cbn [pending_pass players set_pending_pass].
  assert (Hge : (len (Dict.set (pending_pass st) pid cards) <? len (players st))
                = false) by (apply Z.ltb_ge; exact Hfull).
  now rewrite Hge.
Qed.

Lemma target_dec (mapping : Dict.t string) (pending : Dict.t (list Card))
    (k : string) :
  (exists q l, In (q, l) pending /\ Dict.get mapping q = Some k) \/
  (forall q l, In (q, l) pending -> Dict.get mapping q <> Some k).
Proof.
  induction pending as [|[q l] pending IH].
  - right. intros q l [].
  - destruct IH as [[q' [l' [Hin Hg]]]|IH].
    + left. exists q', l'. split; [now right | exact Hg].
    + destruct (Dict.get mapping q) as [t|] eqn:Eg.
      * destruct (string_dec t k) as [->|Hne].
        -- left. exists q, l. split; [now left | exact Eg].
        -- right. intros q' l' [H|H].
           ++ inversion H. subst. rewrite Eg. congruence.
           ++ now apply (IH q' l').
      * right. intros q' l' [H|H].
        -- inversion H. subst. rewrite Eg. discriminate.
        -- now apply (IH q' l').
Qed.

Lemma dict_keys_In {V : Type} (d : Dict.t V) (k : string) :
  In k (Dict.keys d) <-> exists v, In (k, v) d.
Proof.
  unfold Dict.keys. rewrite in_map_iff. split.
  - intros [[k' v] [E H]]. simpl in E. subst. eauto.
  - intros [v H]. now exists (k, v).
Qed.

(** X17. The pass that completes the exchange.  In the passing phase, with
    seats of distinct ids that all hold a hand of deck cards, when the
    accepted list is stored and every seat then has a pending pass of
    distinct cards of its own hand, [submit_pass] returns True, the phase is
    playing, the pending passes are cleared, the scores are untouched and the
    seat to move is the one [find_two_clubs_player] finds in the new hands.
    Every seat [p] that receives from seat [q] under [pass_map] ends with its
    old hand without the cards it passed, together with the cards [q]
    passed, in sorted order. *)
Theorem submit_pass_exchanges (st : GameState) (pid : string) (cards : list Card) :
  phase st = passing -> length cards = 3%nat ->
  (forall c, In c cards -> In c (hand_of st pid)) ->
  NoDup (player_order st) ->
  Dict.keys (hands st) = player_order st ->
  Permutation (Dict.keys (Dict.set (pending_pass st) pid cards)) (player_order st) ->
  (forall q l, In (q, l) (Dict.set (pending_pass st) pid cards) ->
     NoDup l /\ incl l (hand_of st q)) ->
  (forall p h, In (p, h) (hands st) -> Forall deck_card h) ->
  exists (st' : GameState) (mapping : Dict.t string),
    submit_pass pid cards st = (st', Ok true) /\
    pass_map (players st) (pass_dir st) = Ok mapping /\
    phase st' = playing /\ pending_pass st' = [] /\
    current_turn st' = find_two_clubs_player (hands st') /\
    Dict.keys (hands st') = player_order st /\
    scores st' = scores st /\
    (forall q p out inc,
       Dict.get mapping q = Some p ->
       In (p, out) (Dict.set (pending_pass st) pid cards) ->
       In (q, inc) (Dict.set (pending_pass st) pid cards) ->
       exists kept,
         Permutation (hand_of st p) (out ++ kept) /\
         Permutation (hand_of st' p) (kept ++ inc) /\
         hand_sorted (hand_of st' p)).
Proof.
  intros Hph Hlen Hin Hnd Hkh Hperm Hvalid Hdeck.
  set (pp := Dict.set (pending_pass st) pid cards) in *.
  assert (Hndpp : NoDup (Dict.keys pp)).
  { apply (Permutation_NoDup (Permutation_sym Hperm) Hnd). }
  assert (Hseat : forall q l, In (q, l) pp -> In q (player_order st)).
  { intros q l Hq. apply (Permutation_in _ Hperm). apply dict_keys_In. eauto. }
  assert (Hhand : forall q, In q (player_order st) ->
                    exists h, Dict.get (hands st) q = Some h /\ hand_of st q = h).
  { intros q Hq. rewrite <- Hkh in Hq. apply dict_get_In in Hq.
    destruct Hq as [h Hg]. exists h. split; [exact Hg|].
    unfold hand_of, Dict.get_default. now rewrite Hg. }
  assert (Hcards : forall k h, Dict.get (hands st) k = Some h -> Forall deck_card h).
  { intros k h Hg. apply (Hdeck k h). now apply dict_In_of_get. }
  (* the mapping *)
  destruct (pass_map_spec (players st) (pass_dir st) Hnd) as [mapping [Hmap _]].
  destruct (pass_map_seats (players st) (pass_dir st) mapping Hnd Hmap)
    as [Hkm [Htin Hinj]].
  (* the three loops *)
  destruct (removal_result pp (hands st) Hndpp) as [hs1 [Hrem [Hk1 [Hkept Hrest1]]]].
  { intros q l Hq. rewrite Hkh. now apply (Hseat q l). }
  { intros q l h Hq Hg. destruct (Hvalid q l Hq) as [Hl Hi]. split; [exact Hl|].
    unfold hand_of, Dict.get_default in Hi. now rewrite Hg in Hi. }
  destruct (extend_result mapping pp hs1 Hndpp) as [hs2 [Hext [Hk2 [Hadd Hrest2]]]].
  { intros q l Hq.
    assert (Hqm : In q (Dict.keys mapping)).
    { rewrite Hkm. now apply (Hseat q l). }
    apply dict_get_In in Hqm. destruct Hqm as [t Ht]. exists t.
    split; [exact Ht|]. rewrite Hk1, Hkh. now apply (Htin q t). }
  { exact Hinj. }
  assert (Hv1 : forall k, In k (player_order st) ->
            exists l h kept, In (k, l) pp /\ Dict.get (hands st) k = Some h /\
              Dict.get hs1 k = Some kept /\ Permutation h (l ++ kept)).
  { intros k Hk.
    assert (Hkp : In k (Dict.keys pp)).
    { apply (Permutation_in _ (Permutation_sym Hperm) Hk). }
    apply dict_keys_In in Hkp. destruct Hkp as [l Hl].
    destruct (Hhand k Hk) as [h [Hg _]].
    destruct (Hkept k l h Hl Hg) as [kept [Hg1 Hp]].
    exists l, h, kept. tauto. }
  assert (Hsub : forall (a b : list Card), Forall deck_card a ->
            (forall c, In c b -> In c a) -> Forall deck_card b).
  { intros a b Ha Hb. apply Forall_forall. intros c Hc.
    rewrite Forall_forall in Ha. auto. }
  destruct (sort_result hs2) as [hs3 [Hsort [Hk3 Hsorted]]].
  { now rewrite Hk2, Hk1, Hkh. }
  { intros k v Hg2.
    assert (Hk : In k (player_order st)).
    { rewrite <- Hkh, <- Hk1, <- Hk2. apply dict_get_In. eauto. }
    destruct (Hv1 k Hk) as [l [h [kept [Hl [Hg [Hg1 Hp]]]]]].
    assert (Hkd : Forall deck_card kept).
    { apply (Hsub h); [now apply (Hcards k)|].
      intros c Hc. apply (Permutation_in _ (Permutation_sym Hp)).
      apply in_or_app. now right. }
    destruct (target_dec mapping pp k) as [[q [lq [Hq Hgq]]]|Hno].
    - rewrite (Hadd q lq k kept Hq Hgq Hg1) in Hg2. injection Hg2 as <-.
      apply Forall_app. split; [exact Hkd|].
      destruct (Hhand q (Hseat q lq Hq)) as [hq [Hgh Hhq]].
      destruct (Hvalid q lq Hq) as [_ Hi]. rewrite Hhq in Hi.
      apply (Hsub hq); [now apply (Hcards q) | exact Hi].
    - rewrite (Hrest2 k Hno), Hg1 in Hg2. now injection Hg2 as <-. }
  (* the run *)
  set (st1 := set_pending_pass pp st).
  assert (Hrun : exchange_passes st1
            = (set_current_turn (find_two_clubs_player hs3)
                 (set_phase playing (set_pending_pass [] (set_hands hs3 st1))),
               Ok tt)).
  { apply (exchange_run st1 mapping hs1 hs2 hs3); assumption. }
  exists (set_current_turn (find_two_clubs_player hs3)
            (set_phase playing (set_pending_pass [] (set_hands hs3 st1)))), mapping.
  split.
  { rewrite submit_pass_fires; try assumption.
    - fold pp. fold st1. erewrite bind_run by exact Hrun. reflexivity.
    - fold pp. unfold len.
      rewrite <- (length_map fst pp). fold (Dict.keys pp).
      rewrite (Permutation_length Hperm). unfold player_order.
      rewrite length_map. lia. }
  split; [exact Hmap|].
  split; [reflexivity|]. split; [reflexivity|]. split; [reflexivity|].
  split; [cbn [hands set_current_turn set_phase set_pending_pass set_hands];
          now rewrite Hk3, Hk2, Hk1|].
  split; [reflexivity|].
  intros q p out inc Hgq Hp Hq.
  destruct (Hhand p (Hseat p out Hp)) as [h [Hg Hh]].
  destruct (Hkept p out h Hp Hg) as [kept [Hg1 Hpk]].
  pose proof (Hadd q inc p kept Hq Hgq Hg1) as Hg2.
  destruct (Hsorted p (kept ++ inc) Hg2) as [s [Hg3 [Hps Hss]]].
  exists kept. rewrite Hh.
  assert (Hh' : hand_of (set_current_turn (find_two_clubs_player hs3)
                  (set_phase playing (set_pending_pass [] (set_hands hs3 st1)))) p
                = s).
  { unfold hand_of, Dict.get_default.
    cbn [hands set_current_turn set_phase set_pending_pass set_hands].
    now rewrite Hg3. }
  rewrite Hh'. tauto.
Qed.

(** A use of [submit_pass_exchanges]: the fourth seat completes the passes. *)
Lemma submit_pass_exchanges_witness :
  snd (submit_pass "a" ["2C"; "6C"; "TC"] three_passed) = Ok true.
Proof.
  destruct (submit_pass_exchanges three_passed "a" ["2C"; "6C"; "TC"])
    as [st' [mapping [H _]]].
  - vm_compute. reflexivity.
  - reflexivity.
  - intros c Hc. apply (proj1 (mem_In c (hand_of three_passed "a"))).
    simpl in Hc. destruct Hc as [<-|[<-|[<-|[]]]]; vm_compute; reflexivity.
  - apply distinct_NoDup. vm_compute. reflexivity.
  - vm_compute. reflexivity.
  - vm_compute. apply Permutation_sym.
    apply (Permutation_cons_append ["b"; "c"; "d"] "a").
  - intros q l Hq. vm_compute in Hq.
    destruct Hq as [E|[E|[E|[E|[]]]]]; inversion E; subst q l;
      (split; [apply distinct_NoDup; reflexivity|]);
      intros c Hc; apply (proj1 (mem_In c _)); simpl in Hc;
      destruct Hc as [<-|[<-|[<-|[]]]]; vm_compute; reflexivity.
  - intros p h Hp. vm_compute in Hp.
    destruct Hp as [E|[E|[E|[E|[]]]]]; inversion E; deck_cards.
  - now rewrite H.
Defined.

(** ** Playing a card *)

Lemma update_hand_run (st : GameState) (pid : string)
    (g : list Card -> res (list Card)) (h h' : list Card) :
  Dict.get (hands st) pid = Some h -> g h = Ok h' ->
  update_hand pid g st = (set_hands (Dict.set (hands st) pid h') st, Ok tt).
Proof.
  intros Hg Hh. unfold update_hand, bind, get, lift, modify, Dict.getitem.
  now rewrite Hg, Hh.
Qed.

(** The first half of [play_accepted]: the card goes from hand to table. *)
Lemma play_accepted_run (st : GameState) (pid : string) (card : Card)
    (h h' : list Card) (suit : ascii) :
  Dict.get (hands st) pid = Some h -> list_remove card h = Ok h' ->
  card_suit card = Ok suit ->
  play_accepted pid card st
  = (let st' := card_played st pid card h' suit in
     if len (trick st') <? len (players st') then
       nxt <~ lift (next_player st' pid) ;;
       modify (set_current_turn (Some nxt)) ;;; ret true
     else complete_trick ;;; ret true) (card_played st pid card h' suit).
Proof.
  intros Hg Hr Hs. unfold play_accepted.
  erewrite bind_run by reflexivity.
  assert (H1 : (match trick st with
                | [] => modify (set_last_trick [])
                | _ :: _ => ret tt
                end) st
               = (match trick st with [] => set_last_trick [] st | _ :: _ => st end,
                  Ok tt)).
  { destruct (trick st); reflexivity. }
  erewrite bind_run by exact H1.
  erewrite bind_run.
  2:{ apply (update_hand_run _ pid _ h h'); [|exact Hr].
      destruct (trick st); exact Hg. }
  erewrite bind_run by reflexivity.
  erewrite bind_run by (unfold lift; rewrite Hs; reflexivity).
  assert (H2 : forall s0,
            (if Ascii.eqb suit "H" then modify (set_hearts_broken true) else ret tt) s0
            = ((if Ascii.eqb suit "H" then set_hearts_broken true s0 else s0), Ok tt)).
  { intros s0. destruct (Ascii.eqb suit "H"); reflexivity. }
  erewrite bind_run by apply H2.
  erewrite bind_run by reflexivity.
  unfold card_played. destruct (trick st); reflexivity.
Qed.

Lemma card_played_fields (st : GameState) (pid : string) (card : Card)
    (h' : list Card) (suit : ascii) :
  let st' := card_played st pid card h' suit in
  players st' = players st /\ scores st' = scores st /\
  hands st' = Dict.set (hands st) pid h' /\
  trick st' = trick st ++ [(pid, card)] /\
  hearts_broken st' = (hearts_broken st || Ascii.eqb suit "H") /\
  phase st' = phase st /\ trick_index st' = trick_index st /\
  round_index st' = round_index st /\
  taken_points_round st' = taken_points_round st /\
  pending_pass st' = pending_pass st /\ winner_id st' = winner_id st /\
  pass_dir st' = pass_dir st /\
  last_trick st' = match trick st with [] => [] | _ :: _ => last_trick st end.
Proof.
  unfold card_played.
  destruct (trick st) eqn:Et, (Ascii.eqb suit "H") eqn:Es; simpl;
    rewrite ?Et, ?orb_true_r, ?orb_false_r; repeat split; reflexivity.
Qed.

Lemma play_card_accepts (st : GameState) (pid : string) (card : Card)
    (legal : list Card) :
  phase st = playing -> current_turn st = Some pid ->
  In card (hand_of st pid) ->
  get_legal_moves st pid = Ok legal -> In card legal ->
  play_card pid card st = play_accepted pid card st.
Proof.
  intros Hph Hturn Hhand Hlegal Hin.
  unfold play_card. erewrite bind_run by reflexivity.
  rewrite Hph, Hturn. cbn [phase_eqb negb opt_is]. rewrite String.eqb_refl.
  cbn [negb]. apply mem_In in Hhand. unfold hand_of in Hhand. rewrite Hhand.
  cbn [negb]. unfold get_legal_moves in Hlegal.
  erewrite bind_run by (unfold lift; rewrite Hlegal; reflexivity).
  apply mem_In in Hin. now rewrite Hin.
Qed.

Lemma card_points_deck (c : Card) : deck_card c -> card_points c = Ok (points_of c).
Proof.
  intros H.
  assert (E : match card_points c with
              | Ok p => p =? points_of c
              | Raise _ => false
              end = true).
  { revert c H. apply deck_forall. reflexivity. }
  destruct (card_points c) as [p|e]; [|discriminate].
  apply Z.eqb_eq in E. now subst.
Qed.

Lemma trick_points_loop (tk : Trick) (acc : Z) :
  Forall (fun pc => deck_card (snd pc)) tk ->
  foldM (fun acc (pc : string * Card) => p <- card_points (snd pc) ;; Ok (acc + p))
        tk acc
  = Ok (acc + fold_right (fun pc n => points_of (snd pc) + n) 0 tk).
Proof.
  revert acc. induction tk as [|pc tk IH]; intros acc Hd; simpl.
  - f_equal. lia.
  - inversion Hd as [|? ? Hc Hd']. subst.
    rewrite (card_points_deck _ Hc). simpl. rewrite IH by assumption.
    f_equal. lia.
Qed.

Lemma trick_points_sum (tk : Trick) :
  Forall (fun pc => deck_card (snd pc)) tk ->
  trick_points tk = Ok (fold_right (fun pc n => points_of (snd pc) + n) 0 tk).
Proof.
  intros Hd. unfold trick_points. now rewrite trick_points_loop.
Qed.

Lemma trick_winner_member (tk : Trick) :
  tk <> [] -> Forall (fun pc => deck_card (snd pc)) tk ->
  exists w c, trick_winner tk = Ok w /\ In (w, c) tk.
Proof.
  intros Hne Hdeck. destruct tk as [|first rest]; [congruence|].
  assert (Hf : deck_card (snd first)) by (now inversion Hdeck).
  destruct (deck_card_suit _ Hf) as [lead_suit Hs].
  destruct (deck_card_rank_value _ Hf) as [v Hv].
  destruct (trick_winner_loop lead_suit rest [first] first 0)
    as [w [i [Hfold [Hn _]]]].
  - exact Hdeck.
  - reflexivity.
  - exists first, v. repeat split; try assumption; try reflexivity.
    + destruct j as [|j]; simpl in H; [|destruct j; discriminate].
      assert (vj = v) by congruence. lia.
    + lia.
  - exists (fst w), (snd w). split.
    + unfold trick_winner. rewrite Hs. cbn [rbind]. now rewrite Hfold.
    + apply nth_error_In in Hn. now destruct w.
Qed.

Lemma complete_trick_run (st : GameState) (w : string) (pts t : Z) :
  trick_winner (trick st) = Ok w -> trick_points (trick st) = Ok pts ->
  Dict.get (taken_points_round st) w = Some t ->
  complete_trick st
  = (if forallb (fun h => len h =? 0) (Dict.values (hands st)) then finish_round
     else modify (set_trick_index (trick_index st + 1))) (trick_taken st w pts).
Proof.
  intros Hw Hp Ht. unfold complete_trick.
  erewrite bind_run by reflexivity.
  erewrite bind_run by (unfold lift; rewrite Hw; reflexivity).
  erewrite bind_run by (unfold lift; rewrite Hp; reflexivity).
  erewrite bind_run
    by (unfold lift, Dict.getitem; rewrite Ht; reflexivity).
  do 4 (erewrite bind_run by reflexivity).
  erewrite bind_run by reflexivity.
  unfold trick_taken, Dict.get_default. rewrite Ht. reflexivity.
Qed.

Lemma hand_of_get (st : GameState) (pid : string) (card : Card) :
  In card (hand_of st pid) ->
  Dict.get (hands st) pid = Some (hand_of st pid).
Proof.
  unfold hand_of, Dict.get_default.
  destruct (Dict.get (hands st) pid); [reflexivity | intros []].
Qed.

Lemma next_player_players (st st' : GameState) (pid : string) :
  players st' = players st -> next_player st' pid = next_player st pid.
Proof. intros H. unfold next_player, player_order. now rewrite H. Qed.

Lemma len_snoc {A : Type} (l : list A) (x : A) : len (l ++ [x]) = len l + 1.
Proof. unfold len. rewrite length_app. simpl. lia. Qed.

(** X18. An accepted play that does not complete the trick: in the playing
    phase, for the seat to move, a deck card of its hand that is among its
    legal moves is accepted.  While the trick is still short of one play per
    player, [play_card] returns True; the card (its first occurrence) has
    left the hand of the seat, it is the last play of the trick, the turn
    passes to the next seat in seat order, hearts are broken if they were or
    if the card is a heart, and the phase, the scores, the points of the
    round and the trick number are unchanged. *)
Theorem play_card_mid_trick (st : GameState) (pid : string) (card : Card)
    (legal : list Card) :
  phase st = playing -> current_turn st = Some pid ->
  In card (hand_of st pid) ->
  get_legal_moves st pid = Ok legal -> In card legal ->
  deck_card card -> In pid (player_order st) ->
  len (trick st) + 1 < len (players st) ->
  exists (st' : GameState) (h' : list Card) (nxt : string),
    play_card pid card st = (st', Ok true) /\
    list_remove card (hand_of st pid) = Ok h' /\
    hands st' = Dict.set (hands st) pid h' /\
    trick st' = trick st ++ [(pid, card)] /\
    next_player st pid = Ok nxt /\ current_turn st' = Some nxt /\
    hearts_broken st' = (hearts_broken st || has_suit "H" card) /\
    phase st' = playing /\ scores st' = scores st /\
    taken_points_round st' = taken_points_round st /\
    trick_index st' = trick_index st.
Proof.
  intros Hph Hturn Hhand Hlegal Hin Hdeck Hseat Hshort.
  pose proof (hand_of_get st pid card Hhand) as Hg.
  destruct (list_remove_in card _ Hhand) as [h' Hr].
  destruct (deck_card_suit card Hdeck) as [s Hs].
  destruct (next_player_spec st pid) as [Hnext _].
  destruct (Hnext Hseat) as [i [nxt [Hn _]]].
  pose proof (card_played_fields st pid card h' s) as F. cbv zeta in F.
  destruct F as (Fp & Fsc & Fh & Ft & Fhb & Fph & Fti & _ & Ftk & _).
  exists (set_current_turn (Some nxt) (card_played st pid card h' s)), h', nxt.
  split.
  { rewrite (play_card_accepts st pid card legal) by assumption.
    rewrite (play_accepted_run st pid card _ h' s Hg Hr Hs). cbv zeta.
    rewrite Ft, Fp, len_snoc.
    assert (E : (len (trick st) + 1 <? len (players st)) = true)
      by (now apply Z.ltb_lt).
    rewrite E.
    erewrite bind_run
      by (unfold lift; rewrite (next_player_players st _ pid Fp), Hn; reflexivity).
    erewrite bind_run by reflexivity. reflexivity. }
  split; [exact Hr|].
  cbn [hands trick current_turn hearts_broken phase scores taken_points_round
       trick_index set_current_turn].
  rewrite Fh, Ft, Fhb, Fph, Fsc, Ftk, Fti.
  unfold has_suit. rewrite Hs. repeat split; try reflexivity; assumption.
Qed.

(** A use of [play_card_mid_trick]: the holder of 2C opens a hold round. *)
Lemma play_card_mid_trick_witness :
  snd (play_card "a" "2C"
         (fst (start_round make_deck (set_round_index 3 (HeartsGame four_players)))))
  = Ok true.
Proof.
  destruct (play_card_mid_trick
              (fst (start_round make_deck
                      (set_round_index 3 (HeartsGame four_players))))
              "a" "2C" ["2C"]) as [st' [h' [nxt [H _]]]].
  - vm_compute. reflexivity.
  - vm_compute. reflexivity.
  - apply (proj1 (mem_In _ _)). vm_compute. reflexivity.
  - vm_compute. reflexivity.
  - now left.
  - apply deck_card_mem. reflexivity.
  - apply (proj1 (mem_In _ _)). vm_compute. reflexivity.
  - vm_compute. reflexivity.
  - now rewrite H.
Defined.

Lemma all_empty_iff (hs : list (list Card)) :
  forallb (fun h => len h =? 0) hs = true <-> forall h, In h hs -> h = [].
Proof.
  rewrite forallb_forall. split; intros H h Hh.
  - specialize (H h Hh). apply Z.eqb_eq in H. unfold len in H.
    destruct h; [reflexivity | simpl in H; lia].
  - now rewrite (H h Hh).
Qed.

Lemma trick_taken_fields (st : GameState) (w : string) (pts : Z) :
  let st' := trick_taken st w pts in
  players st' = players st /\ scores st' = scores st /\ hands st' = hands st /\
  trick st' = [] /\ last_trick st' = trick st /\ current_turn st' = Some w /\
  hearts_broken st' = hearts_broken st /\ phase st' = phase st /\
  trick_index st' = trick_index st /\ round_index st' = round_index st /\
  taken_points_round st'
  = Dict.set (taken_points_round st) w
      (Dict.get_default (taken_points_round st) w 0 + pts).
Proof. cbv zeta. unfold trick_taken. simpl. repeat split; reflexivity. Qed.

(** X19. An accepted play that completes the trick (the trick then has one
    play per player): the winner of the trick, as [trick_winner] finds it,
    takes the points of the trick, one per heart and 13 for the queen of
    spades; the completed trick becomes the last trick, the table is
    cleared and the winner is to lead.  If some hand still holds a card the
    trick number goes up by one and [play_card] returns True; if every hand
    is empty the round is scored by [finish_round] on that state. *)
Theorem play_card_takes_trick (st : GameState) (pid : string) (card : Card)
    (legal : list Card) :
  phase st = playing -> current_turn st = Some pid ->
  In card (hand_of st pid) ->
  get_legal_moves st pid = Ok legal -> In card legal ->
  deck_card card ->
  (forall p c, In (p, c) (trick st) -> deck_card c) ->
  (forall p c, In (p, c) (trick st ++ [(pid, card)]) ->
     In p (Dict.keys (taken_points_round st))) ->
  len (players st) <= len (trick st) + 1 ->
  exists (st1 : GameState) (h' : list Card) (w : string),
    list_remove card (hand_of st pid) = Ok h' /\
    trick_winner (trick st ++ [(pid, card)]) = Ok w /\
    hands st1 = Dict.set (hands st) pid h' /\
    trick st1 = [] /\ last_trick st1 = trick st ++ [(pid, card)] /\
    current_turn st1 = Some w /\
    taken st1 w
    = taken st w
      + fold_right (fun pc n => points_of (snd pc) + n) 0 (trick st ++ [(pid, card)]) /\
    (forall q, q <> w -> taken st1 q = taken st q) /\
    hearts_broken st1 = (hearts_broken st || has_suit "H" card) /\
    scores st1 = scores st /\ phase st1 = playing /\
    trick_index st1 = trick_index st /\
    ((exists h, In h (Dict.values (hands st1)) /\ h <> []) ->
     play_card pid card st = (set_trick_index (trick_index st + 1) st1, Ok true)) /\
    ((forall h, In h (Dict.values (hands st1)) -> h = []) ->
     play_card pid card st = (finish_round ;;; ret true) st1).
Proof.
  intros Hph Hturn Hhand Hlegal Hin Hdeck Htrick Hkeys Hfull.
  pose proof (hand_of_get st pid card Hhand) as Hg.
  destruct (list_remove_in card _ Hhand) as [h' Hr].
  destruct (deck_card_suit card Hdeck) as [s Hs].
  set (tk := trick st ++ [(pid, card)]) in *.
  assert (Htk : Forall (fun pc => deck_card (snd pc)) tk).
  { apply Forall_forall. intros [p c] Hpc. unfold tk in Hpc.
    apply in_app_or in Hpc. destruct Hpc as [Hpc|[Hpc|[]]].
    - now apply (Htrick p c).
    - inversion Hpc. subst. exact Hdeck. }
  destruct (trick_winner_member tk) as [w [cw [Hw Hwin]]].
  { unfold tk. destruct (trick st); discriminate. }
  { exact Htk. }
  pose proof (trick_points_sum tk Htk) as Hpts.
  set (pts := fold_right (fun pc n => points_of (snd pc) + n) 0 tk) in *.
  destruct (dict_getitem_In _ w (Hkeys w cw Hwin)) as [t [_ Ht]].
  set (stc := card_played st pid card h' s).
  pose proof (card_played_fields st pid card h' s) as F. cbv zeta in F.
  fold stc in F. fold tk in F.
  destruct F as (Fp & Fsc & Fh & Ft & Fhb & Fph & Fti & _ & Ftk & _).
  pose proof (trick_taken_fields stc w pts) as T. cbv zeta in T.
  destruct T as (Tp & Tsc & Th & Tt & Tl & Tc & Thb & Tph & Tti & _ & Ttk).
  assert (Hrun : play_card pid card st
            = ((if forallb (fun h => len h =? 0) (Dict.values (hands stc))
                then finish_round
                else modify (set_trick_index (trick_index stc + 1))) ;;; ret true)
                (trick_taken stc w pts)).
  { rewrite (play_card_accepts st pid card legal) by assumption.
    rewrite (play_accepted_run st pid card _ h' s Hg Hr Hs). cbv zeta.
    fold stc. rewrite Ft, Fp. unfold tk at 1. rewrite len_snoc.
    assert (E : (len (trick st) + 1 <? len (players st)) = false)
      by (now apply Z.ltb_ge).
    rewrite E. unfold bind at 1.
    rewrite (complete_trick_run stc w pts t); [reflexivity | | |].
    - now rewrite Ft.
    - now rewrite Ft.
    - now rewrite Ftk. }
  exists (trick_taken stc w pts), h', w.
  split; [exact Hr|]. split; [exact Hw|].
  rewrite Th, Tt, Tl, Tc, Thb, Tsc, Tph, Tti, Fh, Ft, Fhb, Fsc, Fph, Fti.
  unfold has_suit at 1. rewrite Hs.
  repeat (split; [reflexivity|]).
  split; [|split; [|repeat (split; [first [reflexivity | assumption]|])]].
  - unfold taken. rewrite Ttk, Ftk. unfold Dict.get_default at 1.
    now rewrite dict_get_set_same.
  - intros q Hq. unfold taken. rewrite Ttk, Ftk. unfold Dict.get_default at 1.
    rewrite dict_get_set_other by congruence. reflexivity.
  - split.
    + intros [h [Hh Hne]]. rewrite Hrun.
      assert (E : forallb (fun h => len h =? 0) (Dict.values (hands stc)) = false).
      { apply not_true_is_false. intros E.
        pose proof (proj1 (all_empty_iff _) E) as E'.
        apply Hne. apply E'. now rewrite Fh. }
      rewrite E, Fti. reflexivity.
    + intros Hall. rewrite Hrun.
      assert (E : forallb (fun h => len h =? 0) (Dict.values (hands stc)) = true).
      { apply (proj2 (all_empty_iff _)). intros h Hh. apply Hall.
        now rewrite <- Fh. }
      now rewrite E.
Qed.

(** A use of [play_card_takes_trick]: the fourth club takes the first trick. *)
Lemma play_card_takes_trick_witness :
  trick_winner (trick fourth_to_play ++ [("d", "5C")]) = Ok "d" /\
  snd (play_card "d" "5C" fourth_to_play) = Ok true.
Proof.
  destruct (play_card_takes_trick fourth_to_play "d" "5C" ["5C"; "9C"; "KC"])
    as (st1 & h' & w & _ & Hw & Hh & _ & _ & _ & _ & _ & _ & _ & _ & _ & Hnext & _).
  - vm_compute. reflexivity.
  - vm_compute. reflexivity.
  - apply (proj1 (mem_In _ _)). vm_compute. reflexivity.
  - vm_compute. reflexivity.
  - now left.
  - apply deck_card_mem. reflexivity.
  - intros p c Hpc. apply deck_card_mem. vm_compute in Hpc.
    destruct Hpc as [E|[E|[E|[]]]]; inversion E; reflexivity.
  - intros p c Hpc. apply (proj1 (mem_In _ _)). vm_compute in Hpc.
    destruct Hpc as [E|[E|[E|[E|[]]]]]; inversion E; vm_compute; reflexivity.
  - vm_compute. discriminate.
  - split.
    + assert (E := Hw). vm_compute in E. injection E as E. subst w. exact Hw.
    + rewrite Hnext; [reflexivity|].
      assert (Ha : Dict.get (hands st1) "a" = Dict.get (hands fourth_to_play) "a").
      { rewrite Hh.
        refine (dict_get_set_other (hands fourth_to_play) "d" "a" h' _).
        discriminate. }
      vm_compute in Ha. apply dict_In_of_get in Ha.
      eexists. split.
      * unfold Dict.values. apply in_map_iff. eexists. split; [|exact Ha].
        reflexivity.
      * discriminate.
Defined.

(** ** No exception at an ordered table *)

Lemma table_ok_of (st st' : GameState) :
  table_ok st ->
  players st' = players st ->
  Dict.keys (scores st') = Dict.keys (scores st) ->
  Dict.keys (taken_points_round st') = Dict.keys (taken_points_round st) ->
  (forall p h, In (p, h) (hands st') -> Forall deck_card h) ->
  Dict.keys (hands st') = Dict.keys (hands st) ->
  (forall p c, In (p, c) (trick st') -> In p (player_order st) /\ deck_card c) ->
  table_ok st'.
Proof.
  intros [[Hnd [Hsc Htk]] [Hkh [Hhd Htr]]] Hp Hs Ht Hh Hk Htr'.
  unfold table_ok, seats_ok, player_order in *. rewrite Hp, Hs, Ht, Hk.
  split; [tauto|]. split; [exact Hkh|]. split; [exact Hh | exact Htr'].
Qed.

Lemma table_ok_hand (st : GameState) (pid : string) :
  table_ok st -> Forall deck_card (hand_of st pid).
Proof.
  intros [_ [_ [Hhd _]]]. unfold hand_of, Dict.get_default.
  destruct (Dict.get (hands st) pid) as [h|] eqn:E; [|constructor].
  apply (Hhd pid). now apply dict_In_of_get.
Qed.

Lemma dict_set_concat_swap (d : Dict.t (list Card)) (k : string) (h h' : list Card) :
  Dict.get d k = Some h ->
  Permutation (concat (Dict.values (Dict.set d k h')) ++ h)
              (concat (Dict.values d) ++ h').
Proof.
  induction d as [|[k0 v0] d IH]; simpl; [discriminate|].
  destruct (String.eqb k0 k) eqn:E; intros H.
  - injection H as ->. simpl. rewrite <- !app_assoc.
    rewrite (Permutation_app_comm (concat (Dict.values d)) h).
    rewrite (Permutation_app_comm (concat (Dict.values d)) h').
    rewrite !app_assoc. apply Permutation_app_tail, Permutation_app_comm.
  - simpl. rewrite <- !app_assoc. apply Permutation_app_head. now apply IH.
Qed.

Lemma cards_points_app (a b : list Card) :
  cards_points (a ++ b) = cards_points a + cards_points b.
Proof.
  unfold cards_points. induction a as [|c a IH]; simpl; [reflexivity | lia].
Qed.

Lemma cards_points_perm (a b : list Card) :
  Permutation a b -> cards_points a = cards_points b.
Proof.
  unfold cards_points. induction 1; simpl; lia.
Qed.

Lemma trick_cards_points (tk : Trick) :
  fold_right (fun pc n => points_of (snd pc) + n) 0 tk = cards_points (map snd tk).
Proof.
  unfold cards_points. induction tk as [|pc tk IH]; simpl; [reflexivity | lia].
Qed.

Lemma sum_values_set (d : Dict.t Z) (k : string) (t v : Z) :
  Dict.get d k = Some t ->
  fold_right Z.add 0 (Dict.values (Dict.set d k v))
  = fold_right Z.add 0 (Dict.values d) - t + v.
Proof.
  induction d as [|[k0 v0] d IH]; simpl; [discriminate|].
  destruct (String.eqb k0 k); intros H; simpl.
  - injection H as ->. lia.
  - rewrite IH by assumption. lia.
Qed.

(** A card that goes from a hand to the table keeps its points in play. *)
Lemma points_card_played (st : GameState) (pid : string) (card : Card)
    (h h' : list Card) (s : ascii) :
  Dict.get (hands st) pid = Some h -> Permutation h (card :: h') ->
  points_in_play (card_played st pid card h' s) = points_in_play st.
Proof.
  intros Hg Hp.
  pose proof (card_played_fields st pid card h' s) as F. cbv zeta in F.
  destruct F as (_ & _ & Fh & Ft & _ & _ & _ & _ & Ftk & _).
  unfold points_in_play. rewrite Fh, Ft, Ftk.
  pose proof (cards_points_perm _ _ (dict_set_concat_swap (hands st) pid h h' Hg))
    as E.
  rewrite !cards_points_app in E. rewrite (cards_points_perm _ _ Hp) in E.
  rewrite map_app, cards_points_app.
  change (cards_points (card :: h')) with (points_of card + cards_points h') in E.
  change (cards_points (map snd [(pid, card)])) with (points_of card + 0).
  lia.
Qed.

(** The points of a completed trick go from the table to its winner. *)
Lemma points_trick_taken (st : GameState) (w : string) (t : Z) :
  Dict.get (taken_points_round st) w = Some t ->
  points_in_play
    (trick_taken st w (fold_right (fun pc n => points_of (snd pc) + n) 0 (trick st)))
  = points_in_play st.
Proof.
  intros Ht. unfold points_in_play, trick_taken.
  cbn [hands trick taken_points_round set_current_turn set_trick set_last_trick
       set_taken_points_round].
  rewrite (sum_values_set _ w t _ Ht). unfold Dict.get_default. rewrite Ht.
  rewrite trick_cards_points. change (cards_points (map snd [])) with 0. lia.
Qed.

Lemma play_accepted_returns (st : GameState) (pid : string) (card : Card) :
  table_ok st -> In card (hand_of st pid) ->
  exists st',
    play_accepted pid card st = (st', Ok true) /\ table_ok st' /\
    points_in_play st' = points_in_play st.
Proof.
  intros Hok Hhand.
  pose proof (hand_of_get st pid card Hhand) as Hg.
  pose proof (table_ok_hand st pid Hok) as Hdeckh.
  assert (Hdeck : deck_card card).
  { rewrite Forall_forall in Hdeckh. now apply Hdeckh. }
  destruct (list_remove_in card _ Hhand) as [h' Hr].
  destruct (list_remove_ok card _ h' Hr) as [_ [Hperm _]].
  destruct (deck_card_suit card Hdeck) as [s Hs].
  destruct Hok as [[Hnd [Hsc Htkn]] [Hkh [Hhd Htr]]].
  assert (Hok : table_ok st) by (unfold table_ok, seats_ok; tauto).
  assert (Hpid : In pid (player_order st)).
  { rewrite <- Hkh. apply dict_get_In. eauto. }
  set (stc := card_played st pid card h' s).
  pose proof (card_played_fields st pid card h' s) as F. cbv zeta in F.
  fold stc in F.
  destruct F as (Fp & Fsc & Fh & Ft & Fhb & Fph & Fti & _ & Ftk & _).
  assert (Hokc : table_ok stc).
  { apply (table_ok_of st); try assumption.
    - now rewrite Fsc.
    - now rewrite Ftk.
    - intros p h0 Hin. rewrite Fh in Hin. apply dict_set_In in Hin.
      destruct Hin as [[-> ->]|Hin]; [|now apply (Hhd p)].
      apply Forall_forall. intros c Hc. rewrite Forall_forall in Hdeckh.
      apply Hdeckh. apply (Permutation_in _ (Permutation_sym Hperm)). now right.
    - rewrite Fh. apply dict_keys_set_in. apply dict_get_In. eauto.
    - intros p c Hin. rewrite Ft in Hin. apply in_app_or in Hin.
      destruct Hin as [Hin|[Hin|[]]]; [now apply Htr|].
      inversion Hin. subst. tauto. }
  assert (Hptc : points_in_play stc = points_in_play st).
  { apply (points_card_played st pid card _ h' s Hg Hperm). }
  rewrite (play_accepted_run st pid card _ h' s Hg Hr Hs). cbv zeta. fold stc.
  destruct (len (trick stc) <? len (players stc)) eqn:E.
  - (* the trick goes on *)
    destruct (next_player_spec stc pid) as [Hnext _].
    destruct (Hnext ltac:(unfold player_order; now rewrite Fp))
      as [i [nxt [Hn _]]].
    erewrite bind_run by (unfold lift; rewrite Hn; reflexivity).
    erewrite bind_run by reflexivity.
    eexists. split; [reflexivity|]. split; [|exact Hptc].
    apply (table_ok_of stc); try reflexivity; try assumption.
    + destruct Hokc as [_ [_ [H _]]]. exact H.
    + destruct Hokc as [_ [_ [_ H]]]. exact H.
  - (* the trick is complete *)
    assert (Htkc : Forall (fun pc => deck_card (snd pc)) (trick stc)).
    { destruct Hokc as [_ [_ [_ H]]]. apply Forall_forall.
      intros [p c] Hin. now apply (H p c). }
    destruct (trick_winner_member (trick stc)) as [w [cw [Hw Hwin]]].
    { rewrite Ft. destruct (trick st); discriminate. }
    { exact Htkc. }
    assert (Hwk : In w (Dict.keys (taken_points_round stc))).
    { destruct Hokc as [[_ [_ Hk]] [_ [_ H]]]. rewrite Hk.
      now apply (H w cw). }
    destruct (dict_getitem_In _ w Hwk) as [t [_ Ht]].
    pose proof (trick_points_sum (trick stc) Htkc) as Hpts.
    unfold bind at 1.
    rewrite (complete_trick_run stc w _ t Hw Hpts Ht).
    set (pts := fold_right (fun pc n => points_of (snd pc) + n) 0 (trick stc)).
    set (st1 := trick_taken stc w pts).
    pose proof (trick_taken_fields stc w pts) as T. cbv zeta in T. fold st1 in T.
    destruct T as (Tp & Tsc & Th & Tt & Tl & Tc & Thb & Tph & Tti & _ & Ttk).
    assert (Hok1 : table_ok st1).
    { apply (table_ok_of stc); try assumption.
      - now rewrite Tsc.
      - rewrite Ttk. now apply dict_keys_set_in.
      - rewrite Th. destruct Hokc as [_ [_ [H _]]]. exact H.
      - now rewrite Th.
      - rewrite Tt. intros p c []. }
    assert (Hpt1 : points_in_play st1 = points_in_play st).
    { rewrite <- Hptc. apply (points_trick_taken stc w t Ht). }
    destruct (forallb (fun h => len h =? 0) (Dict.values (hands stc))).
    + (* the round is over *)
      destruct Hok1 as [Hseats1 Hrest1].
      assert (Hok1 : table_ok st1) by (unfold table_ok; tauto).
      destruct (finish_round_result st1 Hseats1)
        as [sc [Hk [_ [[_ Hfin]|[_ [w' [_ Hfin]]]]]]]; rewrite Hfin.
      * eexists. split; [reflexivity|]. split; [|exact Hpt1].
        apply (table_ok_of st1);
          [exact Hok1 | reflexivity | | reflexivity | | reflexivity |].
        -- change (Dict.keys sc = Dict.keys (scores st1)).
           rewrite Hk. destruct Hseats1 as [_ [H _]]. now rewrite H.
        -- destruct Hrest1 as [_ [H _]]. exact H.
        -- destruct Hrest1 as [_ [_ H]]. exact H.
      * eexists. split; [reflexivity|]. split; [|exact Hpt1].
        apply (table_ok_of st1);
          [exact Hok1 | reflexivity | | reflexivity | | reflexivity |].
        -- change (Dict.keys sc = Dict.keys (scores st1)).
           rewrite Hk. destruct Hseats1 as [_ [H _]]. now rewrite H.
        -- destruct Hrest1 as [_ [H _]]. exact H.
        -- destruct Hrest1 as [_ [_ H]]. exact H.
    + eexists. split; [reflexivity|]. split; [|exact Hpt1].
      apply (table_ok_of st1); try reflexivity; try assumption.
      * destruct Hok1 as [_ [_ [H _]]]. exact H.
      * destruct Hok1 as [_ [_ [_ H]]]. exact H.
Qed.

(** X20. At an ordered table (distinct seats that key the scores, the points
    of the round and the hands; deck cards only in the hands and on the
    table; every play on the table made by a seat) [play_card] never raises:
    for any seat id and any card it returns True or False, and the table it
    leaves is ordered again. *)
Theorem play_card_returns (st : GameState) (pid : string) (card : Card) :
  table_ok st ->
  exists (st' : GameState) (b : bool),
    play_card pid card st = (st', Ok b) /\ table_ok st'.
Proof.
  intros Hok.
  assert (Hrej : exists (st' : GameState) (b : bool),
             (st, @Ok bool false) = (st', Ok b) /\ table_ok st').
  { exists st, false. split; [reflexivity | exact Hok]. }
  unfold play_card, bind at 1, get, ret.
  destruct (phase_eqb (phase st) playing); cbn [negb]; [|exact Hrej].
  destruct (opt_is (current_turn st) pid); cbn [negb]; [|exact Hrej].
  destruct (mem card (Dict.get_default (hands st) pid [])) eqn:Em; cbn [negb];
    [|exact Hrej].
  destruct (legal_moves_returns (Dict.get_default (hands st) pid []) (trick st)
              (hearts_broken st) (trick_index st =? 0)) as [legal Hlegal].
  { apply (table_ok_hand st pid Hok). }
  { intros [p c] Hhd. destruct Hok as [_ [_ [_ Htr]]].
    destruct (trick st) as [|x tk]; [discriminate|]. injection Hhd as ->.
    destruct (Htr p c (or_introl eq_refl)) as [_ Hc].
    destruct (deck_card_suit c Hc) as [s Hs]. simpl. now rewrite Hs. }
  unfold bind, lift. rewrite Hlegal.
  destruct (mem card legal); cbn [negb]; [|exact Hrej].
  destruct (play_accepted_returns st pid card Hok) as [st' [Hrun [Hok' _]]].
  { apply mem_In. exact Em. }
  exists st', true. split; assumption.
Qed.

(** A use of [play_card_returns]: the last play of the first trick. *)
Lemma play_card_returns_witness :
  exists (st' : GameState) (b : bool),
    play_card "d" "5C" fourth_to_play = (st', Ok b) /\ table_ok st'.
Proof.
  apply play_card_returns.
  split; [split; [|split]|split; [|split]].
  - apply distinct_NoDup. vm_compute. reflexivity.
  - vm_compute. reflexivity.
  - vm_compute. reflexivity.
  - vm_compute. reflexivity.
  - intros p h Hp. vm_compute in Hp.
    destruct Hp as [E|[E|[E|[E|[]]]]]; inversion E; deck_cards.
  - intros p c Hpc. vm_compute in Hpc.
    destruct Hpc as [E|[E|[E|[]]]]; inversion E;
      (split; [apply (proj1 (mem_In _ _)) | apply deck_card_mem]);
      vm_compute; reflexivity.
Defined.

(** ** The bots *)

Lemma sort_key_deck (c : Card) : deck_card c -> exists k, sort_key c = Ok k.
Proof.
  intros H. apply is_ok_true. revert c H. apply deck_forall. reflexivity.
Qed.

Lemma StronglySorted_app {A : Type} (R : A -> A -> Prop) (l1 l2 : list A) :
  StronglySorted R l1 -> StronglySorted R l2 ->
  (forall a b, In a l1 -> In b l2 -> R a b) ->
  StronglySorted R (l1 ++ l2).
Proof.
  induction l1 as [|x l1 IH]; simpl; intros H1 H2 H; [exact H2|].
  inversion H1 as [|? ? Hs Hall]. subst. constructor.
  - apply IH; auto.
  - apply Forall_app. split; [exact Hall|].
    apply Forall_forall. intros b Hb. apply H; auto.
Qed.

Lemma StronglySorted_app_inv {A : Type} (R : A -> A -> Prop) (l1 l2 : list A) :
  StronglySorted R (l1 ++ l2) ->
  forall a b, In a l1 -> In b l2 -> R a b.
Proof.
  induction l1 as [|x l1 IH]; simpl; intros H a b Ha Hb; [destruct Ha|].
  inversion H as [|? ? Hs Hall]. subst. destruct Ha as [<-|Ha].
  - rewrite Forall_forall in Hall. apply Hall. apply in_or_app. now right.
  - now apply IH.
Qed.

Lemma StronglySorted_rev {A : Type} (R : A -> A -> Prop) (l : list A) :
  StronglySorted R l -> StronglySorted (fun a b => R b a) (rev l).
Proof.
  induction 1 as [|x l Hs IH Hall]; simpl; [constructor|].
  apply StronglySorted_app; [exact IH | repeat constructor |].
  intros a b Ha [<-|[]]. apply in_rev in Ha.
  rewrite Forall_forall in Hall. now apply Hall.
Qed.

Lemma keyed_sorted_map (K : Card -> Z * Z) (P : Z * Z -> Z * Z -> Prop)
    (L : list ((Z * Z) * Card)) :
  StronglySorted (fun a b => P (fst a) (fst b)) L ->
  (forall p, In p L -> K (snd p) = fst p) ->
  StronglySorted (fun a b => P (K a) (K b)) (map snd L).
Proof.
  induction 1 as [|p L S IH Hall]; intros Hk; simpl; constructor.
  - apply IH. intros q Hq. apply Hk. now right.
  - apply Forall_forall. intros c Hc. apply in_map_iff in Hc.
    destruct Hc as [q [<- Hq]]. rewrite Forall_forall in Hall.
    rewrite (Hk p (or_introl eq_refl)), (Hk q (or_intror Hq)).
    now apply Hall.
Qed.

(** [sorted] returns the same cards, in ascending order of the key, or in
    descending order when reversed. *)
Lemma sorted_by_result (key : Card -> res (Z * Z)) (reverse : bool)
    (l s : list Card) :
  sorted_by key reverse l = Ok s ->
  Permutation s l /\
  StronglySorted
    (fun a b =>
       let K := fun c => match key c with Ok k => k | Raise _ => (0, 0) end in
       if reverse then key_le (K b) (K a) = true else key_le (K a) (K b) = true)
    s.
Proof.
  unfold sorted_by. destruct (mapM key l) as [ks|e] eqn:E; simpl; [|discriminate].
  intros H. injection H as <-.
  destruct (mapM_combine _ _ _ E) as [Hsnd Hkey].
  set (K := fun c => match key c with Ok k => k | Raise _ => (0, 0) end).
  assert (HK : forall p, In p (combine ks l) -> K (snd p) = fst p).
  { intros [k c] Hp. unfold K. simpl. now rewrite (Hkey k c Hp). }
  destruct reverse.
  - destruct (sort_keyed_loop (rev (combine ks l)) [] (SSorted_nil _)) as [P S].
    fold (sort_keyed (rev (combine ks l))) in P, S. simpl in P. split.
    + rewrite <- Hsnd at 2. apply Permutation_map.
      rewrite <- Permutation_rev, P. apply Permutation_sym, Permutation_rev.
    + apply (keyed_sorted_map K (fun a b => key_le b a = true)).
      * apply StronglySorted_rev in S. exact S.
      * intros p Hp. apply HK. apply in_rev in Hp.
        apply (Permutation_in _ P) in Hp. now apply in_rev in Hp.
  - destruct (sort_keyed_loop (combine ks l) [] (SSorted_nil _)) as [P S].
    fold (sort_keyed (combine ks l)) in P, S. simpl in P. split.
    + rewrite <- Hsnd at 2. now apply Permutation_map.
    + apply (keyed_sorted_map K (fun a b => key_le a b = true)); [exact S|].
      intros p Hp. apply HK. apply (Permutation_in _ P Hp).
Qed.

Lemma sorted_by_returns (reverse : bool) (l : list Card) :
  Forall deck_card l -> exists s, sorted_by sort_key reverse l = Ok s.
Proof.
  intros Hdeck. unfold sorted_by.
  destruct (mapM_ok sort_key l) as [ks Hks].
  - intros c Hc. apply sort_key_deck. rewrite Forall_forall in Hdeck. auto.
  - rewrite Hks. simpl. eauto.
Qed.

Lemma key_le_refl (a : Z * Z) : key_le a a = true.
Proof.
  unfold key_le. rewrite Z.eqb_refl, Z.leb_refl. apply orb_true_r.
Qed.

Lemma choose_play_result (legal : list Card) :
  Forall deck_card legal -> legal <> [] ->
  exists c, choose_play legal = Ok c /\ In c legal /\
    forall c', In c' legal -> key_le (bot_key c) (bot_key c') = true.
Proof.
  intros Hdeck Hne.
  destruct (sorted_by_returns false legal Hdeck) as [s Hs].
  destruct (sorted_by_result sort_key false legal s Hs) as [Hp Hsorted].
  cbv zeta in Hsorted. fold bot_key in Hsorted.
  destruct s as [|c s].
  - apply Permutation_nil in Hp. congruence.
  - exists c. split; [|split].
    + unfold choose_play. rewrite Hs. reflexivity.
    + apply (Permutation_in _ Hp). now left.
    + intros c' Hc'. apply (Permutation_in _ (Permutation_sym Hp)) in Hc'.
      inversion Hsorted as [|? ? _ Hall]. subst.
      destruct Hc' as [<-|Hc']; [apply key_le_refl|].
      rewrite Forall_forall in Hall. now apply Hall.
Qed.

Lemma choose_pass_result (hand : list Card) :
  Forall deck_card hand ->
  exists cards rest,
    choose_pass hand = Ok cards /\
    length cards = Nat.min 3 (length hand) /\
    Permutation hand (cards ++ rest) /\
    forall a b, In a cards -> In b rest ->
      key_le (bot_key b) (bot_key a) = true.
Proof.
  intros Hdeck.
  destruct (sorted_by_returns true hand Hdeck) as [s Hs].
  destruct (sorted_by_result sort_key true hand s Hs) as [Hp Hsorted].
  cbv zeta in Hsorted. fold bot_key in Hsorted.
  exists (firstn 3 s), (skipn 3 s). split; [|split; [|split]].
  - unfold choose_pass. now rewrite Hs.
  - rewrite length_firstn. now rewrite (Permutation_length Hp).
  - rewrite firstn_skipn. now apply Permutation_sym.
  - rewrite <- (firstn_skipn 3 s) in Hsorted.
    apply (StronglySorted_app_inv _ _ _ Hsorted).
Qed.

(** X21. The bot's play: from a non-empty list of deck cards [choose_play]
    returns a card of the list whose key (points, then rank) is the lowest;
    on an empty list it raises IndexError. *)
Theorem choose_play_lowest :
  (forall legal : list Card,
     Forall deck_card legal -> legal <> [] ->
     exists c, choose_play legal = Ok c /\ In c legal /\
       forall c', In c' legal -> key_le (bot_key c) (bot_key c') = true) /\
  choose_play [] = Raise IndexError.
Proof.
  split; [apply choose_play_result | reflexivity].
Qed.

(** A use of [choose_play_lowest]: a low club is preferred to the hearts. *)
Lemma choose_play_lowest_witness :
  exists c, choose_play ["QS"; "5H"; "3C"; "2H"] = Ok c /\
            key_le (bot_key c) (bot_key "3C") = true.
Proof.
  destruct choose_play_lowest as [H _].
  destruct (H ["QS"; "5H"; "3C"; "2H"]) as [c [Hc [_ Hmin]]].
  - deck_cards.
  - discriminate.
  - exists c. split; [exact Hc|]. apply Hmin. simpl. tauto.
Defined.

(** X22. The bot's pass: from a hand of deck cards [choose_pass] returns
    three cards of the hand (all of it when it has fewer), each counted as
    often as the hand holds it, and no card left in the hand has a higher key
    (points, then rank) than a chosen one. *)
Theorem choose_pass_highest (hand : list Card) :
  Forall deck_card hand ->
  exists cards rest,
    choose_pass hand = Ok cards /\
    length cards = Nat.min 3 (length hand) /\
    Permutation hand (cards ++ rest) /\
    forall a b, In a cards -> In b rest ->
      key_le (bot_key b) (bot_key a) = true.
Proof. apply choose_pass_result. Qed.

(** A use of [choose_pass_highest] on a hand of five cards. *)
Lemma choose_pass_highest_witness :
  exists cards rest,
    choose_pass ["2C"; "QS"; "AC"; "3H"; "KH"] = Ok cards /\
    length cards = 3%nat /\
    Permutation ["2C"; "QS"; "AC"; "3H"; "KH"] (cards ++ rest).
Proof.
  destruct (choose_pass_highest ["2C"; "QS"; "AC"; "3H"; "KH"])
    as [cards [rest [H1 [H2 [H3 _]]]]].
  - deck_cards.
  - exists cards, rest. repeat split; assumption.
Defined.

(** X23. A bot's pass is a valid pass: in the passing phase, for a seat
    whose hand holds at least three deck cards, no card twice, the list
    [choose_pass] returns for that hand has three distinct cards of the hand;
    while seats are still missing [submit_pass] stores it and returns True. *)
Theorem bot_pass_accepted (st : GameState) (pid : string) :
  phase st = passing ->
  Forall deck_card (hand_of st pid) -> NoDup (hand_of st pid) ->
  (3 <= length (hand_of st pid))%nat ->
  exists cards,
    choose_pass (hand_of st pid) = Ok cards /\
    length cards = 3%nat /\ NoDup cards /\ incl cards (hand_of st pid) /\
    (len (Dict.set (pending_pass st) pid cards) < len (players st) ->
     submit_pass pid cards st
     = (set_pending_pass (Dict.set (pending_pass st) pid cards) st, Ok true)).
Proof.
  intros Hph Hdeck Hnd Hlen.
  destruct (choose_pass_result _ Hdeck) as [cards [rest [Hc [Hl [Hp _]]]]].
  assert (Hincl : incl cards (hand_of st pid)).
  { intros c Hc'. apply (Permutation_in _ (Permutation_sym Hp)).
    apply in_or_app. now left. }
  assert (Hl3 : length cards = 3%nat) by lia.
  exists cards. split; [exact Hc|]. split; [exact Hl3|]. split; [|split].
  - apply (Permutation_NoDup Hp) in Hnd. now apply NoDup_app_remove_r in Hnd.
  - exact Hincl.
  - intros Hfew. now apply submit_pass_stored.
Qed.

(** A use of [bot_pass_accepted]: seat c of the first round passes first. *)
Lemma bot_pass_accepted_witness :
  exists cards,
    choose_pass (hand_of (fst (start_round make_deck (HeartsGame four_players))) "c")
    = Ok cards /\ length cards = 3%nat.
Proof.
  destruct (bot_pass_accepted
              (fst (start_round make_deck (HeartsGame four_players))) "c")
    as [cards [H1 [H2 _]]].
  - vm_compute. reflexivity.
  - vm_compute. deck_cards.
  - apply distinct_NoDup. vm_compute. reflexivity.
  - vm_compute. lia.
  - exists cards. split; assumption.
Defined.

(** X24. A bot's play is accepted: at an ordered table in the playing phase,
    when the seat to move holds a card, [get_legal_moves] returns a non-empty
    list, [choose_play] picks a card of it, and [play_card] accepts that card
    and leaves an ordered table. *)
Theorem bot_play_accepted (st : GameState) (pid : string) :
  table_ok st -> phase st = playing -> current_turn st = Some pid ->
  hand_of st pid <> [] ->
  exists (legal : list Card) (c : Card) (st' : GameState),
    get_legal_moves st pid = Ok legal /\ legal <> [] /\
    choose_play legal = Ok c /\
    play_card pid c st = (st', Ok true) /\ table_ok st'.
Proof.
  intros Hok Hph Hturn Hne.
  pose proof (table_ok_hand st pid Hok) as Hdeck.
  destruct (legal_moves_returns (hand_of st pid) (trick st) (hearts_broken st)
              (trick_index st =? 0) Hdeck) as [legal Hlegal].
  { intros [p c] Hhd. destruct Hok as [_ [_ [_ Htr]]].
    destruct (trick st) as [|x tk]; [discriminate|]. injection Hhd as ->.
    destruct (Htr p c (or_introl eq_refl)) as [_ Hc].
    destruct (deck_card_suit c Hc) as [s Hs]. simpl. now rewrite Hs. }
  destruct (legal_moves_held _ _ _ _ _ Hlegal) as [Hincl Hsome].
  assert (Hdl : Forall deck_card legal).
  { apply Forall_forall. intros c Hc. rewrite Forall_forall in Hdeck. auto. }
  destruct (choose_play_result legal Hdl (Hsome Hne)) as [c [Hc [Hin _]]].
  destruct (play_accepted_returns st pid c Hok (Hincl c Hin))
    as [st' [Hrun [Hok' _]]].
  exists legal, c, st'. split; [exact Hlegal|]. split; [now apply Hsome|].
  split; [exact Hc|]. split; [|exact Hok'].
  rewrite (play_card_accepts st pid c legal); auto.
Qed.

(** A use of [bot_play_accepted]: seat d closes the first trick. *)
Lemma bot_play_accepted_witness :
  exists (legal : list Card) (c : Card) (st' : GameState),
    get_legal_moves fourth_to_play "d" = Ok legal /\ legal <> [] /\
    choose_play legal = Ok c /\
    play_card "d" c fourth_to_play = (st', Ok true) /\ table_ok st'.
Proof.
  apply bot_play_accepted.
  - split; [split; [|split]|split; [|split]].
    + apply distinct_NoDup. vm_compute. reflexivity.
    + vm_compute. reflexivity.
    + vm_compute. reflexivity.
    + vm_compute. reflexivity.
    + intros p h Hp. vm_compute in Hp.
      destruct Hp as [E|[E|[E|[E|[]]]]]; inversion E; deck_cards.
    + intros p c Hpc. vm_compute in Hpc.
      destruct Hpc as [E|[E|[E|[]]]]; inversion E;
        (split; [apply (proj1 (mem_In _ _)) | apply deck_card_mem]);
        vm_compute; reflexivity.
  - vm_compute. reflexivity.
  - vm_compute. reflexivity.
  - vm_compute. discriminate.
Defined.

(** ** The exchange loses no card *)

Lemma hand_update_cards (k : string) (g : list Card -> res (list Card))
    (hs hs' : Dict.t (list Card)) :
  hand_update k g hs = Ok hs' ->
  exists h h', g h = Ok h' /\
    Permutation (concat (Dict.values hs') ++ h) (concat (Dict.values hs) ++ h').
Proof.
  unfold hand_update, Dict.getitem.
  destruct (Dict.get hs k) as [h|] eqn:Eg; simpl; [|discriminate].
  destruct (g h) as [h'|e] eqn:Eh; simpl; [|discriminate].
  intros H. injection H as <-. exists h, h'. split; [exact Eh|].
  now apply dict_set_concat_swap.
Qed.

Lemma removal_inner_cards (k : string) (cards : list Card)
    (hs hs' : Dict.t (list Card)) :
  foldM (fun hs c => hand_update k (list_remove c) hs) cards hs = Ok hs' ->
  Permutation (concat (Dict.values hs)) (cards ++ concat (Dict.values hs')).
Proof.
  revert hs. induction cards as [|c cs IH]; intros hs; simpl.
  - intros H. now injection H as <-.
  - destruct (hand_update k (list_remove c) hs) as [hs1|e] eqn:E1; simpl;
      [|discriminate].
    intros H. apply IH in H.
    destruct (hand_update_cards _ _ _ _ E1) as [h [h' [Hr Hp]]].
    destruct (list_remove_ok c h h' Hr) as [_ [Hph _]].
    rewrite Hph in Hp.
    assert (Hp' : Permutation (c :: concat (Dict.values hs1) ++ h')
                              (concat (Dict.values hs) ++ h')).
    { rewrite <- Hp. rewrite <- Permutation_middle. reflexivity. }
    change (c :: concat (Dict.values hs1) ++ h')
      with ((c :: concat (Dict.values hs1)) ++ h') in Hp'.
    apply Permutation_app_inv_r in Hp'. rewrite <- Hp'.
    apply perm_skip. exact H.
Qed.

Lemma removal_loop_cards (pending hs hs1 : Dict.t (list Card)) :
  removal_loop pending hs = Ok hs1 ->
  Permutation (concat (Dict.values hs))
              (concat (Dict.values pending) ++ concat (Dict.values hs1)).
Proof.
  unfold removal_loop. revert hs. induction pending as [|[q l] pending IH];
    intros hs; simpl.
  - intros H. now injection H as <-.
  - destruct (foldM (fun hs c => hand_update q (list_remove c) hs) l hs)
      as [hs0|e] eqn:E0; simpl; [|discriminate].
    intros H. apply IH in H. apply removal_inner_cards in E0.
    rewrite E0, H. now rewrite app_assoc.
Qed.

Lemma extend_loop_cards (mapping : Dict.t string) (pending hs1 hs2 : Dict.t (list Card)) :
  extend_loop mapping pending hs1 = Ok hs2 ->
  Permutation (concat (Dict.values hs2))
              (concat (Dict.values pending) ++ concat (Dict.values hs1)).
Proof.
  unfold extend_loop. revert hs1. induction pending as [|[q l] pending IH];
    intros hs1; simpl.
  - intros H. now injection H as <-.
  - destruct (Dict.getitem mapping q) as [t|e]; simpl; [|discriminate].
    destruct (hand_update t (fun h => Ok (h ++ l)) hs1) as [hs0|e] eqn:E0; simpl;
      [|discriminate].
    intros H. apply IH in H.
    destruct (hand_update_cards _ _ _ _ E0) as [h [h' [Hr Hp]]].
    injection Hr as <-. rewrite app_assoc in Hp.
    rewrite (Permutation_app_comm (concat (Dict.values hs1) ++ h) l) in Hp.
    rewrite app_assoc in Hp. apply Permutation_app_inv_r in Hp.
    rewrite H, Hp. rewrite !app_assoc.
    apply Permutation_app_tail, Permutation_app_comm.
Qed.

Lemma sort_steps_cards (ks : list string) (hs hs' : Dict.t (list Card)) :
  foldM (fun hs pid => hand_update pid sort_hand hs) ks hs = Ok hs' ->
  Permutation (concat (Dict.values hs')) (concat (Dict.values hs)).
Proof.
  revert hs. induction ks as [|k ks IH]; intros hs; simpl.
  - intros H. now injection H as <-.
  - destruct (hand_update k sort_hand hs) as [hs0|e] eqn:E0; simpl; [|discriminate].
    intros H. apply IH in H.
    destruct (hand_update_cards _ _ _ _ E0) as [h [h' [Hr Hp]]].
    apply sort_hand_result in Hr. destruct Hr as [Hs _].
    rewrite Hs in Hp. apply Permutation_app_inv_r in Hp. now rewrite H.
Qed.

Lemma on_hands_ok (m : M unit)
    (f : Dict.t (list Card) -> res (Dict.t (list Card)))
    (st st' : GameState) :
  on_hands m f -> m st = (st', Ok tt) ->
  exists hs', f (hands st) = Ok hs' /\ st' = set_hands hs' st.
Proof.
  intros H Hrun. specialize (H st).
  destruct (f (hands st)) as [hs'|e].
  - exists hs'. split; [reflexivity | congruence].
  - destruct H as [hs' H]. congruence.
Qed.

Lemma bind_ok {A B : Type} (m : M A) (k : A -> M B) (st st' : GameState) (b : B) :
  bind m k st = (st', Ok b) ->
  exists st1 a, m st = (st1, Ok a) /\ k a st1 = (st', Ok b).
Proof.
  unfold bind. destruct (m st) as [st1 [a|e]]; [eauto | discriminate].
Qed.

Lemma exchange_cards (st st' : GameState) :
  exchange_passes st = (st', Ok tt) ->
  Permutation (concat (Dict.values (hands st'))) (concat (Dict.values (hands st))) /\
  trick st' = trick st /\ taken_points_round st' = taken_points_round st.
Proof.
  unfold exchange_passes. intros H.
  apply bind_ok in H. destruct H as [s0 [st0 [H0 H]]].
  injection H0 as <- <-.
  apply bind_ok in H. destruct H as [s1 [mapping [H1 H]]].
  unfold lift in H1. injection H1 as <- Hmap.
  apply bind_ok in H. destruct H as [s2 [[] [H2 H]]].
  apply (on_hands_ok _ _ _ _ (removal_on_hands (pending_pass st))) in H2.
  destruct H2 as [hs1 [Hrem ->]].
  apply bind_ok in H. destruct H as [s3 [[] [H3 H]]].
  apply (on_hands_ok _ _ _ _ (extend_on_hands mapping (pending_pass st))) in H3.
  destruct H3 as [hs2 [Hext ->]]. cbn [hands set_hands] in Hext.
  apply bind_ok in H. destruct H as [s4 [st4 [H4 H]]].
  injection H4 as <- <-.
  apply bind_ok in H. destruct H as [s5 [[] [H5 H]]].
  apply (on_hands_ok _ _ _ _ (sort_on_hands _)) in H5.
  destruct H5 as [hs3 [Hsort ->]]. cbn [hands set_hands] in Hsort.
  apply bind_ok in H. destruct H as [s6 [[] [H6 H]]]. injection H6 as <-.
  apply bind_ok in H. destruct H as [s7 [[] [H7 H]]]. injection H7 as <-.
  apply bind_ok in H. destruct H as [s8 [st8 [H8 H]]]. injection H8 as <- <-.
  unfold modify in H. injection H as <-.
  cbn [hands trick taken_points_round set_hands set_pending_pass set_phase
       set_current_turn].
  split; [|split; reflexivity].
  apply sort_steps_cards in Hsort.
  fold (removal_loop (pending_pass st) (hands st)) in Hrem.
  apply removal_loop_cards in Hrem. apply extend_loop_cards in Hext.
  rewrite Hsort, Hext, Hrem. reflexivity.
Qed.

Lemma submit_pass_frame (st st' : GameState) (pid : string) (cards : list Card)
    (b : bool) :
  submit_pass pid cards st = (st', Ok b) ->
  Permutation (concat (Dict.values (hands st'))) (concat (Dict.values (hands st))) /\
  trick st' = trick st /\ taken_points_round st' = taken_points_round st.
Proof.
  unfold submit_pass. intros H.
  apply bind_ok in H. destruct H as [s0 [st0 [H0 H]]]. injection H0 as <- <-.
  do 3 (match type of H with
        | (if ?c then _ else _) _ = _ =>
            destruct c; [unfold ret in H; injection H as <- _; now repeat split|]
        end).
  apply bind_ok in H. destruct H as [s1 [[] [H1 H]]]. injection H1 as <-.
  apply bind_ok in H. destruct H as [s2 [st2 [H2 H]]]. injection H2 as <- <-.
  match type of H with
  | (if ?c then _ else _) _ = _ =>
      destruct c; [unfold ret in H; injection H as <- _; now repeat split|]
  end.
  apply bind_ok in H. destruct H as [s3 [[] [H3 H]]].
  unfold ret in H. injection H as <- _.
  apply exchange_cards in H3. exact H3.
Qed.

(** X25. The exchange loses no card: whenever [submit_pass] returns, in any
    state and for any list, the cards held in all the hands together are the
    same cards as before, each as often as before. *)
Theorem submit_pass_keeps_cards (st st' : GameState) (pid : string)
    (cards : list Card) (b : bool) :
  submit_pass pid cards st = (st', Ok b) ->
  Permutation (concat (Dict.values (hands st'))) (concat (Dict.values (hands st))).
Proof. intros H. now apply (submit_pass_frame st st' pid cards b). Qed.

(** A use of [submit_pass_keeps_cards] on the completed first exchange. *)
Lemma submit_pass_keeps_cards_witness :
  Permutation
    (concat (Dict.values (hands (fst (submit_pass "a" ["2C"; "6C"; "TC"] three_passed)))))
    (concat (Dict.values (hands three_passed))).
Proof.
  apply (submit_pass_keeps_cards three_passed _ "a" ["2C"; "6C"; "TC"] true).
  vm_compute. reflexivity.
Defined.

(** ** The points of a round *)






(** ** The last card of a round *)

(** X27. The last card of a round: at an ordered table, when the accepted
    card completes the trick and is the only card still held, [play_card]
    returns True after [finish_round] has scored the round.  The phase is
    round_end or game_over, the round number has gone up by one, the table
    is cleared and the completed trick is the last trick; [current_turn] is
    not cleared: it still names the winner of the last trick. *)
Theorem play_card_ends_round (st : GameState) (pid : string) (card : Card)
    (legal : list Card) :
  table_ok st -> phase st = playing -> current_turn st = Some pid ->
  In card (hand_of st pid) ->
  get_legal_moves st pid = Ok legal -> In card legal ->
  len (players st) <= len (trick st) + 1 ->
  (forall q h, In (q, h) (hands st) -> h = [] \/ (q = pid /\ h = [card])) ->
  exists (st' : GameState) (w : string),
    play_card pid card st = (st', Ok true) /\
    trick_winner (trick st ++ [(pid, card)]) = Ok w /\
    current_turn st' = Some w /\
    (phase st' = round_end \/ phase st' = game_over) /\
    round_index st' = round_index st + 1 /\
    trick st' = [] /\ last_trick st' = trick st ++ [(pid, card)] /\
    (forall q h, In (q, h) (hands st') -> h = []).
Proof.
  intros Hok Hph Hturn Hhand Hlegal Hin Hfull Hlast.
  pose proof (hand_of_get st pid card Hhand) as Hg.
  pose proof (table_ok_hand st pid Hok) as Hdeckh.
  assert (Hdeck : deck_card card).
  { rewrite Forall_forall in Hdeckh. now apply Hdeckh. }
  assert (Hone : hand_of st pid = [card]).
  { destruct (Hlast pid _ (dict_In_of_get _ _ _ Hg)) as [E|[_ E]]; [|exact E].
    rewrite E in Hhand. destruct Hhand. }
  assert (Hr : list_remove card (hand_of st pid) = Ok []).
  { rewrite Hone. simpl. now rewrite String.eqb_refl. }
  destruct (deck_card_suit card Hdeck) as [s Hs].
  destruct Hok as [[Hnd [Hsc Htkn]] [Hkh [Hhd Htr]]].
  set (stc := card_played st pid card [] s).
  pose proof (card_played_fields st pid card [] s) as F. cbv zeta in F.
  fold stc in F.
  destruct F as (Fp & Fsc & Fh & Ft & Fhb & Fph & Fti & Fri & Ftk & _).
  assert (Htkc : Forall (fun pc => deck_card (snd pc)) (trick stc)).
  { rewrite Ft. apply Forall_forall. intros [p c] Hpc.
    apply in_app_or in Hpc. destruct Hpc as [Hpc|[Hpc|[]]].
    - now apply (Htr p c).
    - inversion Hpc. subst. exact Hdeck. }
  destruct (trick_winner_member (trick stc)) as [w [cw [Hw Hwin]]].
  { rewrite Ft. destruct (trick st); discriminate. }
  { exact Htkc. }
  assert (Hwk : In w (Dict.keys (taken_points_round stc))).
  { rewrite Ftk, Htkn. rewrite Ft in Hwin. apply in_app_or in Hwin.
    destruct Hwin as [Hwin|[Hwin|[]]].
    - now apply (Htr w cw).
    - inversion Hwin. subst. rewrite <- Hkh. apply dict_get_In. eauto. }
  destruct (dict_getitem_In _ w Hwk) as [t [_ Ht]].
  pose proof (trick_points_sum (trick stc) Htkc) as Hpts.
  set (pts := fold_right (fun pc n => points_of (snd pc) + n) 0 (trick stc)) in *.
  set (st1 := trick_taken stc w pts).
  pose proof (trick_taken_fields stc w pts) as T. cbv zeta in T. fold st1 in T.
  destruct T as (Tp & Tsc & Th & Tt & Tl & Tc & Thb & Tph & Tti & Tri & Ttk).
  assert (Hempty : forall q h, In (q, h) (hands stc) -> h = []).
  { intros q h Hq. rewrite Fh in Hq.
    assert (Hk : NoDup (Dict.keys (Dict.set (hands st) pid (@nil Card)))).
    { rewrite dict_keys_set_in by (apply dict_get_In; eauto). now rewrite Hkh. }
    apply (dict_get_of_In _ q h Hk) in Hq.
    destruct (String.eqb pid q) eqn:E.
    - apply String.eqb_eq in E. subst q. rewrite dict_get_set_same in Hq.
      now injection Hq as <-.
    - apply String.eqb_neq in E. rewrite dict_get_set_other in Hq by exact E.
      apply dict_In_of_get in Hq.
      destruct (Hlast q h Hq) as [E'|[E' _]]; [exact E' | congruence]. }
  assert (Hall : forallb (fun h => len h =? 0) (Dict.values (hands stc)) = true).
  { apply (proj2 (all_empty_iff _)). intros h Hh. unfold Dict.values in Hh.
    apply in_map_iff in Hh. destruct Hh as [[q h0] [E Hq]]. simpl in E. subst h0.
    now apply (Hempty q). }
  assert (Hrun : play_card pid card st
            = ((if forallb (fun h => len h =? 0) (Dict.values (hands stc))
                then finish_round
                else modify (set_trick_index (trick_index stc + 1))) ;;; ret true)
                st1).
  { rewrite (play_card_accepts st pid card legal) by assumption.
    rewrite (play_accepted_run st pid card _ [] s Hg Hr Hs). cbv zeta.
    fold stc. rewrite Ft, Fp, len_snoc.
    assert (E : (len (trick st) + 1 <? len (players st)) = false)
      by (now apply Z.ltb_ge).
    rewrite E. unfold bind at 1.
    rewrite (complete_trick_run stc w pts t Hw Hpts Ht). reflexivity. }
  rewrite Hall in Hrun.
  assert (Hseats1 : seats_ok st1).
  { unfold seats_ok, player_order. rewrite Tp, Tsc, Ttk, Fp, Fsc.
    rewrite dict_keys_set_in by exact Hwk. rewrite Ftk.
    unfold player_order in *. tauto. }
  rewrite <- Ft.
  destruct (finish_round_result st1 Hseats1)
    as [sc [_ [_ [[_ Hfin]|[_ [w' [_ Hfin]]]]]]].
  - exists (round_scored st1 sc), w. split.
    { rewrite Hrun. unfold bind. rewrite Hfin. reflexivity. }
    split; [exact Hw|].
    cbn [round_scored current_turn phase round_index trick last_trick hands
         set_round_index set_scores set_phase].
    rewrite Tc, Tri, Fri, Tt, Tl, Th.
    repeat split; try reflexivity; try tauto.
  - exists (set_winner_id (Some w') (set_phase game_over (round_scored st1 sc))), w.
    split.
    { rewrite Hrun. unfold bind. rewrite Hfin. reflexivity. }
    split; [exact Hw|].
    cbn [round_scored current_turn phase round_index trick last_trick hands
         set_round_index set_scores set_phase set_winner_id].
    rewrite Tc, Tri, Fri, Tt, Tl, Th.
    repeat split; try reflexivity; try tauto.
Qed.

(** A use of [play_card_ends_round]: the turn stays with the last winner. *)
Lemma play_card_ends_round_witness :
  exists (st' : GameState) (w : string),
    play_card "d" "5C" last_card_state = (st', Ok true) /\
    current_turn st' = Some w /\
    (phase st' = round_end \/ phase st' = game_over).
Proof.
  destruct (play_card_ends_round last_card_state "d" "5C" ["5C"])
    as (st' & w & Hrun & _ & Hturn & Hph & _).
  - split; [split; [|split]|split; [|split]].
    + apply distinct_NoDup. reflexivity.
    + reflexivity.
    + reflexivity.
    + reflexivity.
    + intros p h Hp. simpl in Hp.
      destruct Hp as [E|[E|[E|[E|[]]]]]; inversion E; deck_cards.
    + intros p c Hpc. simpl in Hpc.
      destruct Hpc as [E|[E|[E|[]]]]; inversion E;
        (split; [apply (proj1 (mem_In _ _)) | apply deck_card_mem]);
        reflexivity.
  - reflexivity.
  - reflexivity.
  - now left.
  - reflexivity.
  - now left.
  - vm_compute. discriminate.
  - intros q h Hq. simpl in Hq.
    destruct Hq as [E|[E|[E|[E|[]]]]]; inversion E; tauto.
  - exists st', w. tauto.
Defined.

(** ** Rooms *)

Section DictPop.
Context {V : Type}.
Implicit Types (d : Dict.t V) (k q : string).

Lemma dict_pop_keys_in d k q : In q (Dict.keys (Dict.pop d k)) -> In q (Dict.keys d).
Proof.
  induction d as [|[k0 v0] d IH]; simpl; [tauto|].
  destruct (String.eqb k0 k); simpl; tauto.
Qed.

Lemma dict_pop_nodup d k : NoDup (Dict.keys d) -> NoDup (Dict.keys (Dict.pop d k)).
Proof.
  induction d as [|[k0 v0] d IH]; simpl; intros H; [constructor|].
  inversion H as [|? ? Hn Hd]. subst.
  destruct (String.eqb k0 k); simpl; [exact Hd|].
  constructor; [|now apply IH].
  intros Hin. apply Hn. now apply (dict_pop_keys_in d k).
Qed.

Lemma dict_pop_not_in d k : NoDup (Dict.keys d) -> ~ In k (Dict.keys (Dict.pop d k)).
Proof.
  induction d as [|[k0 v0] d IH]; simpl; intros H; [tauto|].
  inversion H as [|? ? Hn Hd]. subst.
  destruct (String.eqb k0 k) eqn:E; simpl.
  - apply String.eqb_eq in E. now subst.
  - apply String.eqb_neq in E. intros [Hk|Hk]; [contradiction|].
    now apply IH.
Qed.

Lemma dict_get_pop_other d k q : q <> k -> Dict.get (Dict.pop d k) q = Dict.get d q.
Proof.
  intros Hne. induction d as [|[k0 v0] d IH]; simpl; [reflexivity|].
  destruct (String.eqb k0 k) eqn:E; simpl.
  - apply String.eqb_eq in E. subst k0.
    assert (E' : String.eqb k q = false) by (apply String.eqb_neq; congruence).
    now rewrite E'.
  - destruct (String.eqb k0 q); [reflexivity | exact IH].
Qed.

Lemma dict_pop_keys_other d k q :
  In q (Dict.keys d) -> q <> k -> In q (Dict.keys (Dict.pop d k)).
Proof.
  intros Hin Hne. apply dict_get_In. apply dict_get_In in Hin.
  now rewrite dict_get_pop_other.
Qed.

Lemma dict_pop_len d k : len (Dict.pop d k) <= len d.
Proof.
  unfold len. induction d as [|[k0 v0] d IH]; simpl; [lia|].
  destruct (String.eqb k0 k); simpl; lia.
Qed.

Lemma dict_set_len d k (v : V) : len (Dict.set d k v) <= len d + 1.
Proof.
  unfold len. induction d as [|[k0 v0] d IH]; simpl; [lia|].
  destruct (String.eqb k0 k); simpl; lia.
Qed.

Lemma dict_keys_set_cases d k (v : V) q :
  In q (Dict.keys (Dict.set d k v)) <-> In q (Dict.keys d) \/ q = k.
Proof.
  rewrite !dict_get_In. destruct (string_dec k q) as [->|Hne].
  - rewrite dict_get_set_same. split; eauto.
  - rewrite dict_get_set_other by exact Hne. split; [tauto|].
    intros [H|H]; [exact H | congruence].
Qed.

Lemma dict_set_nodup d k (v : V) :
  NoDup (Dict.keys d) -> NoDup (Dict.keys (Dict.set d k v)).
Proof.
  intros H. destruct (in_dec string_dec k (Dict.keys d)) as [Hin|Hin].
  - now rewrite dict_keys_set_in.
  - rewrite dict_keys_set_new by exact Hin.
    apply NoDup_app; [exact H | repeat constructor; intros [] |].
    intros x Hx [<-|[]]. contradiction.
Qed.
End DictPop.

(** X28. [add_player] keeps a room in order (distinct non-empty ids, at most
    [max_players] players, a host among the players), given a non-empty
    token.  It returns None and changes nothing exactly when the room is
    full or its game has left the lobby; otherwise the new player is stored
    under the token and becomes host only when the room had no host. *)
Theorem add_player_room (name : string) (bot : bool) (pid : string) (r : Room) :
  room_ok r -> pid <> "" ->
  room_ok (fst (add_player name bot pid r)) /\
  (snd (add_player name bot pid r) = None <->
   max_players r <= len (room_players r) \/ game_started r = true) /\
  (snd (add_player name bot pid r) = None -> fst (add_player name bot pid r) = r) /\
  (forall p, snd (add_player name bot pid r) = Some p ->
     p = mkPlayer pid name bot /\
     Dict.get (room_players (fst (add_player name bot pid r))) pid = Some p /\
     host_id (fst (add_player name bot pid r))
     = match host_id r with Some h => Some h | None => Some pid end /\
     game (fst (add_player name bot pid r)) = game r).
Proof.
  intros Hok Hpid. unfold add_player.
  destruct (Z.geb_spec (len (room_players r)) (max_players r)) as [Hfull|Hroom].
  { simpl. split; [exact Hok|]. split; [|split].
    - split; [intros _; left; lia | reflexivity].
    - reflexivity.
    - intros p Hp. discriminate. }
  destruct (game_started r) eqn:Eg.
  { simpl. split; [exact Hok|]. split; [|split].
    - split; [intros _; now right | reflexivity].
    - reflexivity.
    - intros p Hp. discriminate. }
  cbv zeta. cbn [host_id set_room_players].
  destruct Hok as [Hnd [Hne [Hlen Hhost]]].
  assert (Hnd' : NoDup (Dict.keys (Dict.set (room_players r) pid
                                     (mkPlayer pid name bot))))
    by now apply dict_set_nodup.
  assert (Hne' : forall k, In k (Dict.keys (Dict.set (room_players r) pid
                                             (mkPlayer pid name bot))) -> k <> "").
  { intros k Hk. apply dict_keys_set_cases in Hk.
    destruct Hk as [Hk| ->]; [now apply Hne | exact Hpid]. }
  assert (Hlen' : len (Dict.set (room_players r) pid (mkPlayer pid name bot))
                  <= max_players r).
  { pose proof (dict_set_len (room_players r) pid (mkPlayer pid name bot)). lia. }
  destruct (host_id r) as [h|] eqn:Eh.
  - assert (Et : truthy (Some h) = true).
    { simpl. apply negb_true_iff, String.eqb_neq. now apply Hne. }
    rewrite Et. cbn [fst snd room_players host_id game set_room_players].
    rewrite Eh. split; [|split; [|split]].
    + unfold room_ok. cbn [room_players host_id max_players set_room_players].
      rewrite Eh. repeat split; try assumption.
      apply dict_keys_set_cases. now left.
    + split; [discriminate | intros [H|H]; [lia | discriminate]].
    + discriminate.
    + intros p Hp. injection Hp as <-. repeat split.
      apply dict_get_set_same.
  - cbn [truthy fst snd room_players host_id game set_room_players set_host_id].
    split; [|split; [|split]].
    + unfold room_ok.
      cbn [room_players host_id max_players set_room_players set_host_id].
      repeat split; try assumption.
      apply dict_keys_set_cases. now right.
    + split; [discriminate | intros [H|H]; [lia | discriminate]].
    + discriminate.
    + intros p Hp. injection Hp as <-. repeat split.
      apply dict_get_set_same.
Qed.

(** A use of [add_player_room]: the first player of a room becomes host. *)
Lemma add_player_room_witness :
  host_id (fst (add_player "Ann" false "0a1b2c3d"
                  (mkRoom "ROOM01" 4 [] None None []))) = Some "0a1b2c3d".
Proof.
  destruct (add_player_room "Ann" false "0a1b2c3d"
              (mkRoom "ROOM01" 4 [] None None [])) as [_ [_ [_ H]]].
  - repeat split; simpl; try constructor; try tauto. unfold len. simpl. lia.
  - discriminate.
  - destruct (H (mkPlayer "0a1b2c3d" "Ann" false) eq_refl) as [_ [_ [Hh _]]].
    exact Hh.
Defined.

Lemma hd_error_keys_In (l : list string) (h : string) :
  hd_error l = Some h -> In h l.
Proof. destruct l; simpl; [discriminate|]. intros H. injection H as ->. now left. Qed.

(** X29. [remove_player] keeps a room in order.  Once the game has left the
    lobby the seat stays: the same ids are players, the host is unchanged
    and the player who left is flagged as a bot.  Otherwise the player is
    removed, the others are untouched, and when the host leaves the first
    remaining player, in the order of joining, becomes host (no host when
    nobody remains). *)
Theorem remove_player_room (pid : string) (r : Room) :
  room_ok r ->
  room_ok (remove_player pid r) /\
  (game_started r = true ->
   Dict.keys (room_players (remove_player pid r)) = Dict.keys (room_players r) /\
   host_id (remove_player pid r) = host_id r /\
   (forall p, Dict.get (room_players r) pid = Some p ->
      Dict.get (room_players (remove_player pid r)) pid
      = Some (mkPlayer (id p) (name p) true)) /\
   (forall q, q <> pid ->
      Dict.get (room_players (remove_player pid r)) q
      = Dict.get (room_players r) q)) /\
  (game_started r = false ->
   ~ In pid (Dict.keys (room_players (remove_player pid r))) /\
   (forall q, q <> pid ->
      Dict.get (room_players (remove_player pid r)) q
      = Dict.get (room_players r) q) /\
   (host_id r = Some pid ->
      host_id (remove_player pid r)
      = hd_error (Dict.keys (room_players (remove_player pid r)))) /\
   (host_id r <> Some pid -> host_id (remove_player pid r) = host_id r) /\
   game (remove_player pid r) = game r).
Proof.
  intros Hok. destruct Hok as [Hnd [Hne [Hlen Hhost]]].
  unfold remove_player. cbv zeta.
  change (game_started (set_connections (Dict.pop (connections r) pid) r))
    with (game_started r).
  cbn [room_players host_id set_connections].
  destruct (game_started r) eqn:Eg.
  - (* the game is on: the seat stays *)
    destruct (Dict.get (room_players r) pid) as [p|] eqn:Ep.
    + assert (Hin : In pid (Dict.keys (room_players r))).
      { apply dict_get_In. eauto. }
      cbn [room_players host_id max_players set_game set_room_players
           set_connections].
      split; [|split; [|discriminate]].
      * unfold room_ok.
        cbn [room_players host_id max_players set_game set_room_players
             set_connections].
        assert (Hk := dict_keys_set_in (room_players r) pid
                        (mkPlayer (id p) (name p) true) Hin).
        split; [now rewrite Hk|]. split; [now rewrite Hk|]. split.
        -- unfold len, Dict.keys in *.
           rewrite <- (length_map fst (Dict.set _ _ _)), Hk, length_map. exact Hlen.
        -- destruct (host_id r) as [h|]; [now rewrite Hk|].
           rewrite Hhost in Ep. discriminate.
      * intros _. split; [now apply dict_keys_set_in|]. split; [reflexivity|].
        split.
        -- intros p0 Hp0. injection Hp0 as <-. apply dict_get_set_same.
        -- intros q Hq. apply dict_get_set_other. congruence.
    + cbn [room_players host_id max_players set_connections].
      split; [|split; [|discriminate]].
      * unfold room_ok. cbn [room_players host_id max_players set_connections].
        tauto.
      * intros _. repeat split; try reflexivity. intros p0 Hp0. discriminate.
  - (* the lobby: the player goes *)
    cbn [room_players host_id set_room_players set_connections].
    assert (Hnd' := dict_pop_nodup (room_players r) pid Hnd).
    assert (Hne' : forall k, In k (Dict.keys (Dict.pop (room_players r) pid)) ->
                     k <> "").
    { intros k Hk. apply Hne. now apply (dict_pop_keys_in _ pid). }
    assert (Hlen' : len (Dict.pop (room_players r) pid) <= max_players r).
    { pose proof (dict_pop_len (room_players r) pid). lia. }
    destruct (opt_is (host_id r) pid) eqn:Eo.
    + (* the host leaves *)
      assert (Eh : host_id r = Some pid).
      { destruct (host_id r) as [h|]; simpl in Eo; [|discriminate].
        apply String.eqb_eq in Eo. now subst. }
      cbn [room_players host_id max_players game set_host_id set_room_players
           set_connections].
      split; [|split; [discriminate|]].
      * unfold room_ok.
        cbn [room_players host_id max_players set_host_id set_room_players
             set_connections].
        repeat (split; [assumption|]).
        destruct (hd_error (Dict.keys (Dict.pop (room_players r) pid))) as [h|] eqn:E.
        -- now apply hd_error_keys_In.
        -- destruct (Dict.pop (room_players r) pid) as [|[k v] d];
             [reflexivity | discriminate].
      * intros _. split; [now apply dict_pop_not_in|].
        split; [intros q Hq; now apply dict_get_pop_other|].
        split; [reflexivity|]. split; [congruence | reflexivity].
    + assert (Eh : host_id r <> Some pid).
      { intros E. rewrite E in Eo. simpl in Eo.
        rewrite String.eqb_refl in Eo. discriminate. }
      cbn [room_players host_id max_players game set_room_players set_connections].
      split; [|split; [discriminate|]].
      * unfold room_ok.
        cbn [room_players host_id max_players set_room_players set_connections].
        repeat (split; [assumption|]).
        destruct (host_id r) as [h|].
        -- apply dict_pop_keys_other; [exact Hhost | congruence].
        -- now rewrite Hhost.
      * intros _. split; [now apply dict_pop_not_in|].
        split; [intros q Hq; now apply dict_get_pop_other|].
        split; [congruence|]. split; reflexivity.
Qed.

(** A use of [remove_player_room]: the host leaves the lobby. *)
Lemma remove_player_room_witness :
  host_id (remove_player "0a1b2c3d"
             (mkRoom "ROOM01" 4
                [("0a1b2c3d", mkPlayer "0a1b2c3d" "Ann" false);
                 ("11223344", mkPlayer "11223344" "Bob" false)]
                (Some "0a1b2c3d") None [("0a1b2c3d", tt)]))
  = Some "11223344".
Proof.
  destruct (remove_player_room "0a1b2c3d"
              (mkRoom "ROOM01" 4
                 [("0a1b2c3d", mkPlayer "0a1b2c3d" "Ann" false);
                  ("11223344", mkPlayer "11223344" "Bob" false)]
                 (Some "0a1b2c3d") None [("0a1b2c3d", tt)]))
    as [_ [_ H]].
  - split; [|split; [|split]].
    + apply distinct_NoDup. reflexivity.
    + intros k Hk. simpl in Hk. destruct Hk as [<-|[<-|[]]]; discriminate.
    + unfold len. simpl. lia.
    + simpl. now left.
  - destruct (H eq_refl) as [_ [_ [Hh _]]]. rewrite (Hh eq_refl). reflexivity.
Defined.

(** ** The label of the pass direction *)

(** X30. The label shown for the pass direction of a started round follows
    the round number: left, right, across, hold, and round again; it is hold
    exactly when the round has started in the playing phase, without a pass. *)
Theorem pass_dir_label_round (deck : list Card) (st : GameState) :
  players st <> [] -> NoDup (player_order st) -> Forall deck_card deck ->
  pass_dir_label (pass_dir (fst (start_round deck st)))
  = nth (Z.to_nat (round_index st mod 4)) ["left"; "right"; "across"; "hold"] "hold" /\
  (pass_dir_label (pass_dir (fst (start_round deck st))) = "hold" <->
   phase (fst (start_round deck st)) = playing).
Proof.
  intros Hne Hnd Hdeck.
  destruct (deal_hands_result (players st) deck Hne Hnd Hdeck) as [hs [Hdeal _]].
  destruct (start_round_run deck st hs Hdeal)
    as (st' & Hrun & _ & _ & _ & _ & _ & _ & _ & _ & _ & _ & _ & Hpd & Hhold & Hpass).
  rewrite Hrun. cbn [fst]. rewrite Hpd.
  pose proof (Z.mod_pos_bound (round_index st) 4 ltac:(lia)) as Hb.
  unfold PASS_HOLD in *.
  assert (Hcases : round_index st mod 4 = 0 \/ round_index st mod 4 = 1 \/
                   round_index st mod 4 = 2 \/ round_index st mod 4 = 3) by lia.
  destruct Hcases as [E|[E|[E|E]]]; rewrite E in *.
  - destruct Hpass as [Hph _]; [lia|]. rewrite Hph.
    split; [reflexivity | split; discriminate].
  - destruct Hpass as [Hph _]; [lia|]. rewrite Hph.
    split; [reflexivity | split; discriminate].
  - destruct Hpass as [Hph _]; [lia|]. rewrite Hph.
    split; [reflexivity | split; discriminate].
  - destruct Hhold as [Hph _]; [reflexivity|]. rewrite Hph.
    split; [reflexivity | split; reflexivity].
Qed.

(** A use of [pass_dir_label_round]: the third round passes across. *)
Lemma pass_dir_label_round_witness :
  pass_dir_label
    (pass_dir (fst (start_round make_deck
                      (set_round_index 2 (HeartsGame four_players)))))
  = "across".
Proof.
  destruct (pass_dir_label_round make_deck
              (set_round_index 2 (HeartsGame four_players))) as [H _].
  - discriminate.
  - apply distinct_NoDup. reflexivity.
  - apply Forall_forall. intros c Hc. exact Hc.
  - rewrite H. reflexivity.
Defined.
